(** * lua_bufflib: a shallow embedding of [lua_bufflib.c]

    The development models the string-buffer library for Lua found in
    [src/lua_bufflib.c]: the growable backing store ([prepbuffsize]), the
    append family ([addstrings], [addsepstrings]), the metamethods
    ([bufflib_concat], [bufflib_equal], [bufflib_tostring], [bufflib_len],
    [bufflib_gc]), the lazy method resolution of [bufflib_index], the
    adapter [bufflib_stringop] up to its call of the string function, and
    the registration of [luaopen_bufflib].

    Conventions.
    - [size_t] values are integers in [Z] and every [size_t] operation of the
      source is written with its wrap-around modulo [2 ^ size_bits].
    - C memory is a heap of userdata blocks; a [char *] is a block together
      with an offset.  A [memcpy] that leaves its block is undefined
      behaviour in C and yields the outcome [Undefined].
    - A Lua error ([luaL_error], [luaL_checkudata], a failed allocation) is a
      [Raise] carrying the state reached when the error was thrown.
    - The garbage collector is not modelled: blocks released with
      [luaL_unref] stay in the heap, and the bytes of a string returned by
      [luaL_tolstring] stay readable after the string is popped. *)

From stdpp Require Import gmap strings list fin_maps pretty.
From Stdlib Require Import ZArith Lia.
From Stdlib Require Import Strings.Byte.

Local Open Scope Z_scope.

(** ** The platform: what [luaconf.h] and the C compiler fix *)

Class Platform := {
  size_bits : Z;                 (* width of size_t *)
  LUAL_BUFFERSIZE : Z;           (* luaconf.h; not part of this repository *)
  sizeof_Buffer : Z;             (* sizeof(Buffer) *)
  LUA_VERSION_NUM : Z;           (* lua.h: 501 for Lua 5.1, 502 for Lua 5.2, ... *)
  size_bits_pos : 0 < size_bits;
  buffersize_range : 0 < LUAL_BUFFERSIZE < 2 ^ size_bits
}.

Abbreviation bytes := (list byte).
Abbreviation addr := nat.

Definition blen (s : bytes) : Z := Z.of_nat (length s).

(** ** The host: values bufflib only passes through *)

Class Host := {
  lua_Number : Type;
  host_object : Type;   (* tables, Lua functions, coroutines, foreign userdata *)
  number_tostring : lua_Number → bytes;       (* lua_tolstring on a number *)
  object_tolstring : host_object → bytes;     (* luaL_tolstring on the rest *)
  object_isfunction : host_object → bool;     (* lua_isfunction *)
  pointer_tostring : string → option addr → bytes;  (* the "%s: %p" format *)
  integer_tonumber : Z → lua_Number;          (* lua_pushinteger *)
  junk : nat → byte                           (* content of fresh memory *)
}.

Section Bufflib.
Context `{PF : Platform} `{HO : Host}.

(** *** size_t arithmetic *)

Definition size_mod : Z := 2 ^ size_bits.
Definition size_add (x y : Z) : Z := (x + y) mod size_mod.
Definition size_sub (x y : Z) : Z := (x - y) mod size_mod.
Definition size_mul (x y : Z) : Z := (x * y) mod size_mod.

(** *** Values, objects and the Lua state *)

(** The C functions of [metareg] and [libreg], [bufflib_index] and
    [bufflib_stringop]. *)
Inductive cfunction :=
  | f_concat | f_equal | f_len | f_tostring | f_gc | f_add | f_addsep
  | f_reset | f_newbuffer | f_isbuffer | f_index | f_stringop.

Inductive value :=
  | VNil
  | VBool (x : bool)
  | VNumber (x : lua_Number)
  | VString (s : bytes)
  | VUserdata (a : addr)
  | VCFunction (f : cfunction)
  | VClosure (a : addr)          (* a C closure living at [a] *)
  | VObject (o : host_object).

(** [char *]: the inline array [initb] of the Buffer at [a], or the userdata
    block at [a]. *)
Inductive cptr :=
  | InitbOf (a : addr)
  | Udata (a : addr).

#[global] Instance cptr_eq_dec : EqDecision cptr.
Proof. solve_decision. Defined.

Definition LUA_NOREF : Z := -2.

Record Buffer := mkBuffer {
  ref : Z;          (* position of the buffer's userdata in the registry *)
  b : cptr;         (* buffer address *)
  size : Z;         (* buffer size *)
  n : Z;            (* number of characters in buffer *)
  initb : bytes     (* initial buffer *)
}.

Inductive object :=
  | OBuffer (B : Buffer)                       (* userdata with metatable BUFFERTYPE *)
  | OBlock (bs : bytes)                        (* userdata holding a char array *)
  | OClosure (f : cfunction) (upvalue : value).

(** A global variable as far as the library looks at it: nil, a table, or a
    value of another type. *)
Inductive global :=
  | GNil
  | GTable (t : gmap string value)
  | GOther.

Record lua_State := mkState {
  heap : gmap addr object;
  registry : gmap Z addr;                      (* integer keys of luaL_ref *)
  metatable : gmap string value;               (* registry[BUFFERTYPE]; empty when none yet *)
  loaded_bufflib : option (gmap string value); (* registry._LOADED.bufflib *)
  global_string : option (gmap string value);  (* _G.string when it is a table *)
  frealloc : gmap addr object → Z → bool;      (* does the allocator serve a request? *)
  string_isnil : bool;       (* when _G.string is no table: is it nil? *)
  global_bufflib : global    (* _G.bufflib, when _LOADED.bufflib is no table *)
}.

Definition set_heap (f : gmap addr object → gmap addr object) (L : lua_State) : lua_State :=
  mkState (f (heap L)) (registry L) (metatable L) (loaded_bufflib L)
          (global_string L) (frealloc L) (string_isnil L) (global_bufflib L).
Definition set_registry (f : gmap Z addr → gmap Z addr) (L : lua_State) : lua_State :=
  mkState (heap L) (f (registry L)) (metatable L) (loaded_bufflib L)
          (global_string L) (frealloc L) (string_isnil L) (global_bufflib L).
Definition set_metatable (t : gmap string value) (L : lua_State) : lua_State :=
  mkState (heap L) (registry L) t (loaded_bufflib L) (global_string L) (frealloc L)
          (string_isnil L) (global_bufflib L).
Definition set_loaded_bufflib (t : gmap string value) (L : lua_State) : lua_State :=
  mkState (heap L) (registry L) (metatable L) (Some t) (global_string L) (frealloc L)
          (string_isnil L) (global_bufflib L).

(** *** Errors and the state-and-error monad *)

Inductive error :=
  | BufferTooLarge            (* luaL_error(L, "buffer too large") *)
  | MemoryError               (* lua_newuserdata could not allocate *)
  | ArgError (narg : nat)     (* luaL_checkudata / luaL_checkstring *)
  | IndexError                (* lua_setfield on a value that is not a table *)
  | NameConflict.             (* luaL_register: "name conflict for module" *)

Inductive outcome (A : Type) :=
  | Ok (x : A) (L : lua_State)
  | Raise (e : error) (L : lua_State)
  | Undefined.
Arguments Ok {A} x L.
Arguments Raise {A} e L.
Arguments Undefined {A}.

Definition M (A : Type) : Type := lua_State → outcome A.

#[local] Instance M_ret : MRet M := λ A x L, Ok x L.
#[local] Instance M_bind : MBind M := λ A B f m L,
  match m L with
  | Ok x L' => f x L'
  | Raise e L' => Raise e L'
  | Undefined => Undefined
  end.

Definition throw {A} (e : error) : M A := λ L, Raise e L.
Definition undefined {A} : M A := λ _, Undefined.
Definition get_state : M lua_State := λ L, Ok L L.
Definition modify_state (f : lua_State → lua_State) : M unit := λ L, Ok tt (f L).

Definition luaL_error {A} (e : error) : M A := throw e.

(** *** C memory: blocks, loads and stores *)

(** A [char *] is a block and an offset into it. *)
Definition charp : Type := cptr * Z.

Definition block_of (p : cptr) (L : lua_State) : option bytes :=
  match p with
  | InitbOf a =>
      match heap L !! a with Some (OBuffer B) => Some (initb B) | _ => None end
  | Udata a =>
      match heap L !! a with Some (OBlock bs) => Some bs | _ => None end
  end.

Definition set_block (p : cptr) (bs : bytes) (L : lua_State) : lua_State :=
  match p with
  | InitbOf a =>
      match heap L !! a with
      | Some (OBuffer B) =>
          set_heap <[a := OBuffer (mkBuffer (ref B) (b B) (size B) (n B) bs)]> L
      | _ => L
      end
  | Udata a => set_heap <[a := OBlock bs]> L
  end.

Definition in_bounds (off k : Z) (bs : bytes) : bool :=
  (0 <=? off) && (0 <=? k) && (off + k <=? blen bs).

Definition load (p : charp) (k : Z) : M bytes := λ L,
  match block_of p.1 L with
  | Some bs =>
      if in_bounds p.2 k bs
      then Ok (take (Z.to_nat k) (drop (Z.to_nat p.2) bs)) L
      else Undefined
  | None => Undefined
  end.

Definition splice (bs : bytes) (off : Z) (data : bytes) : bytes :=
  take (Z.to_nat off) bs ++ data ++ drop (Z.to_nat off + length data) bs.

Definition store (p : charp) (data : bytes) : M unit := λ L,
  match block_of p.1 L with
  | Some bs =>
      if in_bounds p.2 (blen data) bs
      then Ok tt (set_block p.1 (splice bs p.2 data) L)
      else Undefined
  | None => Undefined
  end.

(** [memcpy(dst, src, k)] between blocks. *)
Definition memcpy (dst src : charp) (k : Z) : M unit :=
  data ← load src k; store dst data.

(** [memcpy(dst, str, k)] where [str] is the content of a Lua string. *)
Definition memcpy_string (dst : charp) (str : bytes) (k : Z) : M unit :=
  if (0 <=? k) && (k <=? blen str)
  then store dst (take (Z.to_nat k) str)
  else undefined.

(** *** The part of the Lua API the library calls *)

Definition junk_block (sz : Z) : bytes := junk <$> seq 0 (Z.to_nat sz).

(** [lua_newuserdata(L, sz)] for a char array. *)
Definition lua_newuserdata (sz : Z) : M addr := λ L,
  if frealloc L (heap L) sz
  then let a := fresh (dom (heap L)) in
       Ok a (set_heap <[a := OBlock (junk_block sz)]> L)
  else Raise MemoryError L.

(** [lua_newuserdata(L, sizeof(Buffer))] followed by
    [luaL_setmetatable(L, BUFFERTYPE)]: the fields are not initialised yet. *)
Definition lua_newuserdata_Buffer : M addr := λ L,
  if frealloc L (heap L) sizeof_Buffer
  then let a := fresh (dom (heap L)) in
       Ok a (set_heap
               <[a := OBuffer (mkBuffer 0 (InitbOf a) 0 0 (junk_block LUAL_BUFFERSIZE))]> L)
  else Raise MemoryError L.

Definition next_ref (reg : gmap Z addr) : Z :=
  1 + map_fold (λ k _ acc, Z.max k acc) 0 reg.

Definition luaL_ref (a : addr) : M Z := λ L,
  let r := next_ref (registry L) in Ok r (set_registry <[r := a]> L).

Definition luaL_unref (r : Z) : M unit :=
  if 0 <=? r then modify_state (set_registry (delete r)) else mret tt.

Definition lua_pushcclosure (f : cfunction) (upvalue : value) : M value := λ L,
  let a := fresh (dom (heap L)) in
  Ok (VClosure a) (set_heap <[a := OClosure f upvalue]> L).

Definition lua_isfunction (v : value) : bool :=
  match v with
  | VCFunction _ | VClosure _ => true
  | VObject o => object_isfunction o
  | _ => false
  end.

Definition lua_isnil (v : value) : bool :=
  match v with VNil => true | _ => false end.

Definition lua_getfield (t : gmap string value) (k : string) : value :=
  default VNil (t !! k).

Definition lua_setfield (t : gmap string value) (k : string) (v : value)
  : gmap string value :=
  if lua_isnil v then delete k t else <[k := v]> t.

(** The value at a positive stack index. *)
Definition index2value (stack : list value) (i : Z) : option value :=
  if 1 <=? i then stack !! Z.to_nat (i - 1) else None.

Definition lua_gettop (stack : list value) : Z := Z.of_nat (length stack).

(** *** The Buffer structure *)

Definition with_ref (r : Z) (B : Buffer) : Buffer :=
  mkBuffer r (b B) (size B) (n B) (initb B).
Definition with_b (p : cptr) (B : Buffer) : Buffer :=
  mkBuffer (ref B) p (size B) (n B) (initb B).
Definition with_size (s : Z) (B : Buffer) : Buffer :=
  mkBuffer (ref B) (b B) s (n B) (initb B).
Definition with_n (k : Z) (B : Buffer) : Buffer :=
  mkBuffer (ref B) (b B) (size B) k (initb B).

(** Dereference a [Buffer *]. *)
Definition getB (B : addr) : M Buffer := λ L,
  match heap L !! B with
  | Some (OBuffer B0) => Ok B0 L
  | _ => Undefined
  end.

(** Assign a field through a [Buffer *]. *)
Definition assign (B : addr) (f : Buffer → Buffer) : M unit :=
  B0 ← getB B; modify_state (set_heap <[B := OBuffer (f B0)]>).

(** [#define addsize(B,s) ((B)->n += (s))] *)
Definition addsize (B : addr) (s : Z) : M unit :=
  B0 ← getB B; assign B (with_n (size_add (n B0) s)).

(** [#define buff_unref(L, B)] *)
Definition buff_unref (B : addr) : M unit :=
  B0 ← getB B;
  if bool_decide (ref B0 ≠ LUA_NOREF) then luaL_unref (ref B0) else mret tt.

Definition prepbuffsize (B : addr) (sz : Z) : M charp :=
  B0 ← getB B;
  (if size_sub (size B0) (n B0) <? sz then        (* not enough space? *)
     let newsize := size_mul (size B0) 2 in       (* double buffer size *)
     let newsize :=
       if size_sub newsize (n B0) <? sz           (* not big enough? *)
       then size_add (n B0) sz else newsize in
     (if (newsize <? n B0) || (size_sub newsize (n B0) <? sz)
      then luaL_error BufferTooLarge else mret tt);;
     newbuff ← lua_newuserdata newsize;           (* create larger buffer *)
     memcpy (Udata newbuff, 0) (b B0, 0) (n B0);; (* move content to new buffer *)
     buff_unref B;;                               (* remove old buffer *)
     r ← luaL_ref newbuff;
     assign B (with_ref r);;
     assign B (with_b (Udata newbuff));;
     assign B (with_size newsize)
   else mret tt);;
  B1 ← getB B;
  mret (b B1, n B1).

Definition buffinit (B : addr) : M unit :=
  assign B (with_b (InitbOf B));;
  assign B (with_n 0);;
  assign B (with_size LUAL_BUFFERSIZE);;
  assign B (with_ref LUA_NOREF).

Definition newbuffer : M addr :=
  B ← lua_newuserdata_Buffer;
  buffinit B;;
  mret B.

(** [luaL_testudata(L, i, BUFFERTYPE)] *)
Definition luaL_testudata (stack : list value) (i : Z) : M (option addr) := λ L,
  match index2value stack i with
  | Some (VUserdata a) =>
      match heap L !! a with
      | Some (OBuffer _) => Ok (Some a) L
      | _ => Ok None L
      end
  | _ => Ok None L
  end.

(** [#define getbuffer(L, i) ((Buffer * )luaL_checkudata(L, i, BUFFERTYPE))] *)
Definition getbuffer (stack : list value) (i : Z) : M addr :=
  p ← luaL_testudata stack i;
  match p with
  | Some a => mret a
  | None => throw (ArgError (Z.to_nat i))
  end.

(** [#define isbuffer(L, i) (luaL_testudata(L, i, BUFFERTYPE) != NULL)] *)
Definition isbuffer (stack : list value) (i : Z) : M bool :=
  p ← luaL_testudata stack i; mret (bool_decide (p ≠ None)).

Definition lua_pushlstring (p : charp) (k : Z) : M bytes := load p k.

(** The string [bufflib_tostring] pushes for the Buffer at [B]. *)
Definition buffer_tostring (B : addr) : M bytes :=
  B0 ← getB B; lua_pushlstring (b B0, 0) (n B0).

(** [luaL_tolstring(L, i, &len)]: the [__tostring] metamethod of a Buffer is
    [bufflib_tostring]; the other cases follow the function as the source
    gives it for Lua 5.1. *)
Definition luaL_tolstring (stack : list value) (i : Z) : M bytes := λ L,
  match index2value stack i with
  | Some (VNumber x) => Ok (number_tostring x) L
  | Some (VString s) => Ok s L
  | Some (VBool x) =>
      Ok (String.list_byte_of_string (if x then "true" else "false")) L
  | Some VNil => Ok (String.list_byte_of_string "nil") L
  | Some (VUserdata a) =>
      match heap L !! a with
      | Some (OBuffer _) => buffer_tostring a L
      | _ => Ok (pointer_tostring "userdata" (Some a)) L
      end
  | Some (VCFunction _) => Ok (pointer_tostring "function" None) L
  | Some (VClosure a) => Ok (pointer_tostring "function" (Some a)) L
  | Some (VObject o) => Ok (object_tolstring o) L
  | None => Ok (pointer_tostring "no value" None) L
  end.

(** [#define tolstring(L, i, l) luaL_tolstring(L, i, l); lua_pop(L, 1)] *)
Definition tolstring (stack : list value) (i : Z) : M bytes :=
  luaL_tolstring stack i.

(** *** Adding strings *)

(** One round of [prepbuffsize], [memcpy], [addsize]: the body of the loop of
    [addstrings], and the tail of [addsepstrings] and [bufflib_concat]. *)
Definition addlstring (B : addr) (str : bytes) : M unit :=
  let len := blen str in
  p ← prepbuffsize B len;
  memcpy_string p str len;;
  addsize B len.

(** [for (i = firstarg; i <= numargs; i++)], with [k] rounds left. *)
Fixpoint addstrings_loop (B : addr) (stack : list value) (i : Z) (k : nat) : M unit :=
  match k with
  | O => mret tt
  | S k' =>
      str ← tolstring stack i;
      addlstring B str;;
      addstrings_loop B stack (i + 1) k'
  end.

Definition addstrings (B : addr) (stack : list value) (firstarg offset : Z) : M unit :=
  let numargs := lua_gettop stack - offset in
  addstrings_loop B stack firstarg (Z.to_nat (numargs + 1 - firstarg)).

(** The string followed by the separator, after one [prepbuffsize] for both
    lengths: the body of the loop of [addsepstrings]; [bufflib_concat] adds two
    strings to the new Buffer the same way. *)
Definition addlstring2 (B : addr) (str sep : bytes) : M unit :=
  let len := blen str in
  let seplen := blen sep in
  p ← prepbuffsize B (size_add len seplen);
  memcpy_string p str len;;
  addsize B len;;
  let p := (p.1, p.2 + len) in      (* b += len *)
  memcpy_string p sep seplen;;
  addsize B seplen.

(** [for (i = 3; i < numargs; i++)], with [k] rounds left. *)
Fixpoint addsepstrings_loop (B : addr) (stack : list value) (sep : bytes)
    (i : Z) (k : nat) : M unit :=
  match k with
  | O => mret tt
  | S k' =>
      str ← tolstring stack i;
      addlstring2 B str sep;;
      addsepstrings_loop B stack sep (i + 1) k'
  end.

Definition addsepstrings (B : addr) (stack : list value) : M unit :=
  let numargs := lua_gettop stack in
  sep ← tolstring stack 2;                    (* Get the separator string *)
  addsepstrings_loop B stack sep 3 (Z.to_nat (numargs - 3));;
  str ← tolstring stack numargs;              (* Add the final string *)
  addlstring B str.

(** [lua_pushvalue(L, i); return 1;] *)
Definition pushbuffer (stack : list value) (i : Z) : M (list value) :=
  match index2value stack i with
  | Some v => mret [v]
  | None => undefined
  end.

(** *** The functions of the library *)

Definition bufflib_add (args : list value) : M (list value) :=
  B ← getbuffer args 1;
  addstrings B args 2 0;;
  pushbuffer args 1.

Definition bufflib_addsep (args : list value) : M (list value) :=
  B ← getbuffer args 1;
  addsepstrings B args;;
  pushbuffer args 1.

Definition bufflib_reset (args : list value) : M (list value) :=
  B ← getbuffer args 1;
  buff_unref B;;
  buffinit B;;
  pushbuffer args 1.

Definition bufflib_tostring (args : list value) : M (list value) :=
  B ← getbuffer args 1;
  s ← buffer_tostring B;
  mret [VString s].

(** [lua_pushinteger(L, B->n)]: [size_t] to [lua_Integer] to [lua_Number]. *)
Definition to_lua_Integer (z : Z) : Z :=
  if z <? 2 ^ (size_bits - 1) then z else z - size_mod.

Definition bufflib_len (args : list value) : M (list value) :=
  B ← getbuffer args 1;
  B0 ← getB B;
  mret [VNumber (integer_tonumber (to_lua_Integer (n B0)))].

Fixpoint bytes_eqb (s1 s2 : bytes) : bool :=
  match s1, s2 with
  | [], [] => true
  | x :: s1', y :: s2' => Byte.eqb x y && bytes_eqb s1' s2'
  | _, _ => false
  end.

(** [lua_rawequal] on two strings. *)
Definition lua_rawequal_strings (s1 s2 : bytes) : bool := bytes_eqb s1 s2.

Definition bufflib_equal (args : list value) : M (list value) :=
  buff1 ← getbuffer args 1;
  buff2 ← getbuffer args 2;
  s1 ← buffer_tostring buff1;
  s2 ← buffer_tostring buff2;
  mret [VBool (lua_rawequal_strings s2 s1)].

Definition bufflib_gc (args : list value) : M (list value) :=
  B ← getbuffer args 1;
  buff_unref B;;
  mret [].

Definition bufflib_newbuffer (args : list value) : M (list value) :=
  B ← newbuffer;
  addstrings B (args ++ [VUserdata B]) 1 1;;
  mret [VUserdata B].

Definition bufflib_isbuffer (args : list value) : M (list value) :=
  x ← isbuffer args 1;
  mret [VBool x].

Definition bufflib_concat (args : list value) : M (list value) :=
  arg1IsBuffer ← isbuffer args 1;
  arg2IsBuffer ← isbuffer args 2;
  if arg1IsBuffer && arg1IsBuffer then
    destbuff ← newbuffer;
    let stack := args ++ [VUserdata destbuff] in
    str1 ← tolstring stack 1;
    str2 ← tolstring stack 2;
    addlstring2 destbuff str1 str2;;
    mret [VUserdata destbuff]                 (* The new Buffer is already on the stack *)
  else
    '(destbuff, str, buffindex) ←
      (if arg1IsBuffer : bool
       then destbuff ← getbuffer args 1; str ← tolstring args 2; mret (destbuff, str, 1)
       else destbuff ← getbuffer args 2; str ← tolstring args 1; mret (destbuff, str, 2));
    addlstring destbuff str;;
    pushbuffer args buffindex.

(** *** Method resolution: [bufflib_stringop] closures and [bufflib_index] *)

Definition STRINGPREFIX : string := "s_".
Definition STRINGPREFIXLEN : nat := 2.

(** The C string a Lua string is read as: its bytes up to the first zero. *)
Fixpoint until_nul (s : bytes) : bytes :=
  match s with
  | [] => []
  | x :: s' => if Byte.eqb x x00 then [] else x :: until_nul s'
  end.

Definition c_str (s : bytes) : string := String.string_of_list_byte (until_nul s).

Definition luaL_checkstring (stack : list value) (i : Z) : M string :=
  match index2value stack i with
  | Some (VString s) => mret (c_str s)
  | Some (VNumber x) => mret (c_str (number_tostring x))
  | _ => throw (ArgError (Z.to_nat i))
  end.

(** [key + k] on a C string. *)
Fixpoint string_skip (k : nat) (s : string) : string :=
  match k, s with
  | S k', String _ s' => string_skip k' s'
  | _, _ => s
  end.

(** [pos == NULL || (pos - key) != 0] for [pos = strstr(key, STRINGPREFIX)]. *)
Definition not_at_start (pos : option nat) : bool :=
  match pos with
  | Some O => false
  | _ => true
  end.

(** The function is the [__index] metamethod: it is called with the Buffer
    and the key, so that stack index 3 is the metatable it pushes. *)
Definition bufflib_index (args : list value) : M (list value) :=
  key ← luaL_checkstring args 2;
  match args with
  | [VUserdata B; _] =>
      getB B;;                                   (* Get the Buffer's metatable *)
      L ← get_state;
      let v := lua_getfield (metatable L) key in (* mt[key] *)
      if negb (lua_isnil v) then mret [v]
      else
        let pos := String.index 0 STRINGPREFIX key in
        if not_at_start pos then mret [VNil]
        else
          match global_string L with
          | None => mret [VNil]                  (* there's no string table *)
          | Some strtab =>
              let strkey := string_skip STRINGPREFIXLEN key in
              let f := lua_getfield strtab strkey in
              if negb (lua_isfunction f) then mret [VNil]
              else
                closure ← lua_pushcclosure f_stringop f;
                modify_state (λ L, set_metatable (lua_setfield (metatable L) key closure) L);;
                L ← get_state;
                match loaded_bufflib L with
                | Some lib =>
                    modify_state (set_loaded_bufflib (lua_setfield lib key closure))
                | None => throw IndexError
                end;;
                mret [closure]                   (* Return the original closure *)
          end
  | _ => undefined
  end.

(** [lua_remove(L, i)] and [lua_insert(L, i)] on a stack, for a positive
    index. *)
Definition lua_remove (stack : list value) (i : Z) : list value :=
  take (Z.to_nat (i - 1)) stack ++ drop (Z.to_nat i) stack.

Definition lua_insert (stack : list value) (i : Z) : list value :=
  match last stack with
  | Some top =>
      let below := take (length stack - 1) stack in
      take (Z.to_nat (i - 1)) below ++ top :: drop (Z.to_nat (i - 1)) below
  | None => stack
  end.

(** [bufflib_stringop] up to its [lua_call]: the stack the call is made on
    (the function, then its arguments) and the number of arguments.  What the
    called function does, and so what [bufflib_stringop] returns, is the
    host's. *)
Definition bufflib_stringop_call (upvalue : value) (args : list value)
  : M (list value * Z) :=
  B ← getbuffer args 1;
  let numargs := lua_gettop args in
  let stack := lua_remove args 1 in          (* Remove the Buffer from the stack *)
  let stack := stack ++ [upvalue] in         (* String function to call *)
  let stack := lua_insert stack 1 in         (* Insert it before the arguments *)
  s ← buffer_tostring B;                     (* Buffer contents as a string *)
  let stack := stack ++ [VString s] in
  let stack := lua_insert stack 2 in         (* Insert it between the function and the arguments *)
  mret (stack, numargs).

(** *** Registration *)

Definition metareg : list (string * cfunction) :=
  [("__concat", f_concat); ("__eq", f_equal); ("__len", f_len);
   ("__tostring", f_tostring); ("__gc", f_gc); ("add", f_add);
   ("addsep", f_addsep); ("reset", f_reset)]%string.

Definition libreg : list (string * cfunction) :=
  [("add", f_add); ("addsep", f_addsep); ("equal", f_equal);
   ("concat", f_concat); ("length", f_len); ("new", f_newbuffer);
   ("reset", f_reset); ("tostring", f_tostring); ("isbuffer", f_isbuffer)]%string.

Definition luaL_setfuncs (l : list (string * cfunction)) (t : gmap string value)
  : gmap string value :=
  foldl (λ t kf, lua_setfield t kf.1 (VCFunction kf.2)) t l.

(** [lua_tostring] of the string [STRINGPREFIX .. key], as the C string that
    [lua_setfield] takes for the name of the field. *)
Definition prefixed_key (k : string) : string :=
  c_str (String.list_byte_of_string (STRINGPREFIX +:+ k)).

(** The loop over the string table: [pairs] is what [lua_next] enumerates,
    without the pairs whose key is no string, which the loop skips.  [newkey]
    is read after the string it points into was popped; the collector is
    taken not to have freed it by then. *)
Fixpoint luaopen_loop (pairs : list (string * value)) : M unit :=
  match pairs with
  | [] => mret tt
  | (k, v) :: rest =>
      (if negb (lua_isfunction v) then mret tt
       else
         let newkey := prefixed_key k in
         closure ← lua_pushcclosure f_stringop v;
         L ← get_state;
         modify_state (set_metatable (lua_setfield (metatable L) newkey closure));;
         match loaded_bufflib L with
         | Some lib => modify_state (set_loaded_bufflib (lua_setfield lib newkey closure))
         | None => undefined
         end);;
      luaopen_loop rest
  end.

(** [luaL_newlib(L, libreg)] up to the table the functions are put into.
    Under Lua 5.1 it is [luaL_register(L, LIBNAME, libreg)]: the table is
    [_LOADED.bufflib] when that is a table, and otherwise the global
    [bufflib], which is made when it is nil and refused when it is no table,
    and which becomes [_LOADED.bufflib].  From Lua 5.2 on it is a new
    table. *)
Definition luaL_newlib_table : M (gmap string value) := λ L,
  if LUA_VERSION_NUM <? 502 then
    match loaded_bufflib L with
    | Some t => Ok t L
    | None =>
        match global_bufflib L with
        | GNil => Ok ∅ L
        | GTable t => Ok t L
        | GOther => Raise NameConflict L
        end
    end
  else Ok ∅ L.

(** [luaopen_bufflib] as [require] runs it: the library table it returns is
    [_LOADED.bufflib] afterwards ([luaL_register] stores it there under Lua
    5.1, [require] does from Lua 5.2 on).  [luaL_newmetatable] takes the
    table [registry[BUFFERTYPE]] and makes it when there is none.  The two
    tables are taken to have no metatable of their own and to be other
    tables than [_G.string]; [lua_next] is taken to enumerate the string
    table in the order of [map_to_list], an order that matters only when two
    names agree up to a zero byte. *)
Definition luaopen_bufflib : M unit :=
  L ← get_state;
  let mt := luaL_setfuncs metareg (metatable L) in
  let mt := lua_setfield mt "__index" (VCFunction f_index) in
  modify_state (set_metatable mt);;
  lib ← luaL_newlib_table;
  let lib := luaL_setfuncs libreg lib in
  let lib := lua_setfield lib "buffersize" (VNumber (integer_tonumber LUAL_BUFFERSIZE)) in
  modify_state (set_loaded_bufflib lib);;
  L ← get_state;
  match global_string L with
  | Some strtab => luaopen_loop (map_to_list strtab)
  | None =>
      if string_isnil L then mret tt   (* there's no string table, return now *)
      else undefined                   (* lua_next on a value that is no table *)
  end.

(** The functions a Lua program reaches through the two tables. *)
Definition call (f : cfunction) (args : list value) : M (list value) :=
  match f with
  | f_concat => bufflib_concat args
  | f_equal => bufflib_equal args
  | f_len => bufflib_len args
  | f_tostring => bufflib_tostring args
  | f_gc => bufflib_gc args
  | f_add => bufflib_add args
  | f_addsep => bufflib_addsep args
  | f_reset => bufflib_reset args
  | f_newbuffer => bufflib_newbuffer args
  | f_isbuffer => bufflib_isbuffer args
  | f_index => bufflib_index args
  | f_stringop => undefined     (* calls into the host; not modelled *)
  end.

End Bufflib.

Arguments Ok {HO A} x L.
Arguments Raise {HO A} e L.
Arguments Undefined {HO A}.
#[global] Existing Instance M_ret.
#[global] Existing Instance M_bind.

(** ** A concrete platform and host to run the model on *)

Module Examples.

(** An LP64 platform with Lua 5.1 whose [luaconf.h] sets [LUAL_BUFFERSIZE] to
    16, so that the store grows on short strings. *)
#[program] Definition lp64 : Platform :=
  {| size_bits := 64; LUAL_BUFFERSIZE := 16; sizeof_Buffer := 56;
     LUA_VERSION_NUM := 501 |}.
Next Obligation. reflexivity. Qed.
Next Obligation. split; reflexivity. Qed.

Definition str (s : string) : bytes := String.list_byte_of_string s.

(** Numbers are integers; a host object is a function known by its name. *)
Definition host : Host :=
  {| lua_Number := Z;
     host_object := string;
     number_tostring := λ z, str (pretty z);
     object_tolstring := λ o, str ("function: " +:+ o);
     object_isfunction := λ _, true;
     pointer_tostring := λ ty p, str (ty +:+ ": " +:+ from_option pretty "(nil)" p);
     integer_tonumber := λ z, z;
     junk := λ _, "?"%byte |}.

End Examples.

(** * Properties *)

Section Properties.
Context `{PF : Platform} `{HO : Host}.
Local Open Scope Z_scope.

Lemma size_mod_pos : 1 < size_mod.
Proof.
  unfold size_mod. pose proof size_bits_pos.
  assert (2 ^ 1 <= 2 ^ size_bits) by (apply Z.pow_le_mono_r; lia). lia.
Qed.

Definition size_half : Z := 2 ^ (size_bits - 1).

Lemma size_mod_half : size_mod = 2 * size_half.
Proof.
  unfold size_mod, size_half. pose proof size_bits_pos.
  rewrite <- Z.pow_succ_r by lia. f_equal. lia.
Qed.

Lemma size_sub_exact x y : 0 <= y <= x -> x < size_mod -> size_sub x y = x - y.
Proof. intros. unfold size_sub. apply Z.mod_small. lia. Qed.

Lemma size_add_exact x y : 0 <= x + y < size_mod -> size_add x y = x + y.
Proof. intros. unfold size_add. apply Z.mod_small. lia. Qed.

Lemma size_mod_range x : 0 <= x mod size_mod < size_mod.
Proof. apply Z.mod_pos_bound. pose proof size_mod_pos. lia. Qed.

Lemma Zmod_cases x : 0 <= x < 2 * size_mod -> x mod size_mod = x \/ x mod size_mod = x - size_mod.
Proof.
  intros. pose proof size_mod_pos.
  destruct (Z_lt_dec x size_mod).
  - left. apply Z.mod_small. lia.
  - right. symmetry. apply Z.mod_unique with (q := 1); lia.
Qed.
Lemma Zmod_cases_neg x : - size_mod <= x < size_mod -> x mod size_mod = x \/ x mod size_mod = x + size_mod.
Proof.
  intros. pose proof size_mod_pos.
  destruct (Z_lt_dec x 0).
  - right. symmetry. apply Z.mod_unique with (q := -1); lia.
  - left. apply Z.mod_small. lia.
Qed.

(* candidate analysis *)
Lemma grow_ok sz nn ss :
  0 <= nn <= ss -> ss < size_mod -> 0 <= sz ->
  ss - nn < sz ->
  let d := size_mul ss 2 in
  let cand := if size_sub d nn <? sz then size_add nn sz else d in
  ((cand <? nn) || (size_sub cand nn <? sz) = false ->
     nn + sz <= cand < size_mod /\ (cand = 2 * ss \/ cand = nn + sz)) /\
  (nn + sz <= size_half -> (cand <? nn) || (size_sub cand nn <? sz) = false).
Proof.
  intros Hn Hs Hsz Hfit d cand. pose proof size_mod_pos. pose proof size_mod_half.
  assert (Hd : d = 2 * ss \/ d = 2 * ss - size_mod).
  { unfold d, size_mul. replace (ss * 2) with (2 * ss) by lia. apply Zmod_cases. lia. }
  assert (0 <= d < size_mod) by (apply size_mod_range).
  subst cand. unfold size_sub, size_add.
  split.
  - intros Hc. apply orb_false_iff in Hc as [Hc1 Hc2].
    apply Z.ltb_ge in Hc1, Hc2.
    destruct (Z.ltb_spec ((d - nn) mod size_mod) sz) as [Hlt|Hge].
    + pose proof (size_mod_range (nn + sz)).
      assert (0 <= (nn + sz) mod size_mod - nn < size_mod) by lia.
      rewrite Z.mod_small in Hc2 by lia.
      assert (sz < size_mod) by lia.
      destruct (Zmod_cases (nn + sz)) as [E|E]; [lia| |]; rewrite E in *; lia.
    + rewrite (Z.mod_small (d - nn)) in * by lia. lia.
  - intros Hh. apply orb_false_iff.
    assert (d = 2 * ss) by lia.
    assert (E : (d - nn) mod size_mod = d - nn) by (apply Z.mod_small; lia).
    rewrite E.
    destruct (Z.ltb_spec (d - nn) sz).
    + rewrite (Z.mod_small (nn + sz)) by lia.
      rewrite (Z.mod_small (nn + sz - nn)) by lia. split; apply Z.ltb_ge; lia.
    + rewrite E. split; apply Z.ltb_ge; lia.
Qed.

(** ** Views of the state *)

Definition buffer (L : lua_State) (a : addr) : option Buffer :=
  match heap L !! a with Some (OBuffer B) => Some B | _ => None end.

(** What [bufflib_tostring] returns for the Buffer at [a]. *)
Definition contents (L : lua_State) (a : addr) : option bytes :=
  match buffer_tostring a L with Ok s _ => Some s | _ => None end.

Record wf_state (L : lua_State) : Prop := {
  wf_range : ∀ a B, buffer L a = Some B → 0 <= n B <= size B ∧ size B < size_mod;
  wf_initb : ∀ a B, buffer L a = Some B → blen (initb B) = LUAL_BUFFERSIZE;
  wf_inline : ∀ a B a', buffer L a = Some B → b B = InitbOf a' → a' = a;
  wf_backed : ∀ a B, buffer L a = Some B →
                ∃ bs, block_of (b B) L = Some bs ∧ blen bs = size B;
  wf_owner : ∀ a1 a2 B1 B2 x, buffer L a1 = Some B1 → buffer L a2 = Some B2 →
                b B1 = Udata x → b B2 = Udata x → a1 = a2
}.

(** Everything but the Buffer at [a] and its backing store is as it was. *)
Record kept (a : addr) (L L' : lua_State) : Prop := {
  kept_buffer : ∀ y, y ≠ a → buffer L' y = buffer L y;
  kept_block : ∀ y B1, y ≠ a → buffer L y = Some B1 →
                 block_of (b B1) L' = block_of (b B1) L;
  kept_metatable : metatable L' = metatable L;
  kept_loaded : loaded_bufflib L' = loaded_bufflib L;
  kept_string : global_string L' = global_string L;
  kept_frealloc : frealloc L' = frealloc L
}.

(** ** A weakest-precondition reading of the monad

    [wp U m L Q E]: running [m] from [L] ends in [Ok x L'] with [Q x L'] or in
    [Raise e L'] with [E e L'], and when it is [Undefined], [U] holds. *)
Definition wp {A} (U : Prop) (m : M A) (L : lua_State)
    (Q : A → lua_State → Prop) (E : error → lua_State → Prop) : Prop :=
  match m L with
  | Ok x L' => Q x L'
  | Raise e L' => E e L'
  | Undefined => U
  end.

Lemma wp_ret {A} U (x : A) L Q E : Q x L → wp U (mret x) L Q E.
Proof. done. Qed.

Lemma wp_bind {A B} U (m : M A) (f : A → M B) L Q E :
  wp U m L (λ x L', wp U (f x) L' Q E) E → wp U (m ≫= f) L Q E.
Proof. unfold wp, mbind, M_bind. by destruct (m L). Qed.

Lemma wp_mono {A} (U U' : Prop) (m : M A) L (Q Q' : A → lua_State → Prop) 
    (E E' : error → lua_State → Prop) :
  wp U m L Q E → (∀ x L', Q x L' → Q' x L') → (∀ e L', E e L' → E' e L') →
  (U → U') → wp U' m L Q' E'.
Proof. unfold wp. destruct (m L); auto. Qed.

Lemma wp_throw {A} U e L (Q : A → lua_State → Prop) (E : error → lua_State → Prop) :
  E e L → wp U (throw e) L Q E.
Proof. done. Qed.

Lemma buffer_heap L a B : buffer L a = Some B ↔ heap L !! a = Some (OBuffer B).
Proof.
  unfold buffer. destruct (heap L !! a) as [[]|]; split; intros; simplify_eq; done.
Qed.

Lemma wp_getB U a B L Q E : buffer L a = Some B → Q B L → wp U (getB a) L Q E.
Proof. intros HB%buffer_heap HQ. unfold wp, getB. by rewrite HB. Qed.

Lemma wp_assign U a f B L Q E :
  buffer L a = Some B → Q tt (set_heap <[a := OBuffer (f B)]> L) →
  wp U (assign a f) L Q E.
Proof.
  intros HB HQ. unfold assign. apply wp_bind. eapply wp_getB; [done|]. exact HQ.
Qed.

Lemma buffer_set_heap_eq L a B0 :
  buffer (set_heap <[a := OBuffer B0]> L) a = Some B0.
Proof. apply buffer_heap. simpl. apply lookup_insert_eq. Qed.


(** The fields no Buffer operation touches. *)
Definition same_tables (L L' : lua_State) : Prop :=
  metatable L' = metatable L ∧ loaded_bufflib L' = loaded_bufflib L ∧
  global_string L' = global_string L ∧ frealloc L' = frealloc L.

Lemma same_tables_refl L : same_tables L L.
Proof. done. Qed.

Lemma same_tables_trans L1 L2 L3 :
  same_tables L1 L2 → same_tables L2 L3 → same_tables L1 L3.
Proof. unfold same_tables. intros (?&?&?&?) (?&?&?&?). repeat split; congruence. Qed.

Lemma buffer_not_block L a B bs : buffer L a = Some B → heap L !! a ≠ Some (OBlock bs).
Proof. intros HB%buffer_heap. congruence. Qed.

Lemma block_of_heap L L' p :
  (∀ y, (p = InitbOf y ∨ p = Udata y) → heap L' !! y = heap L !! y) →
  block_of p L' = block_of p L.
Proof. intros H. destruct p as [y|y]; simpl; rewrite H; auto. Qed.

(** The one way the operations change the heap: the Buffer at [a] gets a new
    record [B'], and the block [B'] points to, which no other Buffer owns, may
    get new content. *)
Lemma update_buffer_wf L L' a B' :
  wf_state L →
  (∀ bs, heap L !! a ≠ Some (OBlock bs)) →
  buffer L' a = Some B' →
  (∀ y, y ≠ a → b B' ≠ Udata y → heap L' !! y = heap L !! y) →
  (∀ x, b B' = Udata x →
     x ≠ a ∧ buffer L x = None ∧
     (∀ y B1, y ≠ a → buffer L y = Some B1 → b B1 ≠ Udata x) ∧
     ∃ blk, heap L' !! x = Some (OBlock blk) ∧ blen blk = size B') →
  (∀ a', b B' = InitbOf a' → a' = a ∧ size B' = LUAL_BUFFERSIZE) →
  0 <= n B' <= size B' → size B' < size_mod →
  blen (initb B') = LUAL_BUFFERSIZE →
  same_tables L L' →
  wf_state L' ∧ kept a L L'.
Proof.
  intros Hwf Hnb Ha Hother Hblock Hinline Hn Hs Hi (Ht1&Ht2&Ht3&Ht4).
  assert (Hbuf : ∀ y, y ≠ a → buffer L' y = buffer L y).
  { intros y Hy. destruct (decide (b B' = Udata y)) as [Hx|Hx].
    - destruct (Hblock _ Hx) as (_ & Hby & _ & blk & Hblk & _).
      rewrite Hby. unfold buffer. by rewrite Hblk.
    - unfold buffer. by rewrite Hother. }
  assert (Hblk : ∀ y B1, y ≠ a → buffer L y = Some B1 →
                   block_of (b B1) L' = block_of (b B1) L).
  { intros y B1 Hy HB1. apply block_of_heap. intros z [Hz|Hz].
    - pose proof (wf_inline _ Hwf _ _ _ HB1 Hz) as ->.
      apply Hother; [done|]. intros Hx.
      destruct (Hblock _ Hx) as (_ & Hby & _). congruence.
    - destruct (wf_backed _ Hwf _ _ HB1) as (bs & Hbs & _).
      rewrite Hz in Hbs. simpl in Hbs.
      apply Hother.
      + intros ->. destruct (heap L !! a) as [[]|] eqn:E; try done.
        by eapply Hnb.
      + intros Hx. destruct (Hblock _ Hx) as (_ & _ & Hown & _).
        by eapply Hown. }
  split; [|by constructor].
  constructor.
  - intros y B1 HB1. destruct (decide (y = a)) as [->|Hy].
    + rewrite Ha in HB1. by simplify_eq.
    + rewrite Hbuf in HB1 by done. by eapply wf_range.
  - intros y B1 HB1. destruct (decide (y = a)) as [->|Hy].
    + rewrite Ha in HB1. by simplify_eq.
    + rewrite Hbuf in HB1 by done. by eapply wf_initb.
  - intros y B1 a' HB1 Hb. destruct (decide (y = a)) as [->|Hy].
    + rewrite Ha in HB1. simplify_eq. by apply Hinline.
    + rewrite Hbuf in HB1 by done. by eapply wf_inline.
  - intros y B1 HB1. destruct (decide (y = a)) as [->|Hy].
    + rewrite Ha in HB1. simplify_eq.
      destruct (b B1) as [a'|x] eqn:Hb.
      * destruct (Hinline _ eq_refl) as [-> Hsz].
        exists (initb B1). simpl. apply buffer_heap in Ha. rewrite Ha.
        split; [done|lia].
      * destruct (Hblock _ eq_refl) as (_ & _ & _ & blk & Hb1 & Hb2).
        exists blk. simpl. by rewrite Hb1.
    + rewrite Hbuf in HB1 by done.
      rewrite (Hblk _ _ Hy HB1). by eapply wf_backed.
  - intros a1 a2 B1 B2 x H1 H2 Hb1 Hb2.
    destruct (decide (a1 = a)) as [->|Hy1], (decide (a2 = a)) as [->|Hy2]; try done.
    + rewrite Ha in H1. simplify_eq. rewrite Hbuf in H2 by done.
      destruct (Hblock _ Hb1) as (_ & _ & Hown & _). by destruct (Hown _ _ Hy2 H2).
    + rewrite Ha in H2. simplify_eq. rewrite Hbuf in H1 by done.
      destruct (Hblock _ Hb2) as (_ & _ & Hown & _). by destruct (Hown _ _ Hy1 H1).
    + rewrite Hbuf in H1, H2 by done. by eapply wf_owner.
Qed.


(** *** Byte strings *)

Lemma blen_nonneg s : 0 <= blen s.
Proof. unfold blen. lia. Qed.

Lemma blen_app s1 s2 : blen (s1 ++ s2) = blen s1 + blen s2.
Proof. unfold blen. rewrite length_app. lia. Qed.

Lemma blen_take k s : 0 <= k <= blen s → blen (take (Z.to_nat k) s) = k.
Proof. unfold blen. intros. rewrite length_take. lia. Qed.

Lemma take_blen s : take (Z.to_nat (blen s)) s = s.
Proof. unfold blen. rewrite Nat2Z.id. apply firstn_all. Qed.

Lemma blen_junk_block sz : 0 <= sz → blen (junk_block sz) = sz.
Proof. intros. unfold blen, junk_block. rewrite length_fmap, length_seq. lia. Qed.

Lemma blen_splice bs off data :
  0 <= off → off + blen data <= blen bs → blen (splice bs off data) = blen bs.
Proof.
  unfold blen, splice. intros.
  rewrite !length_app, length_take, length_drop. lia.
Qed.

Lemma take_splice bs off data :
  0 <= off → off + blen data <= blen bs →
  take (Z.to_nat (off + blen data)) (splice bs off data) = take (Z.to_nat off) bs ++ data.
Proof.
  unfold blen, splice. intros.
  rewrite app_assoc. rewrite take_app_le.
  - rewrite take_ge; [done|]. rewrite length_app, length_take. lia.
  - rewrite length_app, length_take. lia.
Qed.

Lemma take_splice_before bs off data k :
  0 <= k <= off → off <= blen bs →
  take (Z.to_nat k) (splice bs off data) = take (Z.to_nat k) bs.
Proof.
  unfold blen, splice. intros.
  rewrite take_app_le by (rewrite length_take; lia).
  rewrite take_take. f_equal. lia.
Qed.

Lemma in_bounds_true off k bs :
  0 <= off → 0 <= k → off + k <= blen bs → in_bounds off k bs = true.
Proof.
  intros. unfold in_bounds.
  rewrite !andb_true_iff, !Z.leb_le. done.
Qed.

Lemma wp_ok {A} U (m : M A) L x L' Q E : m L = Ok x L' → Q x L' → wp U m L Q E.
Proof. unfold wp. by intros ->. Qed.

Lemma wp_raise {A} U (m : M A) L e L' (Q : A → lua_State → Prop) E :
  m L = Raise e L' → E e L' → wp U m L Q E.
Proof. unfold wp. by intros ->. Qed.

Lemma fresh_heap L : heap L !! fresh (dom (heap L)) = None.
Proof. apply not_elem_of_dom. apply is_fresh. Qed.

Lemma buff_unref_ok L a B :
  buffer L a = Some B →
  ∃ L', buff_unref a L = Ok tt L' ∧ heap L' = heap L ∧ same_tables L L'.
Proof.
  intros HB%buffer_heap. unfold buff_unref, mbind, M_bind, getB. rewrite HB.
  case_bool_decide; [|by exists L].
  unfold luaL_unref. destruct (0 <=? ref B); [|by exists L].
  eexists. split; [reflexivity|]. done.
Qed.

(** Storing inside the backing store of the Buffer at [a]. *)
Lemma store_buffer L a B off data :
  wf_state L → buffer L a = Some B → 0 <= off → off + blen data <= size B →
  ∃ L' B' bs,
    store (b B, off) data L = Ok tt L' ∧
    buffer L' a = Some B' ∧ b B' = b B ∧ size B' = size B ∧ n B' = n B ∧
    block_of (b B) L = Some bs ∧ block_of (b B) L' = Some (splice bs off data) ∧
    wf_state L' ∧ kept a L L' ∧ registry L' = registry L.
Proof.
  intros Hwf HB Hoff Hlen.
  destruct (wf_backed _ Hwf _ _ HB) as (bs & Hbs & Hsz).
  pose proof (wf_range _ Hwf _ _ HB) as [Hn Hs].
  pose proof (wf_initb _ Hwf _ _ HB) as Hi.
  pose proof (blen_nonneg data).
  unfold store. simpl. rewrite Hbs.
  rewrite in_bounds_true by lia.
  assert (Hsp : blen (splice bs off data) = size B) by (rewrite blen_splice; lia).
  destruct (b B) as [a'|x] eqn:Hb.
  - pose proof (wf_inline _ Hwf _ _ _ HB Hb) as ->.
    simpl in Hbs |- *. pose proof HB as HB'%buffer_heap. rewrite HB' in Hbs |- *.
    simplify_eq.
    eexists _, _, _. split; [reflexivity|].
    split; [apply buffer_set_heap_eq|]. simpl.
    do 4 (split; [done|]).
    split; [by rewrite lookup_insert_eq|].
    cut (wf_state (set_heap <[a := OBuffer (mkBuffer (ref B) (b B) (size B) (n B)
                     (splice (initb B) off data))]> L) ∧
         kept a L (set_heap <[a := OBuffer (mkBuffer (ref B) (b B) (size B) (n B)
                     (splice (initb B) off data))]> L)); [by intros []|].
    eapply update_buffer_wf.
    + done.
    + intros bs. by eapply buffer_not_block.
    + apply buffer_set_heap_eq.
    + intros y Hy _. simpl. by rewrite lookup_insert_ne.
    + simpl. intros x Hx. congruence.
    + simpl. intros a' Ha'. rewrite Hb in Ha'. simplify_eq. split; [done|lia].
    + done.
    + done.
    + simpl. lia.
    + done.
  - simpl in Hbs |- *.
    assert (Hxa : x ≠ a).
    { intros ->. apply buffer_heap in HB. rewrite HB in Hbs. done. }
    assert (Hblk : heap L !! x = Some (OBlock bs)).
    { destruct (heap L !! x) as [[]|]; by simplify_eq. }
    exists (set_heap <[x := OBlock (splice bs off data)]> L), B, bs.
    split; [done|].
    assert (HB' : buffer (set_heap <[x := OBlock (splice bs off data)]> L) a = Some B).
    { apply buffer_heap. simpl. rewrite lookup_insert_ne by done. by apply buffer_heap. }
    split; [done|]. do 3 (split; [done|]).
    split; [done|].
    split; [simpl; by rewrite lookup_insert_eq|].
    cut (wf_state (set_heap <[x := OBlock (splice bs off data)]> L) ∧
         kept a L (set_heap <[x := OBlock (splice bs off data)]> L)); [by intros []|].
    eapply update_buffer_wf.
    + done.
    + intros bs'. by eapply buffer_not_block.
    + done.
    + intros y Hy Hyx. simpl. rewrite lookup_insert_ne; [done|]. congruence.
    + intros x' Hx'. rewrite Hb in Hx'. simplify_eq. split; [done|].
      split; [unfold buffer; by rewrite Hblk|].
      split.
      * intros y B1 Hy HB1 Hb1. apply Hy. by eapply (wf_owner _ Hwf y a).
      * exists (splice bs off data). simpl. by rewrite lookup_insert_eq.
    + intros a' Ha'. congruence.
    + done.
    + done.
    + done.
    + done.
Qed.


Lemma kept_refl a L : kept a L L.
Proof. by constructor. Qed.

Lemma kept_trans a L1 L2 L3 : kept a L1 L2 → kept a L2 L3 → kept a L1 L3.
Proof.
  intros H12 H23. constructor.
  - intros y Hy. rewrite (kept_buffer _ _ _ H23), (kept_buffer _ _ _ H12); done.
  - intros y B1 Hy HB1.
    rewrite (kept_block _ _ _ H23 y), (kept_block _ _ _ H12 y); try done.
    by rewrite (kept_buffer _ _ _ H12).
  - rewrite (kept_metatable _ _ _ H23). apply (kept_metatable _ _ _ H12).
  - rewrite (kept_loaded _ _ _ H23). apply (kept_loaded _ _ _ H12).
  - rewrite (kept_string _ _ _ H23). apply (kept_string _ _ _ H12).
  - rewrite (kept_frealloc _ _ _ H23). apply (kept_frealloc _ _ _ H12).
Qed.

Lemma contents_unfold L a :
  contents L a =
  match buffer L a with
  | Some B =>
      match block_of (b B) L with
      | Some bs =>
          if in_bounds 0 (n B) bs then Some (take (Z.to_nat (n B)) bs) else None
      | None => None
      end
  | None => None
  end.
Proof.
  unfold contents, buffer_tostring, lua_pushlstring, load, mbind, M_bind, getB, buffer.
  destruct (heap L !! a) as [[B| |]|]; try done. simpl.
  destruct (block_of (b B) L); [|done]. by destruct (in_bounds 0 (n B) l).
Qed.

Lemma buffer_tostring_contents L a :
  buffer_tostring a L =
  match contents L a with Some s => Ok s L | None => Undefined end.
Proof.
  unfold contents, buffer_tostring, lua_pushlstring, load, mbind, M_bind, getB.
  destruct (heap L !! a) as [[B| |]|]; try done. simpl.
  destruct (block_of (b B) L); [|done]. by destruct (in_bounds 0 (n B) l).
Qed.

Lemma contents_block L a B bs :
  buffer L a = Some B → block_of (b B) L = Some bs → 0 <= n B <= blen bs →
  contents L a = Some (take (Z.to_nat (n B)) bs).
Proof.
  intros HB Hbs Hn. rewrite contents_unfold, HB, Hbs.
  by rewrite in_bounds_true by lia.
Qed.

Lemma contents_wf L a B :
  wf_state L → buffer L a = Some B →
  ∃ bs, block_of (b B) L = Some bs ∧ blen bs = size B ∧
        contents L a = Some (take (Z.to_nat (n B)) bs).
Proof.
  intros Hwf HB. destruct (wf_backed _ Hwf _ _ HB) as (bs & Hbs & Hsz).
  pose proof (wf_range _ Hwf _ _ HB) as [Hn Hs].
  exists bs. split; [done|]. split; [done|].
  apply contents_block; [done..|lia].
Qed.

Lemma contents_blen L a B c :
  wf_state L → buffer L a = Some B → contents L a = Some c → blen c = n B.
Proof.
  intros Hwf HB Hc. destruct (contents_wf _ _ _ Hwf HB) as (bs & _ & Hsz & Hc').
  pose proof (wf_range _ Hwf _ _ HB) as [Hn Hs].
  rewrite Hc in Hc'. simplify_eq. apply blen_take. lia.
Qed.

Lemma contents_kept a L L' y : kept a L L' → y ≠ a → contents L' y = contents L y.
Proof.
  intros Hk Hy. rewrite !contents_unfold, (kept_buffer _ _ _ Hk) by done.
  destruct (buffer L y) as [B1|] eqn:HB1; [|done].
  by rewrite (kept_block _ _ _ Hk y).
Qed.

(** Assigning a field that is neither the store nor its size. *)
Lemma assign_ok L a B f :
  wf_state L → buffer L a = Some B →
  b (f B) = b B → size (f B) = size B → initb (f B) = initb B →
  0 <= n (f B) <= size B →
  ∃ L', assign a f L = Ok tt L' ∧ buffer L' a = Some (f B) ∧
        block_of (b B) L' = block_of (b B) L ∧
        wf_state L' ∧ kept a L L' ∧ registry L' = registry L.
Proof.
  intros Hwf HB Hb Hs Hi Hn.
  pose proof (wf_range _ Hwf _ _ HB) as [Hn0 Hs0].
  exists (set_heap <[a := OBuffer (f B)]> L).
  split.
  { unfold assign, mbind, M_bind, getB. apply buffer_heap in HB. by rewrite HB. }
  split; [apply buffer_set_heap_eq|].
  assert (Hblk : block_of (b B) (set_heap <[a := OBuffer (f B)]> L) = block_of (b B) L).
  { destruct (b B) as [a'|x] eqn:Hbb; simpl.
    - pose proof (wf_inline _ Hwf _ _ _ HB Hbb) as ->.
      rewrite lookup_insert_eq. apply buffer_heap in HB. by rewrite HB, Hi.
    - destruct (wf_backed _ Hwf _ _ HB) as (bs & Hbs & _).
      rewrite Hbb in Hbs. simpl in Hbs.
      assert (x ≠ a).
      { intros ->. apply buffer_heap in HB. by rewrite HB in Hbs. }
      by rewrite lookup_insert_ne. }
  split; [done|].
  cut (wf_state (set_heap <[a := OBuffer (f B)]> L) ∧
       kept a L (set_heap <[a := OBuffer (f B)]> L)); [by intros []|].
  eapply update_buffer_wf.
  - done.
  - intros bs. by eapply buffer_not_block.
  - apply buffer_set_heap_eq.
  - intros y Hy _. simpl. by rewrite lookup_insert_ne.
  - intros x Hx. rewrite Hb in Hx.
    destruct (wf_backed _ Hwf _ _ HB) as (bs & Hbs & Hsz).
    rewrite Hx in Hblk, Hbs. simpl in Hbs.
    destruct (heap L !! x) as [[]|] eqn:Hhx; try done. simplify_eq.
    assert (x ≠ a).
    { intros ->. apply buffer_heap in HB. congruence. }
    split; [done|]. split; [unfold buffer; by rewrite Hhx|].
    split.
    + intros y B1 Hy HB1 Hb1. apply Hy. by eapply (wf_owner _ Hwf y a).
    + exists bs. simpl. rewrite lookup_insert_ne by done. split; [done|lia].
  - intros a' Ha'. rewrite Hb in Ha'.
    pose proof (wf_inline _ Hwf _ _ _ HB Ha') as ->. split; [done|].
    destruct (wf_backed _ Hwf _ _ HB) as (bs & Hbs & Hsz).
    rewrite Ha' in Hbs. simpl in Hbs. apply buffer_heap in HB. rewrite HB in Hbs.
    simplify_eq. rewrite Hs, <- Hsz. by eapply wf_initb, buffer_heap.
  - lia.
  - lia.
  - rewrite Hi. by eapply wf_initb.
  - done.
Qed.

Lemma addsize_ok L a B s :
  wf_state L → buffer L a = Some B → 0 <= s → n B + s <= size B →
  ∃ L', addsize a s L = Ok tt L' ∧ buffer L' a = Some (with_n (n B + s) B) ∧
        block_of (b B) L' = block_of (b B) L ∧
        wf_state L' ∧ kept a L L' ∧ registry L' = registry L.
Proof.
  intros Hwf HB Hs Hn.
  pose proof (wf_range _ Hwf _ _ HB) as [Hn0 Hs0].
  destruct (assign_ok L a B (with_n (size_add (n B) s)) Hwf HB) as (L' & HL' & H');
    try done.
  { simpl. rewrite size_add_exact; lia. }
  exists L'. split.
  - unfold addsize, mbind, M_bind, getB. pose proof HB as HB'%buffer_heap.
    by rewrite HB'.
  - by rewrite size_add_exact in H' by lia.
Qed.

(** [memcpy] of a string to the end of the content, then [addsize]. *)
Lemma append_in_place L a B c s :
  wf_state L → buffer L a = Some B → contents L a = Some c →
  n B + blen s <= size B →
  ∃ L' B', (memcpy_string (b B, n B) s (blen s);; addsize a (blen s)) L = Ok tt L' ∧
        buffer L' a = Some B' ∧ b B' = b B ∧ size B' = size B ∧
        n B' = n B + blen s ∧ contents L' a = Some (c ++ s) ∧
        wf_state L' ∧ kept a L L'.
Proof.
  intros Hwf HB Hc Hn.
  pose proof (wf_range _ Hwf _ _ HB) as [Hn0 Hs0].
  pose proof (blen_nonneg s) as Hs.
  destruct (store_buffer L a B (n B) s Hwf HB) as
    (L1 & B1 & bs & Hst & HB1 & Hb1 & Hs1 & Hn1 & Hbs & Hbs1 & Hwf1 & Hk1 & _);
    [lia..|].
  destruct (addsize_ok L1 a B1 (blen s) Hwf1 HB1) as
    (L2 & Had & HB2 & Hbs2 & Hwf2 & Hk2 & _); [lia..|].
  exists L2, (with_n (n B1 + blen s) B1).
  split.
  { unfold memcpy_string, mbind, M_bind.
    rewrite !(proj2 (Z.leb_le _ _)) by lia. simpl.
    rewrite take_blen, Hst. done. }
  split; [done|]. simpl. do 2 (split; [congruence|]).
  split; [congruence|].
  split; [|split; [done|by eapply kept_trans]].
  destruct (contents_wf _ _ _ Hwf HB) as (bs' & Hbs' & Hsz & Hc').
  rewrite Hbs in Hbs'. simplify_eq.
  rewrite (contents_block L2 a _ (splice bs' (n B) s) HB2).
  - simpl. rewrite Hn1. rewrite take_splice by lia. congruence.
  - simpl. rewrite Hb1 in Hbs2 |- *. by rewrite Hbs2.
  - simpl. rewrite blen_splice; lia.
Qed.


Lemma wp_total_inv {A} (m : M A) L Q :
  wp False m L Q (λ _ _, False) → ∃ x L', m L = Ok x L' ∧ Q x L'.
Proof. unfold wp. destruct (m L); [eauto|done..]. Qed.

Lemma wp_exists {A} U (m : M A) L (P : lua_State → Prop) x Q E :
  (∃ L', m L = Ok x L' ∧ P L') → (∀ L', P L' → Q x L') → wp U m L Q E.
Proof. intros (L' & Hm & HP) HQ. unfold wp. rewrite Hm. auto. Qed.

Lemma block_of_insert_fresh L p bs x o :
  heap L !! x = None → block_of p L = Some bs →
  block_of p (set_heap <[x := o]> L) = Some bs.
Proof.
  intros Hx Hp. rewrite <- Hp. apply block_of_heap. intros y Hy. simpl.
  apply lookup_insert_ne. intros ->.
  destruct Hy as [->| ->]; simpl in Hp; by rewrite Hx in Hp.
Qed.

(** The candidate size of [prepbuffsize] and its overflow test. *)
Definition candidate (B : Buffer) (sz : Z) : Z :=
  if size_sub (size_mul (size B) 2) (n B) <? sz
  then size_add (n B) sz else size_mul (size B) 2.

Definition too_large (B : Buffer) (sz : Z) : bool :=
  (candidate B sz <? n B) || (size_sub (candidate B sz) (n B) <? sz).

Lemma prepbuffsize_grow L a B sz :
  wf_state L → buffer L a = Some B → 0 <= sz →
  size_sub (size B) (n B) < sz → too_large B sz = false →
  frealloc L (heap L) (candidate B sz) = true →
  ∃ L' B', prepbuffsize a sz L = Ok (b B', n B') L' ∧ buffer L' a = Some B' ∧
     b B' = Udata (fresh (dom (heap L))) ∧ size B' = candidate B sz ∧
     n B' = n B ∧ contents L' a = contents L a ∧ wf_state L' ∧ kept a L L'.
Proof.
  intros Hwf HB Hsz Hfit Hlarge Halloc.
  pose proof (wf_range _ Hwf _ _ HB) as [Hn Hs].
  destruct (contents_wf _ _ _ Hwf HB) as (bs & Hbs & Hlen & Hc).
  rewrite size_sub_exact in Hfit by lia.
  destruct (grow_ok sz (n B) (size B)) as [Hg _]; [lia..|].
  specialize (Hg Hlarge). fold (candidate B sz) in Hg. destruct Hg as [Hcand _].
  set (x := fresh (dom (heap L))).
  assert (Hx : heap L !! x = None) by apply fresh_heap.
  assert (Hxa : x ≠ a).
  { intros E. apply buffer_heap in HB. rewrite <- E in HB. congruence. }
  set (blk := splice (junk_block (candidate B sz)) 0 (take (Z.to_nat (n B)) bs)).
  set (P := λ (p : charp) (L' : lua_State), ∃ B', p = (b B', n B') ∧
     buffer L' a = Some B' ∧ b B' = Udata x ∧ size B' = candidate B sz ∧
     n B' = n B ∧ initb B' = initb B ∧
     heap L' = <[a := OBuffer B']> (<[x := OBlock blk]> (heap L)) ∧
     same_tables L L').
  assert (Hwp : wp False (prepbuffsize a sz) L P (λ _ _, False)).
  { unfold prepbuffsize. apply wp_bind. eapply wp_getB; [done|].
    rewrite size_sub_exact by lia. rewrite (proj2 (Z.ltb_lt _ _)) by lia.
    fold (candidate B sz). fold (too_large B sz). rewrite Hlarge.
    apply wp_bind, wp_bind, wp_ret.
    apply wp_bind. eapply wp_ok.
    { unfold lua_newuserdata. rewrite Halloc. reflexivity. }
    fold x.
    apply wp_bind. unfold memcpy. apply wp_bind. eapply wp_ok.
    { unfold load. simpl. rewrite (block_of_insert_fresh _ _ bs) by done.
      rewrite in_bounds_true by lia. reflexivity. }
    simpl. change (Z.to_nat 0) with 0%nat. rewrite drop_0. eapply wp_ok.
    { unfold store. simpl. rewrite lookup_insert_eq.
      rewrite in_bounds_true; [reflexivity|lia|apply blen_nonneg|].
      rewrite blen_take, blen_junk_block by lia. lia. }
    simpl. fold blk.
    set (L2 := set_heap <[x := OBlock blk]> (set_heap <[x := _]> L)).
    assert (HB2 : buffer L2 a = Some B).
    { apply buffer_heap. unfold L2. simpl. rewrite !lookup_insert_ne by done.
      by apply buffer_heap. }
    destruct (buff_unref_ok L2 a B HB2) as (L3 & Hun & Hh3 & Ht3).
    apply wp_bind. eapply wp_ok; [exact Hun|].
    apply wp_bind. eapply wp_ok; [reflexivity|].
    set (L4 := set_registry _ L3).
    assert (HB4 : buffer L4 a = Some B).
    { apply buffer_heap. unfold L4. simpl. rewrite Hh3. by apply buffer_heap. }
    apply wp_bind. eapply wp_assign; [exact HB4|].
    apply wp_bind. eapply wp_assign; [apply buffer_set_heap_eq|].
    eapply wp_assign; [apply buffer_set_heap_eq|].
    apply wp_bind. eapply wp_getB; [apply buffer_set_heap_eq|].
    apply wp_ret. eexists. split; [reflexivity|].
    split; [apply buffer_set_heap_eq|]. simpl. do 4 (split; [done|]).
    split.
    - rewrite !insert_insert_eq. rewrite Hh3. unfold L2. simpl.
      by rewrite insert_insert_eq.
    - destruct Ht3 as (?&?&?&?). done. }
  apply wp_total_inv in Hwp as (p & L' & Hprep & B' & -> & HB' & Hb' & Hs' & Hn' & Hi' & Hh & Ht).
  exists L', B'. split; [done|]. split; [done|]. do 3 (split; [done|]).
  assert (Hblk' : block_of (b B') L' = Some blk).
  { rewrite Hb'. simpl. rewrite Hh, lookup_insert_ne, lookup_insert_eq; done. }
  split.
  { rewrite Hc. rewrite (contents_block L' a B' blk); try done.
    - rewrite Hn'. unfold blk.
      replace (n B) with (0 + blen (take (Z.to_nat (n B)) bs)) at 1
        by (rewrite blen_take; lia).
      rewrite take_splice; [done|lia|].
      rewrite blen_take, blen_junk_block by lia. lia.
    - unfold blk. rewrite blen_splice, blen_junk_block; try lia.
      rewrite blen_take, blen_junk_block by lia. lia. }
  eapply update_buffer_wf.
  - done.
  - intros bs'. by eapply buffer_not_block.
  - done.
  - intros y Hy Hyx. rewrite Hh, !lookup_insert_ne; [done| |done]. congruence.
  - intros x' Hx'. rewrite Hb' in Hx'. simplify_eq. split; [done|].
    split; [unfold buffer; by rewrite Hx|].
    split.
    + intros y B1 Hy HB1 Hb1.
      destruct (wf_backed _ Hwf _ _ HB1) as (bs1 & Hbs1 & _).
      rewrite Hb1 in Hbs1. simpl in Hbs1. by rewrite Hx in Hbs1.
    + exists blk. rewrite Hh, lookup_insert_ne, lookup_insert_eq by done.
      split; [done|]. unfold blk. rewrite blen_splice, blen_junk_block; try lia.
      rewrite blen_take, blen_junk_block by lia. lia.
  - intros a' Ha'. congruence.
  - lia.
  - lia.
  - rewrite Hi'. by eapply wf_initb.
  - done.
Qed.


Lemma prepbuffsize_fits L a B sz :
  buffer L a = Some B → sz <= size_sub (size B) (n B) →
  prepbuffsize a sz L = Ok (b B, n B) L.
Proof.
  intros HB%buffer_heap Hfit. unfold prepbuffsize, mbind, M_bind, getB.
  rewrite HB. rewrite (proj2 (Z.ltb_ge _ _)) by lia. simpl. by rewrite HB.
Qed.

Lemma prepbuffsize_too_large L a B sz :
  buffer L a = Some B → size_sub (size B) (n B) < sz → too_large B sz = true →
  prepbuffsize a sz L = Raise BufferTooLarge L.
Proof.
  intros HB%buffer_heap Hfit Hlarge. unfold prepbuffsize, mbind, M_bind, getB.
  rewrite HB. rewrite (proj2 (Z.ltb_lt _ _)) by lia.
  fold (candidate B sz). fold (too_large B sz). by rewrite Hlarge.
Qed.

Lemma prepbuffsize_no_memory L a B sz :
  buffer L a = Some B → size_sub (size B) (n B) < sz → too_large B sz = false →
  frealloc L (heap L) (candidate B sz) = false →
  prepbuffsize a sz L = Raise MemoryError L.
Proof.
  intros HB%buffer_heap Hfit Hlarge Halloc. unfold prepbuffsize, mbind, M_bind, getB.
  rewrite HB. rewrite (proj2 (Z.ltb_lt _ _)) by lia.
  fold (candidate B sz). fold (too_large B sz). rewrite Hlarge. simpl.
  unfold lua_newuserdata. by rewrite Halloc.
Qed.

Lemma too_large_half B sz :
  0 <= n B <= size B → size B < size_mod → 0 <= sz →
  size_sub (size B) (n B) < sz → too_large B sz = true → size_half < n B + sz.
Proof.
  intros Hn Hs Hsz Hfit Hlarge. rewrite size_sub_exact in Hfit by lia.
  destruct (grow_ok sz (n B) (size B)) as [_ Hg]; [lia..|].
  fold (candidate B sz) in Hg. fold (too_large B sz) in Hg.
  destruct (Z_le_gt_dec (n B + sz) size_half); [|lia].
  rewrite Hg in Hlarge; done.
Qed.

(** All the outcomes of [prepbuffsize] on a well-formed state. *)
Lemma prepbuffsize_cases L a B sz :
  wf_state L → buffer L a = Some B → 0 <= sz →
  (prepbuffsize a sz L = Raise BufferTooLarge L ∧ size_half < n B + sz) ∨
  (prepbuffsize a sz L = Raise MemoryError L ∧
     frealloc L (heap L) (candidate B sz) = false) ∨
  (∃ L' B', prepbuffsize a sz L = Ok (b B', n B') L' ∧ buffer L' a = Some B' ∧
     n B' = n B ∧ n B + sz <= size B' ∧ contents L' a = contents L a ∧
     wf_state L' ∧ kept a L L').
Proof.
  intros Hwf HB Hsz.
  pose proof (wf_range _ Hwf _ _ HB) as [Hn Hs].
  destruct (Z_lt_le_dec (size_sub (size B) (n B)) sz) as [Hfit|Hfit].
  - destruct (too_large B sz) eqn:Hlarge.
    + left. split; [by eapply prepbuffsize_too_large|by apply too_large_half].
    + destruct (frealloc L (heap L) (candidate B sz)) eqn:Halloc.
      * right; right.
        destruct (prepbuffsize_grow L a B sz) as
          (L' & B' & Hp & HB' & Hb' & Hs' & Hn' & Hc' & Hwf' & Hk'); try done.
        exists L', B'. repeat (split; [done|]). split; [|done].
        rewrite size_sub_exact in Hfit by lia.
        destruct (grow_ok sz (n B) (size B)) as [Hg _]; [lia..|].
        specialize (Hg Hlarge). fold (candidate B sz) in Hg. lia.
      * right; left. split; [by eapply prepbuffsize_no_memory|done].
  - right; right. exists L, B. split; [by eapply prepbuffsize_fits|].
    rewrite size_sub_exact in Hfit by lia.
    repeat (split; [done|]). split; [lia|]. split; [done|].
    split; [done|apply kept_refl].
Qed.

(** All the outcomes of one [prepbuffsize], [memcpy], [addsize] round. *)
Lemma addlstring_cases L a B c s :
  wf_state L → buffer L a = Some B → contents L a = Some c →
  (addlstring a s L = Raise BufferTooLarge L ∧ size_half < n B + blen s) ∨
  (addlstring a s L = Raise MemoryError L ∧
     frealloc L (heap L) (candidate B (blen s)) = false) ∨
  (∃ L' B', addlstring a s L = Ok tt L' ∧ buffer L' a = Some B' ∧
     n B' = n B + blen s ∧ contents L' a = Some (c ++ s) ∧
     wf_state L' ∧ kept a L L').
Proof.
  intros Hwf HB Hc.
  destruct (prepbuffsize_cases L a B (blen s) Hwf HB (blen_nonneg s))
    as [[Hp ?]|[[Hp ?]|(L1 & B1 & Hp & HB1 & Hn1 & Hroom & Hc1 & Hwf1 & Hk1)]].
  - left. split; [|done]. unfold addlstring, mbind, M_bind. by rewrite Hp.
  - right; left. split; [|done]. unfold addlstring, mbind, M_bind. by rewrite Hp.
  - right; right.
    destruct (append_in_place L1 a B1 c s Hwf1 HB1) as
      (L2 & B2 & Hap & HB2 & Hb2 & Hs2 & Hn2 & Hc2 & Hwf2 & Hk2); [congruence|lia|].
    exists L2, B2. split.
    { unfold addlstring. unfold mbind at 1. unfold M_bind at 1. rewrite Hp. exact Hap. }
    split; [done|]. split; [lia|]. split; [done|]. split; [done|].
    by eapply kept_trans.
Qed.

Lemma in_bounds_false off k bs : blen bs < off + k → in_bounds off k bs = false.
Proof.
  intros. unfold in_bounds. rewrite !andb_false_iff, !Z.leb_gt. lia.
Qed.

Lemma bind_assoc {A B C} (m : M A) (f : A → M B) (g : B → M C) L :
  ((m ≫= f) ≫= g) L = (m ≫= (λ x, f x ≫= g)) L.
Proof. unfold mbind, M_bind. by destruct (m L). Qed.

Lemma bind_ok {A B} (m : M A) (f : A → M B) L x L' :
  m L = Ok x L' → (m ≫= f) L = f x L'.
Proof. unfold mbind, M_bind. by intros ->. Qed.

Lemma bind_raise {A B} (m : M A) (f : A → M B) L e L' :
  m L = Raise e L' → (m ≫= f) L = Raise e L'.
Proof. unfold mbind, M_bind. by intros ->. Qed.

Lemma bind_undefined {A B} (m : M A) (f : A → M B) L :
  m L = Undefined → (m ≫= f) L = Undefined.
Proof. unfold mbind, M_bind. by intros ->. Qed.

Lemma size_add_le x y : 0 <= x → 0 <= y → 0 <= size_add x y <= x + y.
Proof.
  intros. unfold size_add. pose proof size_mod_pos.
  split; [apply Z.mod_pos_bound; lia|apply Z.mod_le; lia].
Qed.

(** A store past the end of the backing store of the Buffer at [a]. *)
Lemma store_overflow L a B off data :
  wf_state L → buffer L a = Some B → size B < off + blen data →
  store (b B, off) data L = Undefined.
Proof.
  intros Hwf HB Hlen. destruct (wf_backed _ Hwf _ _ HB) as (bs & Hbs & Hsz).
  unfold store. simpl. rewrite Hbs. by rewrite in_bounds_false by lia.
Qed.

Lemma memcpy_string_whole p s : memcpy_string p s (blen s) = store p s.
Proof.
  unfold memcpy_string. pose proof (blen_nonneg s).
  rewrite !(proj2 (Z.leb_le _ _)) by lia. simpl. by rewrite take_blen.
Qed.

(** All the outcomes of adding two strings after one [prepbuffsize]. *)
Lemma addlstring2_cases L a B c s1 s2 :
  wf_state L → buffer L a = Some B → contents L a = Some c →
  (addlstring2 a s1 s2 L = Raise BufferTooLarge L ∧
     size_half < n B + blen s1 + blen s2) ∨
  (addlstring2 a s1 s2 L = Raise MemoryError L ∧
     ∃ z, frealloc L (heap L) z = false) ∨
  (addlstring2 a s1 s2 L = Undefined ∧ size_mod <= blen s1 + blen s2) ∨
  (∃ L' B', addlstring2 a s1 s2 L = Ok tt L' ∧ buffer L' a = Some B' ∧
     n B' = n B + blen s1 + blen s2 ∧ contents L' a = Some (c ++ s1 ++ s2) ∧
     wf_state L' ∧ kept a L L').
Proof.
  intros Hwf HB Hc.
  pose proof (blen_nonneg s1) as Hl1. pose proof (blen_nonneg s2) as Hl2.
  pose proof (wf_range _ Hwf _ _ HB) as [Hn Hs].
  pose proof (size_add_le (blen s1) (blen s2) Hl1 Hl2) as Hsz.
  unfold addlstring2. cbv zeta.
  destruct (prepbuffsize_cases L a B (size_add (blen s1) (blen s2)) Hwf HB)
    as [[Hp ?]|[[Hp ?]|(L1 & B1 & Hp & HB1 & Hn1 & Hroom & Hc1 & Hwf1 & Hk1)]];
    [lia| | |].
  - left. rewrite (bind_raise _ _ _ _ _ Hp). split; [done|lia].
  - right; left. rewrite (bind_raise _ _ _ _ _ Hp). split; [done|eauto].
  - rewrite (bind_ok _ _ _ _ _ Hp). simpl.
    pose proof (wf_range _ Hwf1 _ _ HB1) as [Hn1' Hs1].
    destruct (Z_lt_le_dec (blen s1 + blen s2) size_mod) as [Hsmall|Hwrap].
    + right; right; right.
      rewrite size_add_exact in Hroom by lia.
      destruct (append_in_place L1 a B1 c s1 Hwf1 HB1) as
        (L2 & B2 & Hap & HB2 & Hb2 & Hs2 & Hn2 & Hc2 & Hwf2 & Hk2); [congruence|lia|].
      destruct (append_in_place L2 a B2 (c ++ s1) s2 Hwf2 HB2) as
        (L3 & B3 & Hap3 & HB3 & Hb3 & Hs3 & Hn3 & Hc3 & Hwf3 & Hk3); [done|lia|].
      exists L3, B3. split.
      { rewrite <- bind_assoc. rewrite (bind_ok _ _ _ _ _ Hap).
        rewrite <- Hb2, <- Hn2. exact Hap3. }
      split; [done|]. split; [lia|]. split; [by rewrite <- app_assoc in Hc3|].
      split; [done|]. eapply kept_trans; [done|]. by eapply kept_trans.
    + right; right; left. split; [|done].
      destruct (Z_le_gt_dec (n B1 + blen s1) (size B1)) as [Hroom1|Hroom1].
      * destruct (append_in_place L1 a B1 c s1 Hwf1 HB1) as
          (L2 & B2 & Hap & HB2 & Hb2 & Hs2 & Hn2 & Hc2 & Hwf2 & Hk2); [congruence|lia|].
        rewrite <- bind_assoc. rewrite (bind_ok _ _ _ _ _ Hap).
        apply bind_undefined. rewrite <- Hb2, memcpy_string_whole.
        apply (store_overflow L2 a); [done..|]. lia.
      * apply bind_undefined. rewrite memcpy_string_whole.
        apply (store_overflow L1 a); [done..|lia].
Qed.

(** ** Display-string forms *)

(** What [luaL_tolstring] returns in state [L] for the value [v] of a stack
    slot ([None]: no value at that index). *)
Definition display (L : lua_State) (v : option value) : option bytes :=
  match luaL_tolstring (option_list v) 1 L with
  | Ok s _ => Some s
  | _ => None
  end.

Lemma tolstring_display stack i L :
  tolstring stack i L =
  match display L (index2value stack i) with
  | Some s => Ok s L
  | None => Undefined
  end.
Proof.
  unfold display, tolstring, luaL_tolstring.
  assert (Hi : ∀ v, index2value (option_list v) 1 = v) by (by intros []).
  rewrite Hi.
  destruct (index2value stack i) as [[]|]; try done.
  destruct (heap L !! a) as [[]|]; try done.
  rewrite buffer_tostring_contents. by destruct (contents L a).
Qed.

Lemma display_buffer L a B :
  buffer L a = Some B → display L (Some (VUserdata a)) = contents L a.
Proof.
  intros HB%buffer_heap. unfold display, luaL_tolstring. simpl. rewrite HB.
  rewrite buffer_tostring_contents. by destruct (contents L a).
Qed.

Lemma display_defined L v : wf_state L → is_Some (display L v).
Proof.
  intros Hwf. unfold display, luaL_tolstring.
  destruct v as [[]|]; simpl; try done.
  destruct (heap L !! a) as [[B| |]|] eqn:Ha; try done.
  apply buffer_heap in Ha. destruct (contents_wf _ _ _ Hwf Ha) as (bs & _ & _ & Hc).
  rewrite buffer_tostring_contents, Hc. done.
Qed.

Lemma display_kept a L L' v :
  kept a L L' → v ≠ Some (VUserdata a) → display L' v = display L v.
Proof.
  intros Hk Hv. unfold display, luaL_tolstring.
  destruct v as [[]|]; simpl; try done.
  assert (Hy : a0 ≠ a) by congruence.
  pose proof (kept_buffer _ _ _ Hk _ Hy) as Hb. unfold buffer in Hb.
  rewrite !buffer_tostring_contents, (contents_kept _ _ _ _ Hk Hy).
  destruct (heap L' !! a0) as [[]|], (heap L !! a0) as [[]|]; simplify_eq; try done.
  by destruct (contents L a0).
Qed.

(** The form of [v] when it is added to the Buffer at [a] whose content is
    [acc]: the Buffer itself shows what it holds at that moment. *)
Definition display_as (L : lua_State) (a : addr) (acc : bytes) (v : value) : bytes :=
  match v with
  | VUserdata a' =>
      if bool_decide (a' = a) then acc else default [] (display L (Some v))
  | _ => default [] (display L (Some v))
  end.

(** The forms of the values [vs] in call order, each taken when its turn
    comes; [sep] is what is written after each of them. *)
Fixpoint display_forms (L : lua_State) (a : addr) (acc sep : bytes)
    (vs : list value) : list bytes :=
  match vs with
  | [] => []
  | v :: vs' =>
      let d := display_as L a acc v in
      d :: display_forms L a (acc ++ d ++ sep) sep vs'
  end.

Lemma display_as_kept a L L' acc v :
  kept a L L' → display_as L' a acc v = display_as L a acc v.
Proof.
  intros Hk. destruct v; simpl; try done.
  case_bool_decide; [done|].
  rewrite (display_kept a L L'); [done..|congruence].
Qed.

Lemma display_forms_kept a L L' acc sep vs :
  kept a L L' → display_forms L' a acc sep vs = display_forms L a acc sep vs.
Proof.
  intros Hk. revert acc. induction vs as [|v vs IH]; intros acc; simpl; [done|].
  by rewrite IH, (display_as_kept a L L').
Qed.

Lemma display_forms_others L a acc sep vs :
  VUserdata a ∉ vs →
  display_forms L a acc sep vs = (λ v, default [] (display L (Some v))) <$> vs.
Proof.
  revert acc. induction vs as [|v vs IH]; intros acc Hnot; simpl; [done|].
  apply not_elem_of_cons in Hnot as [Hv Hvs]. rewrite IH by done. f_equal.
  destruct v; simpl; try done. case_bool_decide; [congruence|done].
Qed.

(** What [tolstring] returns while the Buffer at [a] holds [c]. *)
Lemma tolstring_display_as L a B c stack i v :
  wf_state L → buffer L a = Some B → contents L a = Some c →
  index2value stack i = Some v →
  tolstring stack i L = Ok (display_as L a c v) L.
Proof.
  intros Hwf HB Hc Hv. rewrite tolstring_display, Hv.
  destruct (display_defined L (Some v) Hwf) as [d Hd].
  rewrite Hd. f_equal. unfold display_as.
  destruct v; try (by rewrite Hd).
  case_bool_decide as E; [|by rewrite Hd]. subst.
  rewrite (display_buffer _ _ _ HB) in Hd. congruence.
Qed.

Lemma blen_mjoin_cons (d : bytes) ds : blen (mjoin (d :: ds)) = blen d + blen (mjoin ds).
Proof. simpl. apply blen_app. Qed.

(** The loop of [addstrings] on a well-formed state: the values at the stack
    positions [i], [i + 1], ... are [vs]. *)
Lemma addstrings_loop_spec a stack vs : ∀ i L B c,
  wf_state L → buffer L a = Some B → contents L a = Some c →
  (∀ j, (j < length vs)%nat → index2value stack (i + Z.of_nat j) = vs !! j) →
  wp False (addstrings_loop a stack i (length vs)) L
    (λ _ L', wf_state L' ∧ kept a L L' ∧ is_Some (buffer L' a) ∧
             contents L' a = Some (c ++ mjoin (display_forms L a c [] vs)))
    (λ e L', wf_state L' ∧ kept a L L' ∧ is_Some (buffer L' a) ∧
             ((e = BufferTooLarge ∧
               size_half < blen c + blen (mjoin (display_forms L a c [] vs))) ∨
              (e = MemoryError ∧ ∃ h z, frealloc L h z = false))).
Proof.
  induction vs as [|v vs IH]; intros i L B c Hwf HB Hc Hstack.
  - simpl. apply wp_ret. rewrite app_nil_r. eauto using kept_refl.
  - simpl addstrings_loop. simpl display_forms.
    set (d := display_as L a c v).
    assert (Hv : index2value stack i = Some v).
    { specialize (Hstack 0%nat). simpl in Hstack. rewrite Z.add_0_r in Hstack.
      apply Hstack. lia. }
    apply wp_bind. eapply wp_ok; [by eapply tolstring_display_as|]. fold d.
    pose proof (contents_blen _ _ _ _ Hwf HB Hc) as Hlen.
    pose proof (blen_nonneg (mjoin (display_forms L a (c ++ d ++ []) [] vs))).
    apply wp_bind.
    destruct (addlstring_cases L a B c d Hwf HB Hc)
      as [[Hp ?]|[[Hp ?]|(L1 & B1 & Hp & HB1 & Hn1 & Hc1 & Hwf1 & Hk1)]].
    + eapply wp_raise; [done|]. split; [done|]. split; [apply kept_refl|].
      split; [eauto|]. left. split; [done|]. rewrite blen_mjoin_cons. lia.
    + eapply wp_raise; [done|]. split; [done|]. split; [apply kept_refl|].
      split; [eauto|]. right. eauto.
    + eapply wp_ok; [done|].
      eapply wp_mono; [eapply (IH (i + 1) L1 B1 (c ++ d)); try done| | |done].
      * intros j Hj. specialize (Hstack (S j)). simpl in Hstack.
        rewrite <- Hstack by lia. f_equal. lia.
      * intros _ L2 (Hwf2 & Hk2 & HB2 & Hc2). split; [done|].
        split; [by eapply kept_trans|]. split; [done|].
        rewrite Hc2, (display_forms_kept a L L1) by done.
        rewrite app_nil_r. simpl. by rewrite <- app_assoc.
      * intros e L2 (Hwf2 & Hk2 & HB2 & He). split; [done|].
        split; [by eapply kept_trans|]. split; [done|].
        rewrite (display_forms_kept a L L1) in He by done.
        rewrite app_nil_r. rewrite blen_mjoin_cons.
        rewrite (kept_frealloc _ _ _ Hk1) in He.
        destruct He as [[-> He]|[-> He]]; [left|right]; split; try done.
        rewrite blen_app in He. lia.
Qed.

(** The form of a stack slot that may hold no value. *)
Definition slot_form (L : lua_State) (a : addr) (acc : bytes) (v : option value) : bytes :=
  match v with
  | Some v => display_as L a acc v
  | None => default [] (display L None)
  end.

Lemma tolstring_slot L a B c stack i :
  wf_state L → buffer L a = Some B → contents L a = Some c →
  tolstring stack i L = Ok (slot_form L a c (index2value stack i)) L.
Proof.
  intros Hwf HB Hc. destruct (index2value stack i) as [v|] eqn:Hv.
  - by eapply tolstring_display_as.
  - by rewrite tolstring_display, Hv.
Qed.

Definition with_sep (sep : bytes) (ds : list bytes) : bytes :=
  mjoin ((λ d, d ++ sep) <$> ds).

Lemma blen_with_sep_cons sep d ds :
  blen (with_sep sep (d :: ds)) = blen d + blen sep + blen (with_sep sep ds).
Proof.
  unfold with_sep. rewrite fmap_cons.
  change (mjoin ((d ++ sep) :: ((λ d0, d0 ++ sep) <$> ds)))
    with ((d ++ sep) ++ mjoin ((λ d0, d0 ++ sep) <$> ds)).
  rewrite !blen_app. lia.
Qed.

(** The loop of [addsepstrings] on a well-formed state; it is [Undefined] only
    when some [len + seplen] wrapped, that is when what it was to add does not
    fit a [size_t]. *)
Lemma addsepstrings_loop_spec a stack sep vs : ∀ i L B c,
  wf_state L → buffer L a = Some B → contents L a = Some c →
  (∀ j, (j < length vs)%nat → index2value stack (i + Z.of_nat j) = vs !! j) →
  wp (size_mod <= blen (with_sep sep (display_forms L a c sep vs)))
    (addsepstrings_loop a stack sep i (length vs)) L
    (λ _ L', wf_state L' ∧ kept a L L' ∧ is_Some (buffer L' a) ∧
             contents L' a = Some (c ++ with_sep sep (display_forms L a c sep vs)))
    (λ e L', wf_state L' ∧ kept a L L' ∧ is_Some (buffer L' a) ∧
             ((e = BufferTooLarge ∧
               size_half < blen c + blen (with_sep sep (display_forms L a c sep vs))) ∨
              (e = MemoryError ∧ ∃ h z, frealloc L h z = false))).
Proof.
  induction vs as [|v vs IH]; intros i L B c Hwf HB Hc Hstack.
  - simpl. apply wp_ret. unfold with_sep. simpl. rewrite app_nil_r.
    eauto using kept_refl.
  - simpl addsepstrings_loop. simpl display_forms.
    set (d := display_as L a c v).
    assert (Hv : index2value stack i = Some v).
    { specialize (Hstack 0%nat). simpl in Hstack. rewrite Z.add_0_r in Hstack.
      apply Hstack. lia. }
    apply wp_bind. eapply wp_ok; [by eapply tolstring_display_as|]. fold d.
    pose proof (contents_blen _ _ _ _ Hwf HB Hc) as Hlen.
    pose proof (blen_nonneg (with_sep sep (display_forms L a (c ++ d ++ sep) sep vs))).
    pose proof (blen_nonneg d). pose proof (blen_nonneg sep).
    rewrite blen_with_sep_cons.
    apply wp_bind.
    destruct (addlstring2_cases L a B c d sep Hwf HB Hc)
      as [[Hp ?]|[[Hp ?]|[[Hp ?]|(L1 & B1 & Hp & HB1 & Hn1 & Hc1 & Hwf1 & Hk1)]]].
    + eapply wp_raise; [done|]. split; [done|]. split; [apply kept_refl|].
      split; [eauto|]. left. split; [done|]. lia.
    + eapply wp_raise; [done|]. split; [done|]. split; [apply kept_refl|].
      split; [eauto|]. right. eauto.
    + unfold wp. rewrite Hp. lia.
    + eapply wp_ok; [done|].
      eapply wp_mono; [eapply (IH (i + 1) L1 B1 (c ++ d ++ sep)); try done| | |].
      * intros j Hj. specialize (Hstack (S j)). simpl in Hstack.
        rewrite <- Hstack by lia. f_equal. lia.
      * intros _ L2 (Hwf2 & Hk2 & HB2 & Hc2). split; [done|].
        split; [by eapply kept_trans|]. split; [done|].
        rewrite Hc2, (display_forms_kept a L L1) by done.
        unfold with_sep. simpl. by rewrite <- !app_assoc.
      * intros e L2 (Hwf2 & Hk2 & HB2 & He). split; [done|].
        split; [by eapply kept_trans|]. split; [done|].
        rewrite (display_forms_kept a L L1) in He by done.
        rewrite (kept_frealloc _ _ _ Hk1) in He.
        destruct He as [[-> He]|[-> He]]; [left|right]; split; try done.
        rewrite !blen_app in He. lia.
      * rewrite (display_forms_kept a L L1) by done. lia.
Qed.

(** ** The functions of the library on a well-formed state *)

Lemma getbuffer_cases stack i L :
  (∃ a B, index2value stack i = Some (VUserdata a) ∧ buffer L a = Some B ∧
          getbuffer stack i L = Ok a L) ∨
  (getbuffer stack i L = Raise (ArgError (Z.to_nat i)) L ∧
   ∀ a, index2value stack i = Some (VUserdata a) → buffer L a = None).
Proof.
  unfold getbuffer, luaL_testudata, mbind, M_bind, buffer.
  destruct (index2value stack i) as [[]|]; try (right; split; [done|by intros]).
  destruct (heap L !! a) as [[B| |]|] eqn:Ha.
  - left. exists a, B. by rewrite Ha.
  - right. split; [done|]. intros a' [= <-]. by rewrite Ha.
  - right. split; [done|]. intros a' [= <-]. by rewrite Ha.
  - right. split; [done|]. intros a' [= <-]. by rewrite Ha.
Qed.

Lemma getbuffer_ok stack i L a B :
  index2value stack i = Some (VUserdata a) → buffer L a = Some B →
  getbuffer stack i L = Ok a L.
Proof.
  intros Hi HB. destruct (getbuffer_cases stack i L) as [(a' & B' & Hi' & _ & Hg)|[_ Hno]].
  - congruence.
  - rewrite (Hno _ Hi) in HB. done.
Qed.

Lemma pushbuffer_ok stack i v L :
  index2value stack i = Some v → pushbuffer stack i L = Ok [v] L.
Proof. unfold pushbuffer. by intros ->. Qed.

Lemma index2value_cons v stack (j : nat) :
  index2value (v :: stack) (2 + Z.of_nat j) = stack !! j.
Proof.
  unfold index2value. rewrite (proj2 (Z.leb_le _ _)) by lia.
  replace (Z.to_nat (2 + Z.of_nat j - 1)) with (S j) by lia. done.
Qed.

(** The outcomes of an append: what the two error exits say about the
    request, [total] being the number of bytes that were to be added. *)
Definition append_error (L : lua_State) (c : bytes) (total : Z) (e : error) : Prop :=
  (e = BufferTooLarge ∧ size_half < blen c + total) ∨
  (e = MemoryError ∧ ∃ h z, frealloc L h z = false).

Lemma bufflib_add_spec L a B c vs :
  wf_state L → buffer L a = Some B → contents L a = Some c →
  wp False (bufflib_add (VUserdata a :: vs)) L
    (λ rets L', rets = [VUserdata a] ∧ wf_state L' ∧ kept a L L' ∧
                is_Some (buffer L' a) ∧
                contents L' a = Some (c ++ mjoin (display_forms L a c [] vs)))
    (λ e L', wf_state L' ∧ kept a L L' ∧ is_Some (buffer L' a) ∧
             append_error L c (blen (mjoin (display_forms L a c [] vs))) e).
Proof.
  intros Hwf HB Hc. unfold bufflib_add.
  apply wp_bind. eapply wp_ok; [by eapply getbuffer_ok|].
  apply wp_bind. unfold addstrings, lua_gettop.
  replace (Z.to_nat (Z.of_nat (length (VUserdata a :: vs)) - 0 + 1 - 2))
    with (length vs) by (simpl; lia).
  eapply wp_mono; [eapply (addstrings_loop_spec a _ vs 2 L B c); try done| |done|done].
  - intros j Hj. apply index2value_cons.
  - intros _ L' (Hwf' & Hk & HB' & Hc'). eapply wp_ok; [by apply pushbuffer_ok|].
    done.
Qed.

Lemma addsepstrings_spec a stack mid vlast L B c :
  wf_state L → buffer L a = Some B → contents L a = Some c →
  length mid = Z.to_nat (lua_gettop stack - 3) →
  (∀ j, (j < length mid)%nat → index2value stack (3 + Z.of_nat j) = mid !! j) →
  index2value stack (lua_gettop stack) = Some vlast →
  let sep := slot_form L a c (index2value stack 2) in
  let front := with_sep sep (display_forms L a c sep mid) in
  let final := display_as L a (c ++ front) vlast in
  wp (size_mod <= blen front) (addsepstrings a stack) L
    (λ _ L', wf_state L' ∧ kept a L L' ∧ is_Some (buffer L' a) ∧
             contents L' a = Some (c ++ front ++ final))
    (λ e L', wf_state L' ∧ kept a L L' ∧ is_Some (buffer L' a) ∧
             append_error L c (blen (front ++ final)) e).
Proof.
  intros Hwf HB Hc Hlen Hmid Hlast sep front final.
  unfold addsepstrings.
  apply wp_bind. eapply wp_ok; [by eapply tolstring_slot|]. fold sep.
  apply wp_bind. rewrite <- Hlen.
  pose proof (blen_nonneg front). pose proof (blen_nonneg final).
  eapply wp_mono;
    [by eapply (addsepstrings_loop_spec a stack sep mid 3 L B c)| | |done].
  - intros _ L1 (Hwf1 & Hk1 & [B1 HB1] & Hc1). fold front in Hc1.
    apply wp_bind. eapply wp_ok; [by eapply tolstring_display_as|].
    rewrite (display_as_kept a L L1) by done. fold final.
    pose proof (contents_blen _ _ _ _ Hwf1 HB1 Hc1) as Hlen1.
    destruct (addlstring_cases L1 a B1 (c ++ front) final Hwf1 HB1 Hc1)
      as [[Hp ?]|[[Hp ?]|(L2 & B2 & Hp & HB2 & Hn2 & Hc2 & Hwf2 & Hk2)]].
    + eapply wp_raise; [done|]. split; [done|]. split; [done|]. split; [eauto|].
      left. split; [done|]. rewrite blen_app in *. lia.
    + eapply wp_raise; [done|]. split; [done|]. split; [done|]. split; [eauto|].
      right. split; [done|]. rewrite (kept_frealloc _ _ _ Hk1) in *. eauto.
    + eapply wp_ok; [done|]. split; [done|]. split; [by eapply kept_trans|].
      split; [eauto|]. by rewrite <- app_assoc in Hc2.
  - intros e L1 (Hwf1 & Hk1 & HB1 & He). fold front in He.
    do 3 (split; [done|]).
    destruct He as [[-> He]|[-> He]]; [left|right]; split; try done.
    rewrite blen_app. lia.
Qed.

(** Buffers stay Buffers. *)
Definition ext (L L' : lua_State) : Prop :=
  ∀ y, is_Some (buffer L y) → is_Some (buffer L' y).

Lemma ext_refl L : ext L L.
Proof. by intros y. Qed.

Lemma ext_trans L1 L2 L3 : ext L1 L2 → ext L2 L3 → ext L1 L3.
Proof. intros H12 H23 y Hy. auto. Qed.

Lemma kept_ext a L L' : kept a L L' → is_Some (buffer L' a) → ext L L'.
Proof.
  intros Hk Ha y Hy. destruct (decide (y = a)) as [->|Hne]; [done|].
  by rewrite (kept_buffer _ _ _ Hk).
Qed.

(** A change of the heap no Buffer and no backing store sees. *)
Lemma wf_same_views L L' :
  wf_state L → (∀ y, buffer L' y = buffer L y) →
  (∀ y B1, buffer L y = Some B1 → block_of (b B1) L' = block_of (b B1) L) →
  wf_state L'.
Proof.
  intros Hwf Hbuf Hblk. constructor.
  - intros y B1. rewrite Hbuf. apply (wf_range _ Hwf y).
  - intros y B1. rewrite Hbuf. apply (wf_initb _ Hwf y).
  - intros y B1 a'. rewrite Hbuf. apply (wf_inline _ Hwf y).
  - intros y B1 HB1. rewrite Hbuf in HB1. rewrite (Hblk _ _ HB1).
    by apply (wf_backed _ Hwf y).
  - intros a1 a2 B1 B2 x. rewrite !Hbuf. apply (wf_owner _ Hwf a1 a2).
Qed.

Lemma wf_same_heap L L' : wf_state L → heap L' = heap L → wf_state L'.
Proof.
  intros Hwf Hh. apply (wf_same_views L); [done|..].
  - intros y. unfold buffer. by rewrite Hh.
  - intros y B1 _. apply block_of_heap. intros. by rewrite Hh.
Qed.

Lemma same_heap_ext L L' : heap L' = heap L → ext L L'.
Proof. intros Hh y. unfold buffer. by rewrite Hh. Qed.

(** The record [buffinit] leaves in the Buffer at [a]. *)
Definition fresh_record (a : addr) (inline : bytes) : Buffer :=
  mkBuffer LUA_NOREF (InitbOf a) LUAL_BUFFERSIZE 0 inline.

Lemma buffinit_ok L a B :
  buffer L a = Some B →
  buffinit a L = Ok tt (set_heap <[a := OBuffer (fresh_record a (initb B))]> L).
Proof.
  intros HB.
  unfold buffinit, assign, mbind, M_bind, getB, modify_state. simpl.
  apply buffer_heap in HB. rewrite HB. simpl. rewrite !lookup_insert_eq. simpl.
  rewrite !lookup_insert_eq. simpl. rewrite !lookup_insert_eq. simpl.
  unfold set_heap. simpl. rewrite !insert_insert_eq. done.
Qed.

Lemma fresh_record_wf L a B :
  wf_state L → (∀ bs, heap L !! a ≠ Some (OBlock bs)) →
  blen (initb B) = LUAL_BUFFERSIZE →
  let L' := set_heap <[a := OBuffer (fresh_record a (initb B))]> L in
  wf_state L' ∧ kept a L L' ∧ contents L' a = Some [].
Proof.
  intros Hwf Hnb Hi L'. pose proof buffersize_range as Hr.
  assert (HB' : buffer L' a = Some (fresh_record a (initb B)))
    by apply buffer_set_heap_eq.
  assert (wf_state L' ∧ kept a L L') as [Hwf' Hk'].
  { eapply update_buffer_wf; try done.
    - intros y Hy _. simpl. by rewrite lookup_insert_ne.
    - simpl. intros; simplify_eq. done.
    - simpl. lia.
    - simpl. unfold size_mod. lia. }
  split; [done|]. split; [done|].
  destruct (contents_wf _ _ _ Hwf' HB') as (bs & _ & _ & ->). done.
Qed.

Lemma bufflib_reset_spec L a B rest :
  wf_state L → buffer L a = Some B →
  ∃ L', bufflib_reset (VUserdata a :: rest) L = Ok [VUserdata a] L' ∧
        wf_state L' ∧ kept a L L' ∧ contents L' a = Some [] ∧
        buffer L' a = Some (fresh_record a (initb B)).
Proof.
  intros Hwf HB. unfold bufflib_reset.
  rewrite (bind_ok _ _ _ _ _ (getbuffer_ok (VUserdata a :: rest) 1 L a B eq_refl HB)).
  destruct (buff_unref_ok L a B HB) as (L1 & Hun & Hh1 & Ht1).
  rewrite (bind_ok _ _ _ _ _ Hun).
  assert (HB1 : buffer L1 a = Some B) by (unfold buffer; by rewrite Hh1).
  rewrite (bind_ok _ _ _ _ _ (buffinit_ok L1 a B HB1)).
  eexists. split; [reflexivity|].
  assert (Hwf1 : wf_state L1) by (by eapply wf_same_heap).
  destruct (fresh_record_wf L1 a B Hwf1) as (Hwf' & Hk' & Hc').
  { intros bs. by eapply buffer_not_block. }
  { by eapply wf_initb. }
  split; [done|]. split; [|split; [done|apply buffer_set_heap_eq]].
  destruct Ht1 as (?&?&?&?).
  eapply kept_trans; [|exact Hk']. constructor; try done.
  - intros y _. unfold buffer. by rewrite Hh1.
  - intros y B1 _ _. apply block_of_heap. intros. by rewrite Hh1.
Qed.

Lemma newbuffer_cases L :
  wf_state L →
  (newbuffer L = Raise MemoryError L ∧ frealloc L (heap L) sizeof_Buffer = false) ∨
  (∃ L', let a := fresh (dom (heap L)) in
     newbuffer L = Ok a L' ∧ wf_state L' ∧ kept a L L' ∧ contents L' a = Some [] ∧
     buffer L a = None ∧
     buffer L' a = Some (fresh_record a (junk_block LUAL_BUFFERSIZE))).
Proof.
  intros Hwf. unfold newbuffer, mbind, M_bind, lua_newuserdata_Buffer.
  destruct (frealloc L (heap L) sizeof_Buffer) eqn:Halloc; [right|by left].
  set (a := fresh (dom (heap L))).
  set (B0 := mkBuffer 0 (InitbOf a) 0 0 (junk_block LUAL_BUFFERSIZE)).
  rewrite (buffinit_ok _ a B0) by apply buffer_set_heap_eq.
  eexists. split; [reflexivity|].
  assert (Hfresh : heap L !! a = None) by apply fresh_heap.
  assert (set_heap <[a := OBuffer (fresh_record a (initb B0))]>
            (set_heap <[a := OBuffer B0]> L)
          = set_heap <[a := OBuffer (fresh_record a (initb B0))]> L) as ->.
  { unfold set_heap. simpl. by rewrite insert_insert_eq. }
  pose proof buffersize_range.
  destruct (fresh_record_wf L a B0 Hwf) as (Hwf' & Hk' & Hc').
  { intros bs. by rewrite Hfresh. }
  { simpl. rewrite blen_junk_block; lia. }
  split; [done|]. split; [done|]. split; [done|].
  split; [unfold buffer; by rewrite Hfresh|apply buffer_set_heap_eq].
Qed.

Definition is_buffer_value (L : lua_State) (v : option value) : bool :=
  match v with
  | Some (VUserdata a) => bool_decide (is_Some (buffer L a))
  | _ => false
  end.

Lemma isbuffer_ok stack i L :
  isbuffer stack i L = Ok (is_buffer_value L (index2value stack i)) L.
Proof.
  unfold isbuffer, luaL_testudata, mbind, M_bind, is_buffer_value, buffer.
  destruct (index2value stack i) as [[]|]; try done.
  destruct (heap L !! a) as [[]|]; simpl; f_equal; by rewrite ?bool_decide_eq_true_2.
Qed.

Lemma is_buffer_value_true L v :
  is_buffer_value L v = true → ∃ a B, v = Some (VUserdata a) ∧ buffer L a = Some B.
Proof.
  destruct v as [[]|]; simpl; try done.
  intros [B HB]%bool_decide_eq_true. eauto.
Qed.

Lemma is_buffer_value_false L a B v :
  is_buffer_value L v = false → buffer L a = Some B → v ≠ Some (VUserdata a).
Proof.
  intros Hv HB ->. simpl in Hv. apply bool_decide_eq_false in Hv.
  apply Hv. by rewrite HB.
Qed.

Lemma index2value_1 stack : index2value stack 1 = head stack.
Proof. by destruct stack. Qed.

Lemma index2value_top stack :
  stack ≠ [] → ∃ v, index2value stack (lua_gettop stack) = Some v.
Proof.
  intros Hne. unfold index2value, lua_gettop.
  destruct stack as [|v0 stack]; [done|].
  rewrite (proj2 (Z.leb_le _ _)) by (simpl; lia).
  apply lookup_lt_is_Some. simpl. lia.
Qed.

Lemma index2value_from stack (k j : nat) :
  index2value stack (Z.of_nat (S k) + Z.of_nat j) = drop k stack !! j.
Proof.
  unfold index2value. rewrite (proj2 (Z.leb_le _ _)) by lia.
  rewrite lookup_drop. f_equal. lia.
Qed.

(** What a call leaves behind, whether it returns or raises. *)
Definition preserved (L L' : lua_State) : Prop := wf_state L' ∧ ext L L'.

Lemma preserved_refl L : wf_state L → preserved L L.
Proof. split; [done|apply ext_refl]. Qed.

Lemma preserved_kept a L L' :
  wf_state L' → kept a L L' → is_Some (buffer L' a) → preserved L L'.
Proof. intros. split; [done|by eapply kept_ext]. Qed.

Lemma bufflib_add_wf args L :
  wf_state L →
  wp True (bufflib_add args) L (λ _, preserved L) (λ _, preserved L).
Proof.
  intros Hwf.
  destruct (getbuffer_cases args 1 L) as [(a & B & Hi & HB & Hg)|[Hg _]].
  - rewrite index2value_1 in Hi. destruct args as [|v vs]; simplify_eq/=.
    destruct (contents_wf _ _ _ Hwf HB) as (bs & _ & _ & Hc).
    eapply wp_mono; [by eapply bufflib_add_spec| | |done].
    + intros rets L' (_ & Hwf' & Hk & HB' & _). by eapply preserved_kept.
    + intros e L' (Hwf' & Hk & HB' & _). by eapply preserved_kept.
  - unfold bufflib_add. apply wp_bind. eapply wp_raise; [done|].
    by apply preserved_refl.
Qed.

Lemma bufflib_addsep_wf args L :
  wf_state L →
  wp True (bufflib_addsep args) L (λ _, preserved L) (λ _, preserved L).
Proof.
  intros Hwf. unfold bufflib_addsep. apply wp_bind.
  destruct (getbuffer_cases args 1 L) as [(a & B & Hi & HB & Hg)|[Hg _]].
  - eapply wp_ok; [done|].
    destruct (contents_wf _ _ _ Hwf HB) as (bs & _ & _ & Hc).
    assert (Hne : args ≠ []) by (by destruct args).
    destruct (index2value_top args Hne) as [vlast Hlast].
    apply wp_bind.
    eapply wp_mono;
      [eapply (addsepstrings_spec a args
                 (take (Z.to_nat (lua_gettop args - 3)) (drop 2 args)) vlast L B);
       try done| | |done].
    + rewrite length_take, length_drop. unfold lua_gettop. lia.
    + intros j Hj. rewrite lookup_take_lt by (rewrite length_take in Hj; lia).
      apply (index2value_from args 2 j).
    + intros _ L' (Hwf' & Hk & HB' & _).
      eapply wp_ok; [by apply pushbuffer_ok|]. by eapply preserved_kept.
    + intros e L' (Hwf' & Hk & HB' & _). by eapply preserved_kept.
  - eapply wp_raise; [done|]. by apply preserved_refl.
Qed.

Lemma bufflib_reset_wf args L :
  wf_state L →
  wp True (bufflib_reset args) L (λ _, preserved L) (λ _, preserved L).
Proof.
  intros Hwf.
  destruct (getbuffer_cases args 1 L) as [(a & B & Hi & HB & Hg)|[Hg _]].
  - rewrite index2value_1 in Hi. destruct args as [|v vs]; simplify_eq/=.
    destruct (bufflib_reset_spec L a B vs Hwf HB) as (L' & Hr & Hwf' & Hk & _ & HB').
    eapply wp_ok; [done|]. eapply preserved_kept; [done..|]. by rewrite HB'.
  - unfold bufflib_reset. apply wp_bind. eapply wp_raise; [done|].
    by apply preserved_refl.
Qed.

(** The readers leave the state as it is. *)
Lemma bufflib_tostring_cases args L :
  (∃ a B c, index2value args 1 = Some (VUserdata a) ∧ buffer L a = Some B ∧
            contents L a = Some c ∧ bufflib_tostring args L = Ok [VString c] L) ∨
  (∃ e, bufflib_tostring args L = Raise e L) ∨
  bufflib_tostring args L = Undefined.
Proof.
  unfold bufflib_tostring.
  destruct (getbuffer_cases args 1 L) as [(a & B & Hi & HB & Hg)|[Hg _]].
  - rewrite (bind_ok _ _ _ _ _ Hg).
    assert ((buffer_tostring a ≫= λ s, mret [VString s]) L =
            match contents L a with
            | Some c => Ok [VString c] L
            | None => Undefined
            end) as ->.
    { unfold mbind, M_bind. rewrite buffer_tostring_contents.
      by destruct (contents L a). }
    destruct (contents L a) as [c|] eqn:Hc; [left|by right; right].
    by exists a, B, c.
  - right; left. exists (ArgError (Z.to_nat 1)). by rewrite (bind_raise _ _ _ _ _ Hg).
Qed.

Lemma bufflib_tostring_wf args L :
  wf_state L →
  wp True (bufflib_tostring args) L (λ _, preserved L) (λ _, preserved L).
Proof.
  intros Hwf. unfold wp.
  destruct (bufflib_tostring_cases args L) as [(a & B & c & _ & _ & _ & ->)|[[e ->]| ->]];
    try done; by apply preserved_refl.
Qed.

Lemma bufflib_len_wf args L :
  wf_state L →
  wp True (bufflib_len args) L (λ _, preserved L) (λ _, preserved L).
Proof.
  intros Hwf. unfold bufflib_len. apply wp_bind.
  destruct (getbuffer_cases args 1 L) as [(a & B & Hi & HB & Hg)|[Hg _]].
  - eapply wp_ok; [done|]. apply wp_bind. eapply wp_getB; [done|].
    apply wp_ret. by apply preserved_refl.
  - eapply wp_raise; [done|]. by apply preserved_refl.
Qed.

Lemma bufflib_equal_wf args L :
  wf_state L →
  wp True (bufflib_equal args) L (λ _, preserved L) (λ _, preserved L).
Proof.
  intros Hwf. unfold bufflib_equal. apply wp_bind.
  destruct (getbuffer_cases args 1 L) as [(a1 & B1 & Hi1 & HB1 & Hg1)|[Hg1 _]];
    [|eapply wp_raise; [done|]; by apply preserved_refl].
  eapply wp_ok; [done|]. apply wp_bind.
  destruct (getbuffer_cases args 2 L) as [(a2 & B2 & Hi2 & HB2 & Hg2)|[Hg2 _]];
    [|eapply wp_raise; [done|]; by apply preserved_refl].
  eapply wp_ok; [done|].
  destruct (contents_wf _ _ _ Hwf HB1) as (bs1 & _ & _ & Hc1).
  destruct (contents_wf _ _ _ Hwf HB2) as (bs2 & _ & _ & Hc2).
  apply wp_bind. eapply wp_ok; [by rewrite buffer_tostring_contents, Hc1|].
  apply wp_bind. eapply wp_ok; [by rewrite buffer_tostring_contents, Hc2|].
  apply wp_ret. by apply preserved_refl.
Qed.

Lemma bufflib_gc_wf args L :
  wf_state L →
  wp True (bufflib_gc args) L (λ _, preserved L) (λ _, preserved L).
Proof.
  intros Hwf. unfold bufflib_gc. apply wp_bind.
  destruct (getbuffer_cases args 1 L) as [(a & B & Hi & HB & Hg)|[Hg _]].
  - eapply wp_ok; [done|]. apply wp_bind.
    destruct (buff_unref_ok L a B HB) as (L1 & Hun & Hh1 & _).
    eapply wp_ok; [done|]. apply wp_ret.
    split; [by eapply wf_same_heap|by apply same_heap_ext].
  - eapply wp_raise; [done|]. by apply preserved_refl.
Qed.

Lemma bufflib_isbuffer_wf args L :
  wf_state L →
  wp True (bufflib_isbuffer args) L (λ _, preserved L) (λ _, preserved L).
Proof.
  intros Hwf. unfold bufflib_isbuffer. apply wp_bind.
  eapply wp_ok; [apply isbuffer_ok|]. apply wp_ret. by apply preserved_refl.
Qed.

Lemma kept_ext_fresh a L L' : kept a L L' → buffer L a = None → ext L L'.
Proof.
  intros Hk Ha y Hy. destruct (decide (y = a)) as [->|Hne].
  - rewrite Ha in Hy. by destruct Hy.
  - by rewrite (kept_buffer _ _ _ Hk).
Qed.

Lemma index2value_app_l stack extra (j : nat) :
  (j < length stack)%nat →
  index2value (stack ++ extra) (1 + Z.of_nat j) = stack !! j.
Proof.
  intros Hj. unfold index2value. rewrite (proj2 (Z.leb_le _ _)) by lia.
  replace (Z.to_nat (1 + Z.of_nat j - 1)) with j by lia.
  by apply lookup_app_l.
Qed.

(** [bufflib_newbuffer]: the new Buffer lives at a fresh address and holds
    the forms of the arguments. *)
Lemma bufflib_newbuffer_spec args L :
  wf_state L →
  let a := fresh (dom (heap L)) in
  wp False (bufflib_newbuffer args) L
    (λ rets L', rets = [VUserdata a] ∧ buffer L a = None ∧ wf_state L' ∧
                kept a L L' ∧ is_Some (buffer L' a) ∧
                contents L' a = Some (mjoin (display_forms L a [] [] args)))
    (λ e L', wf_state L' ∧ ext L L' ∧
             append_error L [] (blen (mjoin (display_forms L a [] [] args))) e).
Proof.
  intros Hwf a. unfold bufflib_newbuffer. apply wp_bind.
  destruct (newbuffer_cases L Hwf) as [[Hn Halloc]|(L1 & Hn & Hwf1 & Hk1 & Hc1 & Ha & HB1)].
  { eapply wp_raise; [done|]. split; [done|]. split; [apply ext_refl|].
    right. eauto. }
  fold a in Hn, Hk1, Hc1, Ha, HB1.
  eapply wp_ok; [done|]. apply wp_bind.
  unfold addstrings, lua_gettop.
  replace (Z.to_nat (Z.of_nat (length (args ++ [VUserdata a])) - 1 + 1 - 1))
    with (length args) by (rewrite length_app; simpl; lia).
  eapply wp_mono;
    [eapply (addstrings_loop_spec a _ args 1 L1 _ []); try done| | |done].
  - intros j Hj. by apply index2value_app_l.
  - intros _ L2 (Hwf2 & Hk2 & HB2 & Hc2). apply wp_ret.
    split; [done|]. split; [done|]. split; [done|].
    split; [by eapply kept_trans|]. split; [done|].
    by rewrite (display_forms_kept a L L1) in Hc2.
  - intros e L2 (Hwf2 & Hk2 & HB2 & He). split; [done|].
    split; [eapply kept_ext_fresh; [by eapply kept_trans|done]|].
    rewrite (display_forms_kept a L L1) in He by done.
    rewrite (kept_frealloc _ _ _ Hk1) in He. exact He.
Qed.

Lemma bufflib_newbuffer_wf args L :
  wf_state L →
  wp True (bufflib_newbuffer args) L (λ _, preserved L) (λ _, preserved L).
Proof.
  intros Hwf. eapply wp_mono; [by apply bufflib_newbuffer_spec| | |done].
  - intros rets L' (_ & Ha & Hwf' & Hk & _). split; [done|].
    by eapply kept_ext_fresh.
  - intros e L' (Hwf' & Hext & _). by split.
Qed.

Lemma buffer_heap_fresh L : buffer L (fresh (dom (heap L))) = None.
Proof. unfold buffer. by rewrite fresh_heap. Qed.

(** The first branch of [bufflib_concat], taken whenever the first operand is
    a Buffer: a new Buffer receives both forms, whatever the second operand
    is. *)
Lemma bufflib_concat_first args L :
  wf_state L → is_buffer_value L (index2value args 1) = true →
  let d := fresh (dom (heap L)) in
  let stack := args ++ [VUserdata d] in
  ∃ L1, kept d L L1 ∧ buffer L d = None ∧
    let str1 := slot_form L1 d [] (index2value stack 1) in
    let str2 := slot_form L1 d [] (index2value stack 2) in
    wp (size_mod <= blen str1 + blen str2) (bufflib_concat args) L
      (λ rets L', rets = [VUserdata d] ∧ wf_state L' ∧ kept d L L' ∧
                  contents L' d = Some (str1 ++ str2))
      (λ e L', wf_state L' ∧ ext L L' ∧
               (e = BufferTooLarge ∨ e = MemoryError)).
Proof.
  intros Hwf H1 d stack.
  destruct (newbuffer_cases L Hwf) as [[Hn Halloc]|(L1 & Hn & Hwf1 & Hk1 & Hc1 & Ha & HB1)].
  { exists L. split; [apply kept_refl|]. split; [apply buffer_heap_fresh|].
    intros str1 str2. unfold bufflib_concat.
    apply wp_bind. eapply wp_ok; [apply isbuffer_ok|].
    apply wp_bind. eapply wp_ok; [apply isbuffer_ok|].
    rewrite H1. simpl. apply wp_bind. eapply wp_raise; [done|].
    split; [done|]. split; [apply ext_refl|]. by right. }
  fold d in Hn, Hk1, Hc1, Ha, HB1.
  exists L1. split; [done|]. split; [done|]. intros str1 str2.
  unfold bufflib_concat.
  apply wp_bind. eapply wp_ok; [apply isbuffer_ok|].
  apply wp_bind. eapply wp_ok; [apply isbuffer_ok|].
  rewrite H1. simpl. apply wp_bind. eapply wp_ok; [done|].
  apply wp_bind. eapply wp_ok; [by eapply tolstring_slot|].
  apply wp_bind. eapply wp_ok; [by eapply tolstring_slot|].
  fold stack. fold str1. fold str2.
  apply wp_bind.
  destruct (addlstring2_cases L1 d _ [] str1 str2 Hwf1 HB1 Hc1)
    as [[Hp ?]|[[Hp ?]|[[Hp ?]|(L2 & B2 & Hp & HB2 & Hn2 & Hc2 & Hwf2 & Hk2)]]].
  - eapply wp_raise; [done|]. split; [done|].
    split; [by eapply kept_ext_fresh|by left].
  - eapply wp_raise; [done|]. split; [done|].
    split; [by eapply kept_ext_fresh|by right].
  - unfold wp. rewrite Hp. done.
  - eapply wp_ok; [done|]. apply wp_ret. split; [done|]. split; [done|].
    split; [by eapply kept_trans|done].
Qed.

(** The second branch: the first operand is no Buffer, the second one must
    be, and receives the form of the first. *)
Lemma bufflib_concat_second args L a B c :
  wf_state L → is_buffer_value L (index2value args 1) = false →
  index2value args 2 = Some (VUserdata a) → buffer L a = Some B →
  contents L a = Some c →
  let str := slot_form L a c (index2value args 1) in
  wp False (bufflib_concat args) L
    (λ rets L', rets = [VUserdata a] ∧ wf_state L' ∧ kept a L L' ∧
                is_Some (buffer L' a) ∧ contents L' a = Some (c ++ str))
    (λ e L', L' = L ∧ (e = BufferTooLarge ∨ e = MemoryError)).
Proof.
  intros Hwf H1 H2 HB Hc str. unfold bufflib_concat.
  apply wp_bind. eapply wp_ok; [apply isbuffer_ok|].
  apply wp_bind. eapply wp_ok; [apply isbuffer_ok|].
  rewrite H1. simpl. apply wp_bind.
  apply wp_bind. eapply wp_ok; [by eapply getbuffer_ok|].
  apply wp_bind. eapply wp_ok; [by eapply tolstring_slot|]. fold str.
  apply wp_ret. apply wp_bind.
  destruct (addlstring_cases L a B c str Hwf HB Hc)
    as [[Hp ?]|[[Hp ?]|(L2 & B2 & Hp & HB2 & Hn2 & Hc2 & Hwf2 & Hk2)]].
  - eapply wp_raise; [done|]. split; [done|by left].
  - eapply wp_raise; [done|]. split; [done|by right].
  - eapply wp_ok; [done|]. eapply wp_ok; [by apply pushbuffer_ok|]. eauto.
Qed.

Lemma bufflib_concat_wf args L :
  wf_state L →
  wp True (bufflib_concat args) L (λ _, preserved L) (λ _, preserved L).
Proof.
  intros Hwf.
  destruct (is_buffer_value L (index2value args 1)) eqn:H1.
  - destruct (bufflib_concat_first args L Hwf H1) as (L1 & Hk1 & Ha & Hwp).
    eapply wp_mono; [exact Hwp| | |done].
    + intros rets L' (_ & Hwf' & Hk & _). split; [done|by eapply kept_ext_fresh].
    + intros e L' (Hwf' & Hext & _). by split.
  - destruct (getbuffer_cases args 2 L) as [(a & B & Hi & HB & Hg)|[Hg _]].
    + destruct (contents_wf _ _ _ Hwf HB) as (bs & _ & _ & Hc).
      eapply wp_mono; [by eapply bufflib_concat_second| | |done].
      * intros rets L' (_ & Hwf' & Hk & HB' & _). by eapply preserved_kept.
      * intros e L' [-> _]. by apply preserved_refl.
    + unfold bufflib_concat.
      apply wp_bind. eapply wp_ok; [apply isbuffer_ok|].
      apply wp_bind. eapply wp_ok; [apply isbuffer_ok|].
      rewrite H1. simpl. apply wp_bind. apply wp_bind.
      eapply wp_raise; [done|]. by apply preserved_refl.
Qed.

(** ** Method resolution *)

Lemma not_at_start_prefix key :
  not_at_start (String.index 0 STRINGPREFIX key) = negb (String.prefix STRINGPREFIX key).
Proof.
  destruct key as [|c1 key]; [done|].
  change (String.index 0 STRINGPREFIX (String c1 key))
    with (if String.prefix STRINGPREFIX (String c1 key) then Some 0%nat
          else match String.index 0 STRINGPREFIX key with
               | Some n => Some (S n)
               | None => None
               end).
  destruct (String.prefix STRINGPREFIX (String c1 key)); [done|].
  by destruct (String.index 0 STRINGPREFIX key).
Qed.

Lemma prefix_append rest :
  String.prefix STRINGPREFIX (STRINGPREFIX +:+ rest) = true ∧
  string_skip STRINGPREFIXLEN (STRINGPREFIX +:+ rest) = rest.
Proof.
  split; [|done]. apply String.prefix_correct. unfold STRINGPREFIX.
  simpl. by destruct rest.
Qed.

Lemma prefix_skip key :
  String.prefix STRINGPREFIX key = true →
  key = (STRINGPREFIX +:+ string_skip STRINGPREFIXLEN key)%string.
Proof.
  intros H%String.prefix_correct. unfold STRINGPREFIX, STRINGPREFIXLEN in *.
  destruct key as [|c1 [|c2 rest]]; simpl in H; try discriminate.
  destruct rest; simpl in H; injection H as -> ->; done.
Qed.

Lemma luaL_checkstring_state stack i L :
  (∃ key, luaL_checkstring stack i L = Ok key L) ∨
  luaL_checkstring stack i L = Raise (ArgError (Z.to_nat i)) L.
Proof.
  unfold luaL_checkstring. destruct (index2value stack i) as [[]|]; eauto.
Qed.

(** The state after the adapter for [key] has been put into the metatable. *)
Definition adapter_in_metatable (L : lua_State) (key : string) (f : value) : lua_State :=
  let x := fresh (dom (heap L)) in
  set_metatable (lua_setfield (metatable L) key (VClosure x))
                (set_heap <[x := OClosure f_stringop f]> L).

(** [bufflib_index] on a Buffer, step by step. *)
Lemma bufflib_index_eq L a B kv key :
  buffer L a = Some B → luaL_checkstring [VUserdata a; kv] 2 L = Ok key L →
  bufflib_index [VUserdata a; kv] L =
  let v := lua_getfield (metatable L) key in
  if negb (lua_isnil v) then Ok [v] L
  else if negb (String.prefix STRINGPREFIX key) then Ok [VNil] L
  else
    match global_string L with
    | None => Ok [VNil] L
    | Some strtab =>
        let f := lua_getfield strtab (string_skip STRINGPREFIXLEN key) in
        if negb (lua_isfunction f) then Ok [VNil] L
        else
          let x := fresh (dom (heap L)) in
          match loaded_bufflib L with
          | Some lib =>
              Ok [VClosure x]
                 (set_loaded_bufflib (lua_setfield lib key (VClosure x))
                                     (adapter_in_metatable L key f))
          | None => Raise IndexError (adapter_in_metatable L key f)
          end
    end.
Proof.
  intros HB%buffer_heap Hkey. unfold bufflib_index.
  rewrite (bind_ok _ _ _ _ _ Hkey).
  unfold mbind, M_bind, getB, get_state. rewrite HB. simpl.
  destruct (negb (lua_isnil (lua_getfield (metatable L) key))); [done|].
  rewrite not_at_start_prefix.
  destruct (negb (String.prefix STRINGPREFIX key)); [done|].
  destruct (global_string L) as [strtab|]; [|done].
  destruct (negb (lua_isfunction _)); [done|].
  simpl. by destruct (loaded_bufflib L).
Qed.

(** The function the string library binds to a name, if it does. *)
Definition string_function (L : lua_State) (name : string) : option value :=
  match global_string L with
  | Some strtab =>
      let f := lua_getfield strtab name in
      if lua_isfunction f then Some f else None
  | None => None
  end.

Lemma closure_views L x f o :
  heap L !! x = None →
  let L' := set_heap <[x := OClosure f o]> L in
  (∀ y, buffer L' y = buffer L y) ∧
  (∀ y B1, buffer L y = Some B1 → block_of (b B1) L' = block_of (b B1) L).
Proof.
  intros Hx L'. split.
  - intros y. unfold buffer. simpl. destruct (decide (y = x)) as [->|Hne].
    + by rewrite lookup_insert_eq, Hx.
    + by rewrite lookup_insert_ne.
  - intros y B1 HB1. destruct (block_of (b B1) L) as [bs|] eqn:Hbs.
    + by apply block_of_insert_fresh.
    + destruct (b B1) as [z|z]; simpl in *.
      * destruct (decide (z = x)) as [->|Hne];
          [by rewrite lookup_insert_eq|by rewrite lookup_insert_ne].
      * destruct (decide (z = x)) as [->|Hne];
          [by rewrite lookup_insert_eq|by rewrite lookup_insert_ne].
Qed.

Lemma bufflib_index_wf args L :
  wf_state L →
  wp True (bufflib_index args) L (λ _, preserved L) (λ _, preserved L).
Proof.
  intros Hwf.
  destruct (luaL_checkstring_state args 2 L) as [[key Hkey]|Hkey].
  2:{ unfold bufflib_index. apply wp_bind. eapply wp_raise; [done|].
      by apply preserved_refl. }
  destruct args as [|[] [|kv []]];
    try (unfold bufflib_index; apply wp_bind; (eapply wp_ok; [done|]); done).
  destruct (buffer L a) as [B|] eqn:HB.
  2:{ unfold bufflib_index. apply wp_bind. eapply wp_ok; [done|].
      apply wp_bind. unfold wp, getB. unfold buffer in HB.
      by destruct (heap L !! a) as [[]|]. }
  unfold wp. rewrite (bufflib_index_eq L a B kv key HB Hkey). cbv zeta.
  destruct (negb (lua_isnil _)); [by apply preserved_refl|].
  destruct (negb (String.prefix _ _)); [by apply preserved_refl|].
  destruct (global_string L) as [strtab|]; [|by apply preserved_refl].
  destruct (negb (lua_isfunction _)); [by apply preserved_refl|].
  destruct (closure_views L (fresh (dom (heap L))) f_stringop
              (lua_getfield strtab (string_skip STRINGPREFIXLEN key)) (fresh_heap L))
    as [Hbuf Hblk].
  assert (preserved L (adapter_in_metatable L key
            (lua_getfield strtab (string_skip STRINGPREFIXLEN key)))).
  { split.
    - by apply (wf_same_views L).
    - intros y. unfold adapter_in_metatable. cbv zeta.
      unfold buffer in *. simpl. by rewrite Hbuf. }
  destruct (loaded_bufflib L); [|done].
  destruct H as [Hwf' Hext]. split.
  - by eapply wf_same_heap.
  - eapply ext_trans; [exact Hext|]. by apply same_heap_ext.
Qed.

(** Every function of the two tables keeps the state well formed, on
    return and on error. *)
Lemma call_wf f args L :
  wf_state L →
  wp True (call f args) L (λ _, preserved L) (λ _, preserved L).
Proof.
  intros Hwf. destruct f; simpl.
  - by apply bufflib_concat_wf.
  - by apply bufflib_equal_wf.
  - by apply bufflib_len_wf.
  - by apply bufflib_tostring_wf.
  - by apply bufflib_gc_wf.
  - by apply bufflib_add_wf.
  - by apply bufflib_addsep_wf.
  - by apply bufflib_reset_wf.
  - by apply bufflib_newbuffer_wf.
  - by apply bufflib_isbuffer_wf.
  - by apply bufflib_index_wf.
  - done.
Qed.

Lemma call_ok_wf f args L rets L' :
  wf_state L → call f args L = Ok rets L' → wf_state L'.
Proof.
  intros Hwf Hcall. pose proof (call_wf f args L Hwf) as Hwp.
  unfold wp in Hwp. rewrite Hcall in Hwp. apply Hwp.
Qed.

(** ** The initial state *)

Lemma wf_empty L : heap L = ∅ → wf_state L.
Proof.
  intros Hh.
  assert (Hno : ∀ a, buffer L a = None).
  { intros a. unfold buffer. by rewrite Hh, lookup_empty. }
  constructor; intros *; rewrite Hno; done.
Qed.

Definition holds_no_buffer (o : object) : bool :=
  match o with OBuffer _ => false | _ => true end.

Lemma wf_no_buffers L :
  map_Forall (λ _ o, holds_no_buffer o = true) (heap L) → wf_state L.
Proof.
  intros Hall.
  assert (Hno : ∀ a, buffer L a = None).
  { intros a. unfold buffer. destruct (heap L !! a) as [o|] eqn:Ha; [|done].
    specialize (Hall a o Ha). by destruct o. }
  constructor; intros *; rewrite Hno; done.
Qed.

(** ** The growth policy of [prepbuffsize] *)

Lemma candidate_exact B sz :
  0 <= n B <= size B → size B < size_mod → 0 <= sz →
  size_sub (size B) (n B) < sz → too_large B sz = false →
  if size_sub (size_mul (size B) 2) (n B) <? sz
  then candidate B sz = n B + sz
  else candidate B sz = 2 * size B.
Proof.
  intros Hn Hs Hsz Hfit Hlarge. pose proof size_mod_pos.
  rewrite size_sub_exact in Hfit by lia.
  destruct (grow_ok sz (n B) (size B)) as [Hg _]; [lia..|].
  fold (candidate B sz) in Hg. specialize (Hg Hlarge). destruct Hg as [Hc Hor].
  unfold candidate in *.
  assert (Hd : 0 <= size_mul (size B) 2 < size_mod) by apply size_mod_range.
  assert (Hd' : size_mul (size B) 2 = 2 * size B ∨
                size_mul (size B) 2 = 2 * size B - size_mod).
  { unfold size_mul. replace (size B * 2) with (2 * size B) by lia.
    apply Zmod_cases. lia. }
  destruct (Z.ltb_spec (size_sub (size_mul (size B) 2) (n B)) sz) as [Hlt|Hge].
  - unfold size_add in *.
    destruct (Zmod_cases (n B + sz)) as [E|E]; [|lia|].
    + pose proof (size_mod_range (n B + sz)). lia.
    + rewrite E in Hc. pose proof (size_mod_range (n B + sz)). lia.
  - lia.
Qed.

(** C2. [prepbuffsize] on a Buffer of capacity [size], used length [n] and a
    request of [sz] bytes, in [size_t] arithmetic: when [size - n >= sz] the
    store and the capacity stay as they are (the whole state does); otherwise
    a successful call leaves the capacity [size * 2], except when
    [size * 2 - n < sz], where it leaves exactly [n + sz].  Either value is
    then the exact one (nothing wrapped), and the call does succeed when
    [n + sz] is at most half the [size_t] range and the allocator serves the
    request. *)
Theorem prepbuffsize_capacity L a B sz :
  wf_state L → buffer L a = Some B → 0 <= sz →
  (sz <= size_sub (size B) (n B) → prepbuffsize a sz L = Ok (b B, n B) L) ∧
  (size_sub (size B) (n B) < sz →
     (∀ p L', prepbuffsize a sz L = Ok p L' →
        ∃ B', buffer L' a = Some B' ∧ b B' ≠ b B ∧ n B' = n B ∧
          (size_sub (size_mul (size B) 2) (n B) < sz →
             size B' = size_add (n B) sz ∧ size B' = n B + sz) ∧
          (sz <= size_sub (size_mul (size B) 2) (n B) →
             size B' = size_mul (size B) 2 ∧ size B' = 2 * size B)) ∧
     (n B + sz <= size_half → frealloc L (heap L) (candidate B sz) = true →
        ∃ p L', prepbuffsize a sz L = Ok p L')).
Proof.
  intros Hwf HB Hsz. split; [by apply prepbuffsize_fits|].
  intros Hfit.
  pose proof (wf_range _ Hwf _ _ HB) as [Hn Hs].
  destruct (too_large B sz) eqn:Hlarge.
  { pose proof (prepbuffsize_too_large L a B sz HB Hfit Hlarge) as Hp.
    pose proof (too_large_half B sz Hn Hs Hsz Hfit Hlarge).
    split; [intros p L'; by rewrite Hp|]. intros; lia. }
  destruct (frealloc L (heap L) (candidate B sz)) eqn:Halloc.
  2:{ pose proof (prepbuffsize_no_memory L a B sz HB Hfit Hlarge Halloc) as Hp.
      split; [intros p L'; by rewrite Hp|]. done. }
  destruct (prepbuffsize_grow L a B sz Hwf HB Hsz Hfit Hlarge Halloc)
    as (L1 & B1 & Hp & HB1 & Hb1 & Hs1 & Hn1 & _).
  split; [|eauto].
  intros p L' Hp'. rewrite Hp in Hp'. simplify_eq.
  exists B1. split; [done|]. split.
  { rewrite Hb1. intros Heq.
    destruct (wf_backed _ Hwf _ _ HB) as (bs & Hbs & _).
    rewrite <- Heq in Hbs. simpl in Hbs. by rewrite fresh_heap in Hbs. }
  split; [done|].
  pose proof (candidate_exact B sz Hn Hs Hsz Hfit Hlarge) as Hex.
  rewrite Hs1. unfold candidate in *.
  destruct (Z.ltb_spec (size_sub (size_mul (size B) 2) (n B)) sz); split; intros; try lia;
    done.
Qed.

(** ** The overflow exit of [prepbuffsize] *)

(** Computations that end in [Ok] or are [Undefined], never in a Lua error. *)
Definition never_raises {A} (m : M A) : Prop := ∀ L e L', m L ≠ Raise e L'.

Lemma never_raises_bind {A B} (m : M A) (f : A → M B) :
  never_raises m → (∀ x, never_raises (f x)) → never_raises (m ≫= f).
Proof.
  intros Hm Hf L e L'. unfold mbind, M_bind.
  destruct (m L) as [x L1| |] eqn:E; [apply Hf| |done].
  intros _. by eapply Hm.
Qed.

Lemma bind_raise_inv {A B} (m : M A) (f : A → M B) L e L' :
  (m ≫= f) L = Raise e L' →
  m L = Raise e L' ∨ ∃ x L1, m L = Ok x L1 ∧ f x L1 = Raise e L'.
Proof.
  unfold mbind, M_bind.
  destruct (m L) as [x L1|e1 L1|].
  - intros H. right. by exists x, L1.
  - intros [= -> ->]. by left.
  - done.
Qed.

Lemma never_raises_ret {A} (x : A) : never_raises (mret x).
Proof. done. Qed.

Lemma never_raises_getB a : never_raises (getB a).
Proof. intros L e L'. unfold getB. by destruct (heap L !! a) as [[]|]. Qed.

Lemma never_raises_assign a f : never_raises (assign a f).
Proof.
  apply never_raises_bind; [apply never_raises_getB|]. by intros B L e L'.
Qed.

Lemma never_raises_load p k : never_raises (load p k).
Proof.
  intros L e L'. unfold load. destruct (block_of p.1 L); [|done].
  by destruct (in_bounds p.2 k l).
Qed.

Lemma never_raises_store p data : never_raises (store p data).
Proof.
  intros L e L'. unfold store. destruct (block_of p.1 L); [|done].
  by destruct (in_bounds p.2 (blen data) l).
Qed.

Lemma never_raises_buff_unref a : never_raises (buff_unref a).
Proof.
  apply never_raises_bind; [apply never_raises_getB|]. intros B.
  case_bool_decide; [|done]. unfold luaL_unref. by destruct (0 <=? ref B).
Qed.

(** C3. When [prepbuffsize] fails with "buffer too large", the state it
    leaves is the state it was called in: the error is raised before anything
    is written, so the store pointer, the capacity and the used length of the
    Buffer (of every Buffer) are as they were. *)
Theorem prepbuffsize_too_large_unchanged L a sz L' :
  prepbuffsize a sz L = Raise BufferTooLarge L' →
  L' = L ∧ buffer L' a = buffer L a.
Proof.
  intros Hp. cut (L' = L); [by intros ->|].
  unfold prepbuffsize in Hp.
  apply bind_raise_inv in Hp as [Hp|(B & L1 & HgetB & Hp)];
    [by apply never_raises_getB in Hp|].
  assert (L1 = L) as ->.
  { unfold getB in HgetB. destruct (heap L !! a) as [[]|]; by simplify_eq. }
  destruct (bind_raise_inv _ _ _ _ _ Hp) as [Hp1|(u & L2 & _ & Hp1)]; clear Hp.
  2:{ destruct (bind_raise_inv _ _ _ _ _ Hp1) as [Hp2|(B2 & L3 & _ & Hp2)]; [|done].
      by apply never_raises_getB in Hp2. }
  destruct (size_sub (size B) (n B) <? sz); [|done].
  destruct (bind_raise_inv _ _ _ _ _ Hp1) as [Hp2|(u & L2 & Hcheck & Hp2)]; clear Hp1.
  { unfold luaL_error, throw, mret, M_ret in Hp2. destruct (_ || _); by simplify_eq. }
  assert (L2 = L) as ->.
  { unfold luaL_error, throw, mret, M_ret in Hcheck. destruct (_ || _); by simplify_eq. }
  destruct (bind_raise_inv _ _ _ _ _ Hp2) as [Hp3|(x & L2 & _ & Hp3)]; clear Hp2.
  { unfold lua_newuserdata in Hp3. destruct (frealloc L (heap L) _); done. }
  exfalso. revert Hp3. generalize L2 BufferTooLarge L'.
  change (never_raises
    (memcpy (Udata x, 0) (b B, 0) (n B) ≫= λ _,
     buff_unref a ≫= λ _,
     luaL_ref x ≫= λ r,
     assign a (with_ref r) ≫= λ _,
     assign a (with_b (Udata x)) ≫= λ _,
     assign a (with_size (candidate B sz)))).
  apply never_raises_bind.
  { apply never_raises_bind; [apply never_raises_load|].
    intros data. apply never_raises_store. }
  intros _. apply never_raises_bind; [apply never_raises_buff_unref|].
  intros _. apply never_raises_bind; [by intros ? ? ?|].
  intros r. apply never_raises_bind; [apply never_raises_assign|].
  intros _. apply never_raises_bind; [apply never_raises_assign|].
  intros _. apply never_raises_assign.
Qed.

(** ** Equality *)

Lemma bytes_eqb_eq s1 s2 : bytes_eqb s1 s2 = true ↔ s1 = s2.
Proof.
  revert s2. induction s1 as [|x s1 IH]; intros [|y s2]; simpl; try done.
  rewrite andb_true_iff, IH. split.
  - intros [Hx ->]. by rewrite (Byte.byte_dec_bl _ _ Hx).
  - intros [= -> ->]. split; [by apply Byte.byte_dec_lb|done].
Qed.

Lemma bytes_eqb_sym s1 s2 : bytes_eqb s1 s2 = bytes_eqb s2 s1.
Proof.
  destruct (bytes_eqb s1 s2) eqn:E1, (bytes_eqb s2 s1) eqn:E2; try done.
  - apply bytes_eqb_eq in E1 as ->. pose proof (proj2 (bytes_eqb_eq s2 s2) eq_refl).
    congruence.
  - apply bytes_eqb_eq in E2 as ->. pose proof (proj2 (bytes_eqb_eq s1 s1) eq_refl).
    congruence.
Qed.

Lemma bufflib_tostring_inv a L s :
  bufflib_tostring [VUserdata a] L = Ok [VString s] L →
  ∃ B, buffer L a = Some B ∧ contents L a = Some s.
Proof.
  intros Ht.
  destruct (bufflib_tostring_cases [VUserdata a] L)
    as [(a' & B & c & Hi & HB & Hc & Hr)|[[e Hr]|Hr]]; rewrite Hr in Ht; try done.
  injection Ht as <-. cbv in Hi. injection Hi as <-. by exists B.
Qed.

Lemma bufflib_equal_eq a1 a2 B1 B2 s1 s2 L :
  buffer L a1 = Some B1 → buffer L a2 = Some B2 →
  contents L a1 = Some s1 → contents L a2 = Some s2 →
  bufflib_equal [VUserdata a1; VUserdata a2] L = Ok [VBool (bytes_eqb s2 s1)] L.
Proof.
  intros HB1 HB2 Hc1 Hc2. unfold bufflib_equal.
  rewrite (bind_ok _ _ _ _ _
             (getbuffer_ok [VUserdata a1; VUserdata a2] 1 L a1 B1 eq_refl HB1)).
  rewrite (bind_ok _ _ _ _ _
             (getbuffer_ok [VUserdata a1; VUserdata a2] 2 L a2 B2 eq_refl HB2)).
  assert (Ht1 : buffer_tostring a1 L = Ok s1 L)
    by (by rewrite buffer_tostring_contents, Hc1).
  assert (Ht2 : buffer_tostring a2 L = Ok s2 L)
    by (by rewrite buffer_tostring_contents, Hc2).
  by rewrite (bind_ok _ _ _ _ _ Ht1), (bind_ok _ _ _ _ _ Ht2).
Qed.

(** C7. [equal] on two Buffers is reflexive and symmetric, and it is true
    exactly when [tostring] gives the same byte string for both. *)
Theorem equal_reflexive_symmetric_tostring L a1 a2 s1 s2 :
  bufflib_tostring [VUserdata a1] L = Ok [VString s1] L →
  bufflib_tostring [VUserdata a2] L = Ok [VString s2] L →
  bufflib_equal [VUserdata a1; VUserdata a1] L = Ok [VBool true] L ∧
  bufflib_equal [VUserdata a1; VUserdata a2] L =
    bufflib_equal [VUserdata a2; VUserdata a1] L ∧
  ∃ r, bufflib_equal [VUserdata a1; VUserdata a2] L = Ok [VBool r] L ∧
       (r = true ↔ s1 = s2).
Proof.
  intros (B1 & HB1 & Hc1)%bufflib_tostring_inv (B2 & HB2 & Hc2)%bufflib_tostring_inv.
  rewrite (bufflib_equal_eq a1 a1 B1 B1 s1 s1), (bufflib_equal_eq a1 a2 B1 B2 s1 s2),
    (bufflib_equal_eq a2 a1 B2 B1 s2 s1) by done.
  split; [by rewrite (proj2 (bytes_eqb_eq s1 s1) eq_refl)|].
  split; [by rewrite bytes_eqb_sym|].
  eexists. split; [done|]. rewrite bytes_eqb_eq. split; congruence.
Qed.

(** ** Appending *)

Lemma bufflib_tostring_ok L a B c :
  buffer L a = Some B → contents L a = Some c →
  bufflib_tostring [VUserdata a] L = Ok [VString c] L.
Proof.
  intros HB Hc. unfold bufflib_tostring.
  rewrite (bind_ok _ _ _ _ _ (getbuffer_ok [VUserdata a] 1 L a B eq_refl HB)).
  unfold mbind, M_bind. by rewrite buffer_tostring_contents, Hc.
Qed.

Lemma wp_total_ok {A} (m : M A) L Q (E : error → lua_State → Prop) :
  wp False m L Q E → (∀ e L', E e L' → False) → ∃ x L', m L = Ok x L'.
Proof. unfold wp. destruct (m L) as [x L'|e L'|]; [eauto|intros ? H; by destruct (H e L')|done]. Qed.

Lemma append_error_fits L c total e :
  append_error L c total e → blen c + total <= size_half →
  (∀ h z, frealloc L h z = true) → False.
Proof.
  intros [[_ He]|[_ (h & z & He)]] Hfit Halloc; [lia|].
  rewrite Halloc in He. done.
Qed.

(** C1. After [add] has appended the values [vs] to a Buffer holding [c],
    [tostring] returns [c] followed by the display-string forms of the values
    in call order, however often the store was reallocated on the way.  Each
    form is the one the value has when its turn comes: for a value other than
    the Buffer itself that is its form in the state of the call.  The call
    does return when the result takes at most half the [size_t] range and the
    allocator serves every request. *)
Theorem add_tostring_concatenation L a c vs :
  wf_state L → bufflib_tostring [VUserdata a] L = Ok [VString c] L →
  let forms := display_forms L a c [] vs in
  (∀ rets L', bufflib_add (VUserdata a :: vs) L = Ok rets L' →
     bufflib_tostring [VUserdata a] L' = Ok [VString (c ++ mjoin forms)] L') ∧
  (VUserdata a ∉ vs → forms = (λ v, default [] (display L (Some v))) <$> vs) ∧
  (blen (c ++ mjoin forms) <= size_half → (∀ h z, frealloc L h z = true) →
     ∃ rets L', bufflib_add (VUserdata a :: vs) L = Ok rets L').
Proof.
  intros Hwf (B & HB & Hc)%bufflib_tostring_inv forms.
  pose proof (bufflib_add_spec L a B c vs Hwf HB Hc) as Hwp.
  split; [|split].
  - intros rets L' Hadd. unfold wp in Hwp. rewrite Hadd in Hwp.
    destruct Hwp as (_ & _ & _ & [B' HB'] & Hc'). by eapply bufflib_tostring_ok.
  - apply display_forms_others.
  - intros Hfit Halloc. eapply wp_total_ok; [exact Hwp|].
    intros e L' (_ & _ & _ & He). rewrite blen_app in Hfit.
    by eapply append_error_fits.
Qed.

(** ** Appending with a separator *)

(** The first form, then for each later form the separator followed by it. *)
Definition separated (sep : bytes) (forms : list bytes) : bytes :=
  match forms with
  | [] => []
  | d :: rest => d ++ mjoin ((λ d', sep ++ d') <$> rest)
  end.

Lemma with_sep_app sep ds1 ds2 :
  with_sep sep (ds1 ++ ds2) = with_sep sep ds1 ++ with_sep sep ds2.
Proof. unfold with_sep. by rewrite fmap_app, join_app. Qed.

Lemma mjoin_cons (x : bytes) l : mjoin (x :: l) = x ++ mjoin l.
Proof. done. Qed.

Lemma join_sep_shift (sep : bytes) ds :
  mjoin ((λ d', sep ++ d') <$> ds) ++ sep = sep ++ with_sep sep ds.
Proof.
  unfold with_sep. induction ds as [|d1 ds IH].
  - by rewrite !fmap_nil, app_nil_r.
  - rewrite !fmap_cons, !mjoin_cons, <- !app_assoc. by rewrite IH.
Qed.

Lemma separated_snoc sep ds d : separated sep (ds ++ [d]) = with_sep sep ds ++ d.
Proof.
  destruct ds as [|d0 ds].
  - unfold separated, with_sep. simpl. by rewrite app_nil_r.
  - change (separated sep ((d0 :: ds) ++ [d]))
      with (d0 ++ mjoin ((λ d', sep ++ d') <$> (ds ++ [d]))).
    rewrite fmap_app, join_app, fmap_cons, fmap_nil, mjoin_cons.
    change (mjoin []) with (@nil byte). rewrite app_nil_r.
    rewrite (app_assoc _ sep d), join_sep_shift.
    unfold with_sep. rewrite fmap_cons, mjoin_cons. by rewrite <- !app_assoc.
Qed.

Lemma display_forms_snoc L a acc sep vs v :
  display_forms L a acc sep (vs ++ [v]) =
  display_forms L a acc sep vs ++
  [display_as L a (acc ++ with_sep sep (display_forms L a acc sep vs)) v].
Proof.
  revert acc. induction vs as [|v0 vs IH]; intros acc; simpl.
  - unfold with_sep. simpl. by rewrite app_nil_r.
  - rewrite IH. unfold with_sep. simpl. by rewrite <- !app_assoc.
Qed.

Lemma bufflib_addsep_spec a rest mid vlast L B c :
  wf_state L → buffer L a = Some B → contents L a = Some c →
  let stack := VUserdata a :: rest in
  length mid = Z.to_nat (lua_gettop stack - 3) →
  (∀ j, (j < length mid)%nat → index2value stack (3 + Z.of_nat j) = mid !! j) →
  index2value stack (lua_gettop stack) = Some vlast →
  let sep := slot_form L a c (index2value stack 2) in
  let front := with_sep sep (display_forms L a c sep mid) in
  let final := display_as L a (c ++ front) vlast in
  wp (size_mod <= blen front) (bufflib_addsep stack) L
    (λ rets L', rets = [VUserdata a] ∧ wf_state L' ∧ kept a L L' ∧
                is_Some (buffer L' a) ∧ contents L' a = Some (c ++ front ++ final))
    (λ e L', wf_state L' ∧ kept a L L' ∧ is_Some (buffer L' a) ∧
             append_error L c (blen (front ++ final)) e).
Proof.
  intros Hwf HB Hc stack Hlen Hmid Hlast sep front final.
  unfold bufflib_addsep.
  apply wp_bind. eapply wp_ok; [by eapply getbuffer_ok|].
  apply wp_bind.
  eapply wp_mono; [by eapply (addsepstrings_spec a stack mid vlast L B c)| |done|done].
  intros _ L' (Hwf' & Hk & HB' & Hc').
  eapply wp_ok; [by apply pushbuffer_ok|]. done.
Qed.

(** C6. [addsep] with a separator and [N >= 1] values appends the first
    value's form, then for each later value the separator's form followed by
    the value's form, and nothing after the last value; with a single value no
    separator is written.  The separator is converted once, before the
    values.  The call does return when the result takes at most half the
    [size_t] range and the allocator serves every request. *)
Theorem addsep_tostring_separated L a c vsep vals :
  wf_state L → bufflib_tostring [VUserdata a] L = Ok [VString c] L →
  vals ≠ [] →
  let sep := display_as L a c vsep in
  let forms := display_forms L a c sep vals in
  (∀ rets L', bufflib_addsep (VUserdata a :: vsep :: vals) L = Ok rets L' →
     bufflib_tostring [VUserdata a] L' = Ok [VString (c ++ separated sep forms)] L') ∧
  (∀ v, vals = [v] → separated sep forms = display_as L a c v) ∧
  (blen (c ++ separated sep forms) <= size_half → (∀ h z, frealloc L h z = true) →
     ∃ rets L', bufflib_addsep (VUserdata a :: vsep :: vals) L = Ok rets L').
Proof.
  intros Hwf (B & HB & Hc)%bufflib_tostring_inv Hne sep forms.
  destruct vals as [|v0 vals0] using rev_ind; [done|]. clear IHvals0 Hne.
  rename vals0 into mid. rename v0 into vlast.
  assert (Hwp := bufflib_addsep_spec a (vsep :: mid ++ [vlast]) mid vlast L B c Hwf HB Hc).
  cbv zeta in Hwp.
  assert (Hsep : slot_form L a c
            (index2value (VUserdata a :: vsep :: mid ++ [vlast]) 2) = sep) by done.
  rewrite Hsep in Hwp.
  assert (Hres : separated sep forms =
            with_sep sep (display_forms L a c sep mid) ++
            display_as L a (c ++ with_sep sep (display_forms L a c sep mid)) vlast).
  { unfold forms. by rewrite display_forms_snoc, separated_snoc. }
  rewrite <- Hres in Hwp.
  assert (Hwp' : wp (size_mod <= blen (with_sep sep (display_forms L a c sep mid)))
            (bufflib_addsep (VUserdata a :: vsep :: mid ++ [vlast])) L
            (λ rets L', rets = [VUserdata a] ∧ wf_state L' ∧ kept a L L' ∧
                        is_Some (buffer L' a) ∧
                        contents L' a = Some (c ++ separated sep forms))
            (λ e L', wf_state L' ∧ kept a L L' ∧ is_Some (buffer L' a) ∧
                     append_error L c (blen (separated sep forms)) e)).
  { apply Hwp.
    - unfold lua_gettop. simpl. rewrite length_app. simpl. lia.
    - intros j Hj.
      change (3 + Z.of_nat j) with (Z.of_nat 3 + Z.of_nat j).
      rewrite (index2value_from _ 2 j).
      change (drop 2 (VUserdata a :: vsep :: mid ++ [vlast])) with (mid ++ [vlast]).
      by rewrite lookup_app_l.
    - unfold index2value, lua_gettop. simpl length.
      rewrite (proj2 (Z.leb_le _ _)) by lia.
      replace (Z.to_nat (Z.of_nat (S (S (length (mid ++ [vlast])))) - 1))
        with (S (S (length mid))) by (rewrite length_app; simpl; lia).
      change ((VUserdata a :: vsep :: mid ++ [vlast]) !! S (S (length mid)))
        with ((mid ++ [vlast]) !! length mid).
      by rewrite lookup_app_r, Nat.sub_diag. }
  clear Hwp. split; [|split].
  - intros rets L' Hadd. unfold wp in Hwp'. rewrite Hadd in Hwp'.
    destruct Hwp' as (_ & _ & _ & [B' HB'] & Hc'). by eapply bufflib_tostring_ok.
  - intros v Hv. destruct mid as [|? [|]]; simplify_eq/=. by rewrite app_nil_r.
  - intros Hfit Halloc. rewrite blen_app in Hfit.
    pose proof (blen_nonneg c).
    pose proof (blen_nonneg (display_as L a
      (c ++ with_sep sep (display_forms L a c sep mid)) vlast)).
    pose proof size_mod_half. pose proof size_mod_pos.
    unfold wp in Hwp'.
    destruct (bufflib_addsep _ L) as [rets L'|e L'|]; [eauto| |].
    + destruct Hwp' as (_ & _ & _ & He). exfalso. by eapply append_error_fits.
    + rewrite Hres, blen_app in Hfit. lia.
Qed.

(** C5, as the code has it. [addsep] checks no arity: called with a Buffer
    and a separator but no value, it takes the separator, which is the last
    argument, for the final value and adds it; when the call returns it
    returns the Buffer, and it returns whenever the result fits and the
    allocator serves the request (the conversion of the separator is the
    host's, and raises nothing here). *)
Theorem addsep_without_values L a c vsep :
  wf_state L → bufflib_tostring [VUserdata a] L = Ok [VString c] L →
  let sep := display_as L a c vsep in
  (∀ rets L', bufflib_addsep [VUserdata a; vsep] L = Ok rets L' →
     rets = [VUserdata a] ∧
     bufflib_tostring [VUserdata a] L' = Ok [VString (c ++ sep)] L') ∧
  (blen (c ++ sep) <= size_half → (∀ h z, frealloc L h z = true) →
     ∃ rets L', bufflib_addsep [VUserdata a; vsep] L = Ok rets L').
Proof.
  intros Hwf (B & HB & Hc)%bufflib_tostring_inv sep.
  assert (Hwp := bufflib_addsep_spec a [vsep] [] vsep L B c Hwf HB Hc).
  cbv zeta in Hwp.
  assert (Hsep : slot_form L a c (index2value [VUserdata a; vsep] 2) = sep) by done.
  rewrite Hsep in Hwp. unfold with_sep in Hwp. simpl in Hwp.
  rewrite app_nil_r in Hwp. fold sep in Hwp.
  specialize (Hwp eq_refl).
  assert (Hwp' := Hwp ltac:(intros j Hj; simpl in Hj; lia) eq_refl). clear Hwp.
  unfold wp in Hwp'. pose proof size_mod_pos.
  split.
  - intros rets L' Hr. rewrite Hr in Hwp'.
    destruct Hwp' as (-> & _ & _ & [B' HB'] & Hc'). split; [done|].
    by eapply bufflib_tostring_ok.
  - intros Hfit Halloc. rewrite blen_app in Hfit.
    destruct (bufflib_addsep _ L) as [rets L'|e L'|]; [eauto| |].
    + destruct Hwp' as (_ & _ & _ & He). exfalso. by eapply append_error_fits.
    + unfold blen in Hwp'. simpl in Hwp'. lia.
Qed.

(** ** Lazy resolution of the [s_] methods *)

Lemma lua_setfield_closure t key x :
  lua_setfield t key (VClosure x) = <[key := VClosure x]> t.
Proof. done. Qed.

Lemma lua_getfield_insert t key v :
  lua_getfield (<[key := v]> t) key = v.
Proof. unfold lua_getfield. by rewrite lookup_insert_eq. Qed.

(** C8. A method name that the metatable does not hold is looked up on a
    Buffer.  If the name is [s_] followed by a name the string library binds
    to a function, one adapter closure is created around that function, put
    under the name into the metatable and into the library table, and
    returned; any later lookup of the name on a Buffer returns that same
    closure from the metatable and changes nothing.  If the name does not
    start with [s_], or the string library has no function for the rest, the
    lookup returns nil and leaves the state, so both tables, as it was. *)
Theorem index_resolves_string_methods L a B kv key :
  buffer L a = Some B →
  luaL_checkstring [VUserdata a; kv] 2 L = Ok key L →
  lua_getfield (metatable L) key = VNil →
  (∀ rest f lib,
     key = (STRINGPREFIX +:+ rest)%string → string_function L rest = Some f →
     loaded_bufflib L = Some lib →
     ∃ x L',
       bufflib_index [VUserdata a; kv] L = Ok [VClosure x] L' ∧
       heap L !! x = None ∧ heap L' = <[x := OClosure f_stringop f]> (heap L) ∧
       metatable L' = <[key := VClosure x]> (metatable L) ∧
       loaded_bufflib L' = Some (<[key := VClosure x]> lib) ∧
       (∀ a' B', buffer L' a' = Some B' →
          bufflib_index [VUserdata a'; kv] L' = Ok [VClosure x] L')) ∧
  ((∀ rest, key = (STRINGPREFIX +:+ rest)%string → string_function L rest = None) →
     bufflib_index [VUserdata a; kv] L = Ok [VNil] L).
Proof.
  intros HB Hkey Habsent.
  rewrite (bufflib_index_eq L a B kv key HB Hkey). cbv zeta. rewrite Habsent.
  change (negb (lua_isnil VNil)) with false. cbv iota.
  split.
  - intros rest f lib -> Hf Hlib.
    destruct (prefix_append rest) as [Hpre Hskip]. rewrite Hpre, Hskip.
    change (negb true) with false. cbv iota.
    unfold string_function in Hf.
    destruct (global_string L) as [strtab|] eqn:Hstr; [|done].
    cbv zeta in Hf. destruct (lua_isfunction (lua_getfield strtab rest)) eqn:Hfun; [|done].
    injection Hf as <-. change (negb true) with false. cbv iota. rewrite Hlib.
    eexists _, _. split; [reflexivity|].
    split; [apply fresh_heap|]. split; [done|]. split; [done|]. split; [done|].
    intros a' B' HB'.
    assert (Hkey' : ∀ L1, luaL_checkstring [VUserdata a'; kv] 2 L1 =
                            Ok (STRINGPREFIX +:+ rest)%string L1).
    { intros L1. unfold luaL_checkstring in *.
      change (index2value [VUserdata a'; kv] 2) with (Some kv).
      change (index2value [VUserdata a; kv] 2) with (Some kv) in Hkey.
      destruct kv; try done; unfold mret, M_ret in *; by injection Hkey as ->. }
    rewrite (bufflib_index_eq _ a' B' kv _ HB' (Hkey' _)). cbv zeta.
    simpl metatable. rewrite lua_setfield_closure, lua_getfield_insert. done.
  - intros Hnone.
    destruct (String.prefix STRINGPREFIX key) eqn:Hpre; [|done].
    change (negb true) with false. cbv iota.
    specialize (Hnone _ (prefix_skip key Hpre)). unfold string_function in Hnone.
    destruct (global_string L) as [strtab|]; [|done]. cbv zeta in Hnone.
    by destruct (lua_isfunction _).
Qed.

(** ** The invariant of the data model *)

(** C9. Every function of the library keeps the used length of every Buffer
    between 0 and the capacity of its store, when it returns and when it
    raises an error: creation, [add], [addsep], [concat], [reset], the readers
    and the others keep a well-formed state well formed, and a well-formed
    state has [0 <= n <= size] in each Buffer. *)
Theorem operations_preserve_invariant f args L :
  wf_state L →
  match call f args L with
  | Ok _ L' | Raise _ L' =>
      wf_state L' ∧ ∀ a B, buffer L' a = Some B → 0 <= n B <= size B
  | Undefined => True
  end.
Proof.
  intros Hwf. pose proof (call_wf f args L Hwf) as Hwp. unfold wp in Hwp.
  destruct (call f args L) as [rets L'|e L'|]; [| |done].
  - destruct Hwp as [Hwf' _]. split; [done|]. intros a B HB.
    by destruct (wf_range _ Hwf' _ _ HB).
  - destruct Hwp as [Hwf' _]. split; [done|]. intros a B HB.
    by destruct (wf_range _ Hwf' _ _ HB).
Qed.

(** The branch of the statement above that a call which returned is in. *)
Lemma returned_state f args L rets L' :
  call f args L = Ok rets L' →
  match call f args L with
  | Ok _ L' | Raise _ L' =>
      wf_state L' ∧ ∀ a B, buffer L' a = Some B → 0 <= n B <= size B
  | Undefined => True
  end →
  wf_state L' ∧ ∀ a B, buffer L' a = Some B → 0 <= n B <= size B.
Proof. intros ->. exact (λ H, H). Qed.

(** ** What the mutators return *)

Lemma bind_ok_inv {A B} (m : M A) (f : A → M B) L y L' :
  (m ≫= f) L = Ok y L' → ∃ x L1, m L = Ok x L1 ∧ f x L1 = Ok y L'.
Proof.
  unfold mbind, M_bind. destruct (m L) as [x L1| |]; [|done..].
  intros H. by exists x, L1.
Qed.

Lemma getbuffer_then_push args body L rets L' :
  (getbuffer args 1 ≫= λ B, body B ≫= λ _ : (), pushbuffer args 1) L = Ok rets L' →
  ∃ a, index2value args 1 = Some (VUserdata a) ∧ rets = [VUserdata a] ∧
       is_Some (buffer L a).
Proof.
  intros (a & L1 & Hg & Hrest)%bind_ok_inv.
  apply bind_ok_inv in Hrest as ([] & L2 & _ & Hpush).
  destruct (getbuffer_cases args 1 L) as [(a' & B & Hi & HB & Hg')|[Hg' _]];
    rewrite Hg' in Hg; [|done]. injection Hg as <- <-.
  exists a'. split; [done|]. unfold pushbuffer in Hpush. rewrite Hi in Hpush.
  injection Hpush as <- _. split; [done|]. by rewrite HB.
Qed.

(** C10. [add], [addsep] and [reset] return the value they were given as
    first argument: the same Buffer object, which is a Buffer before and
    after the call, so that calls can be chained. *)
Theorem mutators_return_their_buffer f args L rets L' :
  wf_state L → f = f_add ∨ f = f_addsep ∨ f = f_reset →
  call f args L = Ok rets L' →
  ∃ a, index2value args 1 = Some (VUserdata a) ∧ rets = [VUserdata a] ∧
       is_Some (buffer L a) ∧ is_Some (buffer L' a).
Proof.
  intros Hwf Hf Hcall.
  assert (∃ a, index2value args 1 = Some (VUserdata a) ∧ rets = [VUserdata a] ∧
               is_Some (buffer L a)) as (a & Hi & Hr & Ha).
  { destruct Hf as [->|[->| ->]]; simpl in Hcall.
    - by eapply (getbuffer_then_push args (λ B, addstrings B args 2 0)).
    - by eapply (getbuffer_then_push args (λ B, addsepstrings B args)).
    - apply (getbuffer_then_push args (λ B, buff_unref B ≫= λ _, buffinit B) L rets L').
      rewrite <- Hcall. unfold bufflib_reset, mbind, M_bind.
      destruct (getbuffer args 1 L) as [B L1| |]; [|done..].
      destruct (buff_unref B L1) as [? L2| |]; [|done..].
      by destruct (buffinit B L2). }
  exists a. do 3 (split; [done|]).
  pose proof (call_wf f args L Hwf) as Hwp. unfold wp in Hwp.
  rewrite Hcall in Hwp. destruct Hwp as [_ Hext]. by apply Hext.
Qed.

(** * Further properties of the library *)

(** ** Releasing the store: [buff_unref], [bufflib_reset], [bufflib_gc] *)

(** The registry after [buff_unref] on a Buffer whose [ref] field is [r]. *)
Definition unref_registry (r : Z) (reg : gmap Z addr) : gmap Z addr :=
  if 0 <=? r then delete r reg else reg.

Lemma buff_unref_eq L a B :
  buffer L a = Some B →
  buff_unref a L = Ok tt (set_registry (unref_registry (ref B)) L) ∨
  (buff_unref a L = Ok tt L ∧ unref_registry (ref B) (registry L) = registry L).
Proof.
  intros HB%buffer_heap. unfold buff_unref, mbind, M_bind, getB. rewrite HB.
  unfold unref_registry, luaL_unref, LUA_NOREF.
  case_bool_decide as Hr.
  - destruct (0 <=? ref B) eqn:E; [by left|by right].
  - right. split; [done|]. rewrite Hr. done.
Qed.

Lemma buff_unref_state L a B :
  buffer L a = Some B →
  ∃ L', buff_unref a L = Ok tt L' ∧ heap L' = heap L ∧ same_tables L L' ∧
        registry L' = unref_registry (ref B) (registry L).
Proof.
  intros HB. destruct (buff_unref_eq L a B HB) as [H|[H Hreg]].
  - eexists. split; [exact H|]. done.
  - exists L. by rewrite Hreg.
Qed.

Lemma set_heap_registry f L : registry (set_heap f L) = registry L.
Proof. done. Qed.

Lemma len_of_buffer L a B rest :
  buffer L a = Some B →
  bufflib_len (VUserdata a :: rest) L =
    Ok [VNumber (integer_tonumber (to_lua_Integer (n B)))] L.
Proof.
  intros HB. unfold bufflib_len.
  rewrite (bind_ok _ _ _ _ _ (getbuffer_ok (VUserdata a :: rest) 1 L a B eq_refl HB)).
  unfold mbind, M_bind, getB. apply buffer_heap in HB. by rewrite HB.
Qed.

Lemma to_lua_Integer_small z : z < size_half → to_lua_Integer z = z.
Proof. intros Hz. unfold to_lua_Integer. fold size_half. by rewrite (proj2 (Z.ltb_lt _ _)). Qed.

Lemma size_half_pos : 0 < size_half.
Proof. unfold size_half. pose proof size_bits_pos. apply Z.pow_pos_nonneg; lia. Qed.

(** X1. [reset] on a Buffer returns that Buffer emptied: [tostring] gives the
    empty string and the length is 0, the store is the inline array again
    with capacity [LUAL_BUFFERSIZE], and the reference to a store in the
    registry has been released.  The state stays well formed and no other
    Buffer changes. *)
Theorem reset_empties L a B rest :
  wf_state L → buffer L a = Some B →
  ∃ L', bufflib_reset (VUserdata a :: rest) L = Ok [VUserdata a] L' ∧
    bufflib_tostring [VUserdata a] L' = Ok [VString []] L' ∧
    bufflib_len [VUserdata a] L' = Ok [VNumber (integer_tonumber 0)] L' ∧
    buffer L' a = Some (mkBuffer LUA_NOREF (InitbOf a) LUAL_BUFFERSIZE 0 (initb B)) ∧
    registry L' = (if 0 <=? ref B then delete (ref B) (registry L) else registry L) ∧
    wf_state L' ∧
    ∀ y, y ≠ a → buffer L' y = buffer L y ∧ contents L' y = contents L y.
Proof.
  intros Hwf HB.
  destruct (bufflib_reset_spec L a B rest Hwf HB) as (L' & Hr & Hwf' & Hk & Hc & HB').
  exists L'. split; [done|].
  split; [by eapply bufflib_tostring_ok|].
  split.
  { rewrite (len_of_buffer L' a _ [] HB'). simpl.
    by rewrite (to_lua_Integer_small 0 size_half_pos). }
  split; [done|]. split; [|split; [done|]].
  - unfold bufflib_reset in Hr.
    rewrite (bind_ok _ _ _ _ _ (getbuffer_ok (VUserdata a :: rest) 1 L a B eq_refl HB)) in Hr.
    destruct (buff_unref_state L a B HB) as (L1 & Hun & Hh1 & _ & Hreg).
    rewrite (bind_ok _ _ _ _ _ Hun) in Hr.
    assert (HB1 : buffer L1 a = Some B) by (unfold buffer; by rewrite Hh1).
    rewrite (bind_ok _ _ _ _ _ (buffinit_ok L1 a B HB1)) in Hr.
    injection Hr as <-. simpl. exact Hreg.
  - intros y Hy. split; [by apply (kept_buffer _ _ _ Hk)|by eapply contents_kept].
Qed.

(** X2. The length metamethod counts the bytes [tostring] returns, as long as
    the count fits a [lua_Integer]. *)
Theorem len_counts_tostring L a c :
  wf_state L → bufflib_tostring [VUserdata a] L = Ok [VString c] L →
  blen c < size_half →
  bufflib_len [VUserdata a] L = Ok [VNumber (integer_tonumber (blen c))] L.
Proof.
  intros Hwf (B & HB & Hc)%bufflib_tostring_inv Hsmall.
  rewrite (len_of_buffer L a B [] HB).
  rewrite (contents_blen _ _ _ _ Hwf HB Hc) in Hsmall |- *.
  by rewrite to_lua_Integer_small.
Qed.

(** ** The readers *)

Lemma bufflib_len_state args L :
  match bufflib_len args L with Ok _ L' | Raise _ L' => L' = L | Undefined => True end.
Proof.
  unfold bufflib_len.
  destruct (getbuffer_cases args 1 L) as [(a & B & Hi & HB & Hg)|[Hg _]].
  - rewrite (bind_ok _ _ _ _ _ Hg). unfold mbind, M_bind, getB.
    apply buffer_heap in HB. by rewrite HB.
  - by rewrite (bind_raise _ _ _ _ _ Hg).
Qed.

Lemma bufflib_equal_state args L :
  match bufflib_equal args L with Ok _ L' | Raise _ L' => L' = L | Undefined => True end.
Proof.
  unfold bufflib_equal.
  destruct (getbuffer_cases args 1 L) as [(a1 & B1 & Hi1 & HB1 & Hg1)|[Hg1 _]];
    [|by rewrite (bind_raise _ _ _ _ _ Hg1)].
  rewrite (bind_ok _ _ _ _ _ Hg1).
  destruct (getbuffer_cases args 2 L) as [(a2 & B2 & Hi2 & HB2 & Hg2)|[Hg2 _]];
    [|by rewrite (bind_raise _ _ _ _ _ Hg2)].
  rewrite (bind_ok _ _ _ _ _ Hg2).
  unfold mbind, M_bind. rewrite !buffer_tostring_contents.
  destruct (contents L a1); [|done]. rewrite buffer_tostring_contents.
  by destruct (contents L a2).
Qed.

(** X3. [tostring], the length metamethod, [equal] and [isbuffer] only read:
    whether they return or raise, the state is the one they were called
    in. *)
Theorem readers_leave_state f args L :
  f = f_tostring ∨ f = f_len ∨ f = f_equal ∨ f = f_isbuffer →
  match call f args L with
  | Ok _ L' | Raise _ L' => L' = L
  | Undefined => True
  end.
Proof.
  intros [->|[->|[->| ->]]]; simpl.
  - by destruct (bufflib_tostring_cases args L)
      as [(a & B & c & _ & _ & _ & ->)|[[e ->]| ->]].
  - apply bufflib_len_state.
  - apply bufflib_equal_state.
  - unfold bufflib_isbuffer, mbind, M_bind. by rewrite isbuffer_ok.
Qed.

(** X4. [isbuffer] never raises: it returns one boolean, which is true
    exactly when its first argument is a Buffer; with no argument, or with a
    userdata of another kind, it is false. *)
Theorem isbuffer_decides args L :
  ∃ x, bufflib_isbuffer args L = Ok [VBool x] L ∧
       (x = true ↔ ∃ a B, head args = Some (VUserdata a) ∧ buffer L a = Some B).
Proof.
  exists (is_buffer_value L (index2value args 1)). split.
  - unfold bufflib_isbuffer, mbind, M_bind. by rewrite isbuffer_ok.
  - rewrite index2value_1. split.
    + apply is_buffer_value_true.
    + intros (a & B & -> & HB). simpl. apply bool_decide_eq_true. by rewrite HB.
Qed.

(** ** Argument errors *)

Lemma getbuffer_not_buffer args i L :
  is_buffer_value L (index2value args i) = false →
  getbuffer args i L = Raise (ArgError (Z.to_nat i)) L.
Proof.
  intros Hno.
  destruct (getbuffer_cases args i L) as [(a & B & Hi & HB & Hg)|[Hg _]]; [|done].
  rewrite Hi in Hno. simpl in Hno. apply bool_decide_eq_false in Hno.
  destruct Hno. by rewrite HB.
Qed.

(** X5. A function that takes a Buffer raises an argument error for the first
    argument when that is no Buffer, and leaves the state as it is; [equal]
    does so for its second argument too, and [concat] of two values none of
    which is a Buffer blames the second. *)
Theorem not_a_buffer_raises args L :
  (is_buffer_value L (index2value args 1) = false →
     ∀ f, f ∈ [f_add; f_addsep; f_reset; f_tostring; f_len; f_equal; f_gc] →
          call f args L = Raise (ArgError 1) L) ∧
  (is_buffer_value L (index2value args 1) = true →
   is_buffer_value L (index2value args 2) = false →
     bufflib_equal args L = Raise (ArgError 2) L) ∧
  (is_buffer_value L (index2value args 1) = false →
   is_buffer_value L (index2value args 2) = false →
     bufflib_concat args L = Raise (ArgError 2) L).
Proof.
  split; [|split].
  - intros Hno f Hf.
    pose proof (getbuffer_not_buffer args 1 L Hno) as Hg.
    repeat (apply elem_of_cons in Hf as [->|Hf]); [..|by apply elem_of_nil in Hf];
      simpl; unfold bufflib_add, bufflib_addsep, bufflib_reset, bufflib_tostring,
               bufflib_len, bufflib_equal, bufflib_gc;
      by rewrite (bind_raise _ _ _ _ _ Hg).
  - intros H1 H2. unfold bufflib_equal.
    destruct (is_buffer_value_true _ _ H1) as (a & B & Hi & HB).
    rewrite (bind_ok _ _ _ _ _ (getbuffer_ok args 1 L a B Hi HB)).
    by rewrite (bind_raise _ _ _ _ _ (getbuffer_not_buffer args 2 L H2)).
  - intros H1 H2. unfold bufflib_concat.
    rewrite (bind_ok _ _ _ _ _ (isbuffer_ok args 1 L)).
    rewrite (bind_ok _ _ _ _ _ (isbuffer_ok args 2 L)).
    rewrite H1. cbn [andb]. unfold mbind, M_bind.
    by rewrite (getbuffer_not_buffer args 2 L H2).
Qed.

(** ** [addsep] without a separator *)

(** X6. [addsep] called with the Buffer alone writes no separator and takes
    the Buffer itself for the final value: it appends the Buffer's content to
    the Buffer and returns it. *)
Theorem addsep_alone_appends_itself L a c :
  wf_state L → bufflib_tostring [VUserdata a] L = Ok [VString c] L →
  (∀ rets L', bufflib_addsep [VUserdata a] L = Ok rets L' →
     rets = [VUserdata a] ∧
     bufflib_tostring [VUserdata a] L' = Ok [VString (c ++ c)] L') ∧
  (blen c + blen c <= size_half → (∀ h z, frealloc L h z = true) →
     ∃ rets L', bufflib_addsep [VUserdata a] L = Ok rets L').
Proof.
  intros Hwf (B & HB & Hc)%bufflib_tostring_inv.
  pose proof (bufflib_addsep_spec a [] [] (VUserdata a) L B c Hwf HB Hc
                eq_refl ltac:(intros j Hj; simpl in Hj; lia) eq_refl) as Hwp.
  cbv zeta in Hwp. simpl display_forms in Hwp.
  change (with_sep _ []) with (@nil byte) in Hwp.
  rewrite !app_nil_r in Hwp. simpl display_as in Hwp.
  rewrite bool_decide_eq_true_2 in Hwp by done. simpl app in Hwp.
  split.
  - intros rets L' Hr. unfold wp in Hwp. rewrite Hr in Hwp.
    destruct Hwp as (-> & _ & _ & [B' HB'] & Hc'). split; [done|].
    by eapply bufflib_tostring_ok.
  - intros Hfit Halloc. unfold wp in Hwp.
    destruct (bufflib_addsep [VUserdata a] L) as [rets L'|e L'|]; [eauto| |].
    + destruct Hwp as (_ & _ & _ & He). exfalso.
      eapply (append_error_fits L c (blen c)); [exact He|lia|done].
    + pose proof size_mod_pos. simpl in Hwp. unfold blen in Hwp. simpl in Hwp. lia.
Qed.

(** ** [prepbuffsize] and the content *)

(** X7. A [prepbuffsize] that returns has kept the content of the Buffer,
    also when it moved it to a larger store: the pointer it returns is the
    end of the content, at least [sz] bytes of the store lie behind it, and
    no other Buffer has changed. *)
Theorem prepbuffsize_keeps_content L a B sz p L' :
  wf_state L → buffer L a = Some B → 0 <= sz →
  prepbuffsize a sz L = Ok p L' →
  ∃ B', buffer L' a = Some B' ∧ p = (b B', n B') ∧ n B' = n B ∧
        n B + sz <= size B' ∧ contents L' a = contents L a ∧ wf_state L' ∧
        ∀ y, y ≠ a → buffer L' y = buffer L y ∧ contents L' y = contents L y.
Proof.
  intros Hwf HB Hsz Hp.
  destruct (prepbuffsize_cases L a B sz Hwf HB Hsz)
    as [[Hr _]|[[Hr _]|(L1 & B1 & Hr & HB1 & Hn1 & Hroom & Hc1 & Hwf1 & Hk1)]];
    rewrite Hr in Hp; try done.
  injection Hp as <- <-. exists B1. repeat (split; [done|]).
  intros y Hy. split; [by apply (kept_buffer _ _ _ Hk1)|by eapply contents_kept].
Qed.

(** ** Keys of [bufflib_index] *)

Lemma until_nul_app key rest : until_nul (key ++ x00 :: rest) = until_nul key.
Proof.
  induction key as [|x key IH]; simpl; [done|].
  destruct (Byte.eqb x x00); [done|]. by rewrite IH.
Qed.

(** X8. [bufflib_index] reads its key as a C string: what follows the first
    zero byte of the key is ignored. *)
Theorem index_key_is_c_string a key rest L :
  bufflib_index [VUserdata a; VString (key ++ x00 :: rest)] L =
  bufflib_index [VUserdata a; VString key] L.
Proof.
  assert (Hkey : c_str (key ++ x00 :: rest) = c_str key)
    by (unfold c_str; by rewrite until_nul_app).
  unfold bufflib_index, luaL_checkstring.
  change (index2value [VUserdata a; VString (key ++ x00 :: rest)] 2)
    with (Some (VString (key ++ x00 :: rest))).
  change (index2value [VUserdata a; VString key] 2) with (Some (VString key)).
  cbv beta iota. by rewrite Hkey.
Qed.

(** X9. When the metatable has an entry under the key, [bufflib_index]
    returns that entry and changes nothing; this is how the methods [add],
    [addsep] and [reset] are found on a Buffer. *)
Theorem index_finds_metatable_entry L a B key v :
  buffer L a = Some B → metatable L !! c_str key = Some v → v ≠ VNil →
  bufflib_index [VUserdata a; VString key] L = Ok [v] L.
Proof.
  intros HB Hv Hnil.
  rewrite (bufflib_index_eq L a B (VString key) (c_str key) HB eq_refl). cbv zeta.
  unfold lua_getfield. rewrite Hv. simpl. by destruct v.
Qed.

(** ** New Buffers: [bufflib_newbuffer] and [bufflib_concat] *)

Lemma bufflib_isbuffer_true L a B :
  buffer L a = Some B → bufflib_isbuffer [VUserdata a] L = Ok [VBool true] L.
Proof.
  intros HB. unfold bufflib_isbuffer, mbind, M_bind. rewrite isbuffer_ok. simpl.
  rewrite bool_decide_eq_true_2; [done|by rewrite HB].
Qed.

(** X10. [new] returns a Buffer at an address that held nothing.  The Buffer
    holds the display-string forms of the arguments in call order (nothing
    for [new()]), [isbuffer] is true of it, and the Buffers that existed are
    as they were.  The call does return when the forms take at most half the
    [size_t] range and the allocator serves every request. *)
Theorem new_holds_arguments args L :
  wf_state L → (∀ x, VUserdata x ∈ args → is_Some (heap L !! x)) →
  let joined := mjoin ((λ v, default [] (display L (Some v))) <$> args) in
  (∀ rets L', bufflib_newbuffer args L = Ok rets L' →
     ∃ a, rets = [VUserdata a] ∧ heap L !! a = None ∧
          bufflib_tostring rets L' = Ok [VString joined] L' ∧
          bufflib_isbuffer rets L' = Ok [VBool true] L' ∧
          wf_state L' ∧
          ∀ y, y ≠ a → buffer L' y = buffer L y ∧ contents L' y = contents L y) ∧
  (blen joined <= size_half → (∀ h z, frealloc L h z = true) →
     ∃ rets L', bufflib_newbuffer args L = Ok rets L').
Proof.
  intros Hwf Hlive joined.
  pose proof (bufflib_newbuffer_spec args L Hwf) as Hwp. cbv zeta in Hwp.
  set (a := fresh (dom (heap L))) in Hwp.
  assert (Hnot : VUserdata a ∉ args).
  { intros Hin. destruct (Hlive a Hin) as [o Ho].
    pose proof (fresh_heap L) as Hf. fold a in Hf. congruence. }
  rewrite (display_forms_others L a [] [] args Hnot) in Hwp. fold joined in Hwp.
  split.
  - intros rets L' Hr. unfold wp in Hwp. rewrite Hr in Hwp.
    destruct Hwp as (-> & _ & Hwf' & Hk & [B' HB'] & Hc').
    exists a. split; [done|]. split; [apply fresh_heap|].
    split; [by eapply bufflib_tostring_ok|].
    split; [by eapply bufflib_isbuffer_true|]. split; [done|].
    intros y Hy. split; [by apply (kept_buffer _ _ _ Hk)|by eapply contents_kept].
  - intros Hfit Halloc. eapply wp_total_ok; [exact Hwp|].
    intros e L' (_ & _ & He). eapply append_error_fits; [exact He| |done].
    simpl. unfold blen at 1. simpl. lia.
Qed.

(** [bufflib_concat] with a Buffer for first operand, after [newbuffer] has
    returned. *)
Lemma bufflib_concat_first_eq args L d L1 :
  is_buffer_value L (index2value args 1) = true → newbuffer L = Ok d L1 →
  bufflib_concat args L =
  (str1 ← tolstring (args ++ [VUserdata d]) 1;
   str2 ← tolstring (args ++ [VUserdata d]) 2;
   addlstring2 d str1 str2;;
   mret [VUserdata d]) L1.
Proof.
  intros H1 Hn. unfold bufflib_concat.
  rewrite (bind_ok _ _ _ _ _ (isbuffer_ok args 1 L)).
  rewrite (bind_ok _ _ _ _ _ (isbuffer_ok args 2 L)).
  rewrite H1. cbn [andb]. by rewrite (bind_ok _ _ _ _ _ Hn).
Qed.

(** X11. [concat] of two Buffers makes a new Buffer that holds the content of
    the first followed by the content of the second; the operands keep their
    content (they may be one and the same Buffer).  The call does return when
    the joined content takes at most half the [size_t] range and the
    allocator serves every request. *)
Theorem concat_buffers_joins L a1 a2 c1 c2 :
  wf_state L →
  bufflib_tostring [VUserdata a1] L = Ok [VString c1] L →
  bufflib_tostring [VUserdata a2] L = Ok [VString c2] L →
  (∀ rets L', bufflib_concat [VUserdata a1; VUserdata a2] L = Ok rets L' →
     ∃ d, rets = [VUserdata d] ∧ heap L !! d = None ∧ wf_state L' ∧
          bufflib_tostring rets L' = Ok [VString (c1 ++ c2)] L' ∧
          bufflib_tostring [VUserdata a1] L' = Ok [VString c1] L' ∧
          bufflib_tostring [VUserdata a2] L' = Ok [VString c2] L') ∧
  (blen c1 + blen c2 <= size_half → (∀ h z, frealloc L h z = true) →
     ∃ rets L', bufflib_concat [VUserdata a1; VUserdata a2] L = Ok rets L').
Proof.
  intros Hwf (B1 & HB1 & Hc1)%bufflib_tostring_inv (B2 & HB2 & Hc2)%bufflib_tostring_inv.
  set (args := [VUserdata a1; VUserdata a2]).
  assert (H1 : is_buffer_value L (index2value args 1) = true).
  { simpl. apply bool_decide_eq_true. by rewrite HB1. }
  destruct (newbuffer_cases L Hwf) as [[Hn Halloc]|(L1 & Hn & Hwf1 & Hk1 & Hcd & Hd & HBd)].
  { assert (Hr : bufflib_concat args L = Raise MemoryError L).
    { unfold bufflib_concat.
      rewrite (bind_ok _ _ _ _ _ (isbuffer_ok args 1 L)).
      rewrite (bind_ok _ _ _ _ _ (isbuffer_ok args 2 L)).
      rewrite H1. cbn [andb]. by rewrite (bind_raise _ _ _ _ _ Hn). }
    split; [intros rets L' Hok; congruence|].
    intros _ Hall. rewrite Hall in Halloc. done. }
  set (d := fresh (dom (heap L))) in *.
  assert (Hne1 : a1 ≠ d) by (intros ->; congruence).
  assert (Hne2 : a2 ≠ d) by (intros ->; congruence).
  assert (Hc1' : contents L1 a1 = Some c1) by (by rewrite (contents_kept d L L1)).
  assert (Hc2' : contents L1 a2 = Some c2) by (by rewrite (contents_kept d L L1)).
  assert (HB1' : buffer L1 a1 = Some B1) by (by rewrite (kept_buffer _ _ _ Hk1)).
  assert (HB2' : buffer L1 a2 = Some B2) by (by rewrite (kept_buffer _ _ _ Hk1)).
  assert (Ht1 : tolstring (args ++ [VUserdata d]) 1 L1 = Ok c1 L1).
  { rewrite tolstring_display. change (index2value _ 1) with (Some (VUserdata a1)).
    by rewrite (display_buffer L1 a1 B1 HB1'), Hc1'. }
  assert (Ht2 : tolstring (args ++ [VUserdata d]) 2 L1 = Ok c2 L1).
  { rewrite tolstring_display. change (index2value _ 2) with (Some (VUserdata a2)).
    by rewrite (display_buffer L1 a2 B2 HB2'), Hc2'. }
  assert (Heq : bufflib_concat args L = (addlstring2 d c1 c2;; mret [VUserdata d]) L1).
  { rewrite (bufflib_concat_first_eq args L d L1 H1 Hn).
    by rewrite (bind_ok _ _ _ _ _ Ht1), (bind_ok _ _ _ _ _ Ht2). }
  rewrite Heq.
  destruct (addlstring2_cases L1 d _ [] c1 c2 Hwf1 HBd Hcd)
    as [[Hp Hbig]|[[Hp [z Hz]]|[[Hp Hwrap]|(L2 & B2' & Hp & HB2d & Hn2 & Hc2d & Hwf2 & Hk2)]]].
  - rewrite (bind_raise _ _ _ _ _ Hp). split; [done|].
    intros Hfit _. simpl in Hbig. lia.
  - rewrite (bind_raise _ _ _ _ _ Hp). split; [done|].
    intros _ Hall. rewrite (kept_frealloc _ _ _ Hk1), Hall in Hz. done.
  - rewrite (bind_undefined _ _ _ Hp). split; [done|].
    intros Hfit _. pose proof size_mod_half. pose proof size_half_pos. lia.
  - rewrite (bind_ok _ _ _ _ _ Hp). split; [|eauto].
    intros rets L' [= <- <-]. exists d. split; [done|].
    split; [apply fresh_heap|]. split; [done|].
    split; [by eapply bufflib_tostring_ok|].
    split.
    + apply (bufflib_tostring_ok L2 a1 B1).
      * by rewrite (kept_buffer _ _ _ Hk2).
      * by rewrite (contents_kept d L1 L2).
    + apply (bufflib_tostring_ok L2 a2 B2).
      * by rewrite (kept_buffer _ _ _ Hk2).
      * by rewrite (contents_kept d L1 L2).
Qed.

(** X12. [concat] of a value that is no Buffer and a Buffer, in that order,
    appends the value's display-string form to the Buffer's content and
    returns that Buffer: the left operand ends up at the end.  When the call
    raises, the state is as it was.  It does return when the result takes at
    most half the [size_t] range and the allocator serves every request. *)
Theorem concat_value_buffer_appends L a c v d :
  wf_state L → bufflib_tostring [VUserdata a] L = Ok [VString c] L →
  is_buffer_value L (Some v) = false → display L (Some v) = Some d →
  (∀ rets L', bufflib_concat [v; VUserdata a] L = Ok rets L' →
     rets = [VUserdata a] ∧ wf_state L' ∧
     bufflib_tostring [VUserdata a] L' = Ok [VString (c ++ d)] L') ∧
  (∀ e L', bufflib_concat [v; VUserdata a] L = Raise e L' → L' = L) ∧
  (blen c + blen d <= size_half → (∀ h z, frealloc L h z = true) →
     ∃ rets L', bufflib_concat [v; VUserdata a] L = Ok rets L').
Proof.
  intros Hwf (B & HB & Hc)%bufflib_tostring_inv Hv Hd.
  set (args := [v; VUserdata a]).
  assert (Heq : bufflib_concat args L = (addlstring a d;; pushbuffer args 2) L).
  { unfold bufflib_concat.
    rewrite (bind_ok _ _ _ _ _ (isbuffer_ok args 1 L)).
    rewrite (bind_ok _ _ _ _ _ (isbuffer_ok args 2 L)).
    change (index2value args 1) with (Some v). rewrite Hv. cbn [andb].
    assert (Ht : tolstring args 1 L = Ok d L).
    { rewrite tolstring_display. change (index2value args 1) with (Some v).
      by rewrite Hd. }
    rewrite bind_assoc.
    rewrite (bind_ok _ _ _ _ _ (getbuffer_ok args 2 L a B eq_refl HB)).
    rewrite bind_assoc.
    by rewrite (bind_ok _ _ _ _ _ Ht). }
  rewrite Heq. pose proof (contents_blen _ _ _ _ Hwf HB Hc) as Hlen.
  destruct (addlstring_cases L a B c d Hwf HB Hc)
    as [[Hp Hbig]|[[Hp Hz]|(L2 & B2 & Hp & HB2 & Hn2 & Hc2 & Hwf2 & Hk2)]].
  - rewrite (bind_raise _ _ _ _ _ Hp). split; [done|]. split; [by intros e L' [= _ <-]|].
    intros Hfit _. lia.
  - rewrite (bind_raise _ _ _ _ _ Hp). split; [done|]. split; [by intros e L' [= _ <-]|].
    intros _ Hall. rewrite Hall in Hz. done.
  - rewrite (bind_ok _ _ _ _ _ Hp).
    rewrite (pushbuffer_ok args 2 (VUserdata a) L2 eq_refl).
    split; [|split; [done|eauto]].
    intros rets L' [= <- <-]. split; [done|]. split; [done|].
    by eapply bufflib_tostring_ok.
Qed.

(** ** Buffers that are not passed to a call *)

(** The Buffers that are not among [args] are as they were. *)
Definition untouched (args : list value) (L L' : lua_State) : Prop :=
  ∀ y, is_Some (buffer L y) → VUserdata y ∉ args →
       buffer L' y = buffer L y ∧ contents L' y = contents L y.

Lemma untouched_refl args L : untouched args L L.
Proof. by intros y _ _. Qed.

Lemma untouched_kept args a L L' :
  kept a L L' → VUserdata a ∈ args ∨ buffer L a = None → untouched args L L'.
Proof.
  intros Hk Ha y [By Hy] Hnot.
  assert (y ≠ a).
  { intros ->. destruct Ha as [Ha|Ha]; [done|congruence]. }
  split; [by apply (kept_buffer _ _ _ Hk)|by eapply contents_kept].
Qed.

Lemma untouched_views args L L' :
  (∀ y, buffer L' y = buffer L y) →
  (∀ y B1, buffer L y = Some B1 → block_of (b B1) L' = block_of (b B1) L) →
  untouched args L L'.
Proof.
  intros Hbuf Hblk y [By Hy] _. split; [done|].
  rewrite !contents_unfold, Hbuf, Hy. by rewrite (Hblk y By Hy).
Qed.

Lemma untouched_same_heap args L L' : heap L' = heap L → untouched args L L'.
Proof.
  intros Hh. apply untouched_views.
  - intros y. unfold buffer. by rewrite Hh.
  - intros y B1 _. apply block_of_heap. intros. by rewrite Hh.
Qed.

Lemma index2value_elem stack i v : index2value stack i = Some v → v ∈ stack.
Proof.
  unfold index2value. destruct (1 <=? i); [|done]. apply list_elem_of_lookup_2.
Qed.

Lemma bufflib_addsep_untouched args L :
  wf_state L →
  wp True (bufflib_addsep args) L (λ _, untouched args L) (λ _ _, True).
Proof.
  intros Hwf. unfold bufflib_addsep. apply wp_bind.
  destruct (getbuffer_cases args 1 L) as [(a & B & Hi & HB & Hg)|[Hg _]];
    [|by eapply wp_raise].
  eapply wp_ok; [done|].
  destruct (contents_wf _ _ _ Hwf HB) as (bs & _ & _ & Hc).
  assert (Hne : args ≠ []) by (by destruct args).
  destruct (index2value_top args Hne) as [vlast Hlast].
  apply wp_bind.
  eapply wp_mono;
    [eapply (addsepstrings_spec a args
               (take (Z.to_nat (lua_gettop args - 3)) (drop 2 args)) vlast L B);
     try done| | |done].
  - rewrite length_take, length_drop. unfold lua_gettop. lia.
  - intros j Hj. rewrite lookup_take_lt by (rewrite length_take in Hj; lia).
    apply (index2value_from args 2 j).
  - intros _ L' (Hwf' & Hk & HB' & _).
    eapply wp_ok; [by apply pushbuffer_ok|].
    eapply untouched_kept; [done|]. left. by eapply index2value_elem.
  - done.
Qed.

Lemma bufflib_concat_untouched args L :
  wf_state L →
  wp True (bufflib_concat args) L (λ _, untouched args L) (λ _ _, True).
Proof.
  intros Hwf.
  destruct (is_buffer_value L (index2value args 1)) eqn:H1.
  - destruct (bufflib_concat_first args L Hwf H1) as (L1 & Hk1 & Ha & Hwp).
    eapply wp_mono; [exact Hwp| |done|done].
    intros rets L' (_ & _ & Hk & _). eapply untouched_kept; [done|by right].
  - destruct (getbuffer_cases args 2 L) as [(a & B & Hi & HB & Hg)|[Hg _]].
    + destruct (contents_wf _ _ _ Hwf HB) as (bs & _ & _ & Hc).
      eapply wp_mono; [by eapply bufflib_concat_second| |done|done].
      intros rets L' (_ & _ & Hk & _). eapply untouched_kept; [done|].
      left. by eapply index2value_elem.
    + unfold bufflib_concat.
      apply wp_bind. eapply wp_ok; [apply isbuffer_ok|].
      apply wp_bind. eapply wp_ok; [apply isbuffer_ok|].
      rewrite H1. cbn [andb]. apply wp_bind. apply wp_bind.
      by eapply wp_raise.
Qed.

Lemma bufflib_index_untouched args L :
  wp True (bufflib_index args) L (λ _, untouched args L) (λ _ _, True).
Proof.
  destruct (luaL_checkstring_state args 2 L) as [[key Hkey]|Hkey].
  2:{ unfold bufflib_index. apply wp_bind. by eapply wp_raise. }
  destruct args as [|[] [|kv []]];
    try (unfold bufflib_index; apply wp_bind; (eapply wp_ok; [done|]); done).
  destruct (buffer L a) as [B|] eqn:HB.
  2:{ unfold bufflib_index. apply wp_bind. eapply wp_ok; [done|].
      apply wp_bind. unfold wp, getB. unfold buffer in HB.
      by destruct (heap L !! a) as [[]|]. }
  unfold wp. rewrite (bufflib_index_eq L a B kv key HB Hkey). cbv zeta.
  destruct (negb (lua_isnil _)); [by apply untouched_refl|].
  destruct (negb (String.prefix _ _)); [by apply untouched_refl|].
  destruct (global_string L) as [strtab|]; [|by apply untouched_refl].
  destruct (negb (lua_isfunction _)); [by apply untouched_refl|].
  destruct (closure_views L (fresh (dom (heap L))) f_stringop
              (lua_getfield strtab (string_skip STRINGPREFIXLEN key)) (fresh_heap L))
    as [Hbuf Hblk].
  destruct (loaded_bufflib L); [|done].
  by apply untouched_views.
Qed.

(** X13. A call of a library function changes no Buffer other than the ones
    passed to it: a Buffer that is not among the arguments has the same
    record and the same content after the call. *)
Theorem other_buffers_untouched f args L rets L' y :
  wf_state L → call f args L = Ok rets L' →
  is_Some (buffer L y) → VUserdata y ∉ args →
  buffer L' y = buffer L y ∧ contents L' y = contents L y.
Proof.
  intros Hwf Hcall. revert y. change (untouched args L L').
  destruct f; simpl in Hcall.
  - pose proof (bufflib_concat_untouched args L Hwf) as Hwp.
    unfold wp in Hwp. by rewrite Hcall in Hwp.
  - pose proof (bufflib_equal_state args L) as Hs. rewrite Hcall in Hs.
    subst. apply untouched_refl.
  - pose proof (bufflib_len_state args L) as Hs. rewrite Hcall in Hs.
    subst. apply untouched_refl.
  - destruct (bufflib_tostring_cases args L)
      as [(a & B & c & _ & _ & _ & Hr)|[[e Hr]|Hr]]; rewrite Hr in Hcall; try done.
    injection Hcall as _ <-. apply untouched_refl.
  - unfold bufflib_gc in Hcall.
    destruct (getbuffer_cases args 1 L) as [(a & B & Hi & HB & Hg)|[Hg _]].
    + rewrite (bind_ok _ _ _ _ _ Hg) in Hcall.
      destruct (buff_unref_state L a B HB) as (L1 & Hun & Hh1 & _).
      rewrite (bind_ok _ _ _ _ _ Hun) in Hcall. injection Hcall as _ <-.
      by apply untouched_same_heap.
    + by rewrite (bind_raise _ _ _ _ _ Hg) in Hcall.
  - destruct (getbuffer_cases args 1 L) as [(a & B & Hi & HB & Hg)|[Hg _]].
    + pose proof (index2value_elem _ _ _ Hi) as Hin.
      rewrite index2value_1 in Hi. destruct args as [|v vs]; simplify_eq/=.
      destruct (contents_wf _ _ _ Hwf HB) as (bs & _ & _ & Hc).
      pose proof (bufflib_add_spec L a B _ vs Hwf HB Hc) as Hwp.
      unfold wp in Hwp. rewrite Hcall in Hwp. destruct Hwp as (_ & _ & Hk & _).
      eapply untouched_kept; [done|by left].
    + unfold bufflib_add in Hcall. by rewrite (bind_raise _ _ _ _ _ Hg) in Hcall.
  - pose proof (bufflib_addsep_untouched args L Hwf) as Hwp.
    unfold wp in Hwp. by rewrite Hcall in Hwp.
  - destruct (getbuffer_cases args 1 L) as [(a & B & Hi & HB & Hg)|[Hg _]].
    + pose proof (index2value_elem _ _ _ Hi) as Hin.
      rewrite index2value_1 in Hi. destruct args as [|v vs]; simplify_eq/=.
      destruct (bufflib_reset_spec L a B vs Hwf HB) as (L1 & Hr & _ & Hk & _).
      rewrite Hr in Hcall. injection Hcall as _ <-.
      eapply untouched_kept; [done|by left].
    + unfold bufflib_reset in Hcall. by rewrite (bind_raise _ _ _ _ _ Hg) in Hcall.
  - pose proof (bufflib_newbuffer_spec args L Hwf) as Hwp.
    unfold wp in Hwp. rewrite Hcall in Hwp. destruct Hwp as (_ & Ha & _ & Hk & _).
    eapply untouched_kept; [done|by right].
  - unfold bufflib_isbuffer, mbind, M_bind in Hcall. rewrite isbuffer_ok in Hcall.
    injection Hcall as _ <-. apply untouched_refl.
  - pose proof (bufflib_index_untouched args L) as Hwp.
    unfold wp in Hwp. by rewrite Hcall in Hwp.
  - done.
Qed.

(** ** Loading the library: [luaopen_bufflib] *)

Lemma prefixed_inj k1 k2 :
  (STRINGPREFIX +:+ k1 = STRINGPREFIX +:+ k2)%string → k1 = k2.
Proof.
  intros H. cbv [STRINGPREFIX String.append] in H. by injection H.
Qed.

(** A Lua string that holds no zero byte: the C string read from it is the
    string itself. *)
Definition is_c_string (k : string) : Prop :=
  c_str (String.list_byte_of_string k) = k.

Lemma prefixed_c_string k :
  is_c_string k → prefixed_key k = (STRINGPREFIX +:+ k)%string.
Proof.
  unfold is_c_string, prefixed_key, c_str. intros Hk.
  cbv [STRINGPREFIX String.append].
  rewrite <- Hk at 2. reflexivity.
Qed.

Lemma lua_setfield_insert t k v :
  lua_isnil v = false → lua_setfield t k v = <[k := v]> t.
Proof. unfold lua_setfield. by intros ->. Qed.

Lemma luaL_setfuncs_cons k f l t :
  luaL_setfuncs ((k, f) :: l) t = luaL_setfuncs l (<[k := VCFunction f]> t).
Proof. done. Qed.

Lemma luaL_setfuncs_other l : ∀ t k,
  k ∉ l.*1 → luaL_setfuncs l t !! k = t !! k.
Proof.
  induction l as [|[k0 f0] l IH]; intros t k Hk; [done|].
  rewrite fmap_cons in Hk. apply not_elem_of_cons in Hk as [Hne Hk].
  rewrite luaL_setfuncs_cons, IH by done. by rewrite lookup_insert_ne.
Qed.

Lemma luaL_setfuncs_in l : ∀ t k f,
  NoDup l.*1 → (k, f) ∈ l → luaL_setfuncs l t !! k = Some (VCFunction f).
Proof.
  induction l as [|[k0 f0] l IH]; intros t k f Hnd Hin.
  - by apply elem_of_nil in Hin.
  - rewrite fmap_cons in Hnd. apply NoDup_cons in Hnd as [Hk0 Hnd].
    rewrite luaL_setfuncs_cons.
    apply elem_of_cons in Hin as [[= -> ->]|Hin].
    + rewrite luaL_setfuncs_other by done. apply lookup_insert_eq.
    + by apply IH.
Qed.

(** The loop of [luaopen_bufflib] over the pairs of the string table, when
    the names of its functions hold no zero byte. *)
Lemma luaopen_loop_spec pairs : ∀ L lib,
  loaded_bufflib L = Some lib → NoDup pairs.*1 →
  (∀ k v, (k, v) ∈ pairs → lua_isfunction v = true → is_c_string k) →
  ∃ L' lib', luaopen_loop pairs L = Ok tt L' ∧ loaded_bufflib L' = Some lib' ∧
    registry L' = registry L ∧ global_string L' = global_string L ∧
    frealloc L' = frealloc L ∧
    (∀ z o, heap L !! z = Some o → heap L' !! z = Some o) ∧
    (∀ z, heap L !! z = None →
          heap L' !! z = None ∨ ∃ v, heap L' !! z = Some (OClosure f_stringop v)) ∧
    (∀ key, (∀ k v, (k, v) ∈ pairs → lua_isfunction v = true →
                    key ≠ (STRINGPREFIX +:+ k)%string) →
            metatable L' !! key = metatable L !! key ∧ lib' !! key = lib !! key) ∧
    (∀ k v, (k, v) ∈ pairs → lua_isfunction v = true →
       ∃ x, heap L !! x = None ∧ heap L' !! x = Some (OClosure f_stringop v) ∧
            metatable L' !! (STRINGPREFIX +:+ k)%string = Some (VClosure x) ∧
            lib' !! (STRINGPREFIX +:+ k)%string = Some (VClosure x)).
Proof.
  induction pairs as [|[k v] rest IH]; intros L lib Hlib Hnd Hkeys.
  - exists L, lib. split; [done|]. do 4 (split; [done|]).
    split; [done|]. split; [by left|]. split; [done|].
    intros k v Hin. by apply elem_of_nil in Hin.
  - rewrite fmap_cons in Hnd. apply NoDup_cons in Hnd as [Hk Hnd].
    assert (Hkeys' : ∀ k' v', (k', v') ∈ rest → lua_isfunction v' = true →
                              is_c_string k').
    { intros k' v' Hin. apply Hkeys. by apply elem_of_cons; right. }
    simpl luaopen_loop.
    destruct (lua_isfunction v) eqn:Hv; simpl negb; cbv iota.
    + rewrite (prefixed_c_string k)
        by (apply (Hkeys k v); [by apply elem_of_cons; left|done]).
      set (x := fresh (dom (heap L))).
      set (newkey := (STRINGPREFIX +:+ k)%string).
      set (L1 := set_loaded_bufflib (lua_setfield lib newkey (VClosure x))
                   (set_metatable (lua_setfield (metatable L) newkey (VClosure x))
                      (set_heap <[x := OClosure f_stringop v]> L))).
      assert (Hstep : ∀ (g : unit → M unit),
                ((closure ← lua_pushcclosure f_stringop v;
                  L0 ← get_state;
                  modify_state (set_metatable (lua_setfield (metatable L0) newkey closure));;
                  match loaded_bufflib L0 with
                  | Some lib0 =>
                      modify_state (set_loaded_bufflib (lua_setfield lib0 newkey closure))
                  | None => undefined
                  end) ≫= g) L = g tt L1).
      { intros g. unfold mbind, M_bind, lua_pushcclosure, get_state, modify_state.
        simpl. by rewrite Hlib. }
      rewrite Hstep.
      assert (Hx : heap L !! x = None) by apply fresh_heap.
      destruct (IH L1 (lua_setfield lib newkey (VClosure x)) eq_refl Hnd Hkeys')
        as (L' & lib' & Hrun & Hlib' & Hreg & Hstr & Hfr & Hmono & Hnew & Hkeep & Hadd).
      exists L', lib'. split; [done|]. split; [done|].
      do 3 (split; [done|]).
      assert (Hfresh_key : ∀ k' v', (k', v') ∈ rest → newkey ≠ (STRINGPREFIX +:+ k')%string).
      { intros k' v' Hin E. apply prefixed_inj in E as <-.
        apply Hk. apply list_elem_of_fmap. by exists (k, v'). }
      split; [|split; [|split]].
      * intros z o Hz. apply Hmono. simpl.
        rewrite lookup_insert_ne; [done|]. intros <-. congruence.
      * intros z Hz. destruct (decide (z = x)) as [->|Hne].
        -- right. exists v. apply Hmono. simpl. apply lookup_insert_eq.
        -- apply Hnew. simpl. by rewrite lookup_insert_ne.
      * intros key Hkey.
        destruct (Hkeep key) as [Hm Hl].
        { intros k' v' Hin. apply Hkey. by apply elem_of_cons; right. }
        assert (key ≠ newkey) by (apply (Hkey k v); [by apply elem_of_cons; left|done]).
        rewrite Hm, Hl. simpl. unfold lua_setfield. simpl.
        by rewrite !lookup_insert_ne.
      * intros k' v' Hin Hv'. apply elem_of_cons in Hin as [[= -> ->]|Hin].
        -- exists x. split; [done|]. split.
           { apply Hmono. simpl. apply lookup_insert_eq. }
           destruct (Hkeep newkey) as [Hm Hl].
           { intros k' v' Hin _. by eapply Hfresh_key. }
           fold newkey. rewrite Hm, Hl. simpl. unfold lua_setfield. simpl.
           by rewrite !lookup_insert_eq.
        -- destruct (Hadd k' v' Hin Hv') as (x' & Hx' & Hh' & Hm' & Hl').
           exists x'. split; [|done]. simpl in Hx'.
           destruct (decide (x' = x)) as [->|Hne]; [done|].
           by rewrite lookup_insert_ne in Hx'.
    + assert (Hstep : ∀ (g : unit → M unit), (mret tt ≫= g) L = g tt L) by done.
      rewrite Hstep.
      destruct (IH L lib Hlib Hnd Hkeys')
        as (L' & lib' & Hrun & Hlib' & Hreg & Hstr & Hfr & Hmono & Hnew & Hkeep & Hadd).
      exists L', lib'. do 7 (split; [done|]). split.
      * intros key Hkey. apply Hkeep. intros k' v' Hin. apply Hkey.
        by apply elem_of_cons; right.
      * intros k' v' Hin Hv'. apply elem_of_cons in Hin as [[= -> ->]|Hin]; [congruence|].
        by apply Hadd.
Qed.

Lemma string_function_lookup L name f :
  string_function L name = Some f →
  ∃ strtab, global_string L = Some strtab ∧ strtab !! name = Some f ∧
            lua_isfunction f = true.
Proof.
  unfold string_function, lua_getfield.
  destruct (global_string L) as [strtab|]; [|done].
  destruct (strtab !! name) as [v|] eqn:Hv; simpl; [|done].
  destruct (lua_isfunction v) eqn:Hf; [|done]. intros [= <-]. eauto.
Qed.

Lemma string_function_of_lookup L strtab name f :
  global_string L = Some strtab → strtab !! name = Some f →
  lua_isfunction f = true → string_function L name = Some f.
Proof.
  intros Hs Hn Hf. unfold string_function, lua_getfield. rewrite Hs, Hn. simpl.
  by rewrite Hf.
Qed.

Lemma metareg_names : NoDup metareg.*1 ∧
  ∀ k, k ∈ metareg.*1 → String.prefix STRINGPREFIX k = false ∧ k ≠ "__index"%string.
Proof.
  split; [by apply (bool_decide_unpack _)|].
  intros k Hk. unfold metareg in Hk. rewrite !fmap_cons in Hk.
  repeat (apply elem_of_cons in Hk as [->|Hk]; [done|]).
  by apply elem_of_nil in Hk.
Qed.

Lemma libreg_names : NoDup libreg.*1 ∧
  ∀ k, k ∈ libreg.*1 → String.prefix STRINGPREFIX k = false ∧ k ≠ "buffersize"%string.
Proof.
  split; [by apply (bool_decide_unpack _)|].
  intros k Hk. unfold libreg in Hk. rewrite !fmap_cons in Hk.
  repeat (apply elem_of_cons in Hk as [->|Hk]; [done|]).
  by apply elem_of_nil in Hk.
Qed.

(** X14. [luaopen_bufflib] returns when [_G.string] is a table or nil, the
    names of the functions in it hold no zero byte, and (under Lua 5.1, when
    [_LOADED.bufflib] is no table) the global [bufflib] is nil or a table.
    Afterwards the metatable holds the eight functions of [metareg] and
    [bufflib_index] under [__index]; the library table holds the nine
    functions of [libreg] and [buffersize]; and for each function [f] the
    string table binds to a name, both tables hold under [s_] followed by
    that name one and the same new closure of [bufflib_stringop] over [f].
    What the metatable held under other names it still holds; the registry,
    the string table and the Buffers are as they were. *)
Theorem luaopen_registers L :
  (global_string L = None → string_isnil L = true) →
  (LUA_VERSION_NUM < 502 → loaded_bufflib L = None → global_bufflib L ≠ GOther) →
  (∀ name f, string_function L name = Some f → is_c_string name) →
  ∃ L' lib, luaopen_bufflib L = Ok tt L' ∧ loaded_bufflib L' = Some lib ∧
    (∀ k f, (k, f) ∈ metareg → metatable L' !! k = Some (VCFunction f)) ∧
    metatable L' !! "__index"%string = Some (VCFunction f_index) ∧
    (∀ k f, (k, f) ∈ libreg → lib !! k = Some (VCFunction f)) ∧
    lib !! "buffersize"%string = Some (VNumber (integer_tonumber LUAL_BUFFERSIZE)) ∧
    (∀ name f, string_function L name = Some f →
       ∃ x, heap L !! x = None ∧ heap L' !! x = Some (OClosure f_stringop f) ∧
            metatable L' !! (STRINGPREFIX +:+ name)%string = Some (VClosure x) ∧
            lib !! (STRINGPREFIX +:+ name)%string = Some (VClosure x)) ∧
    (∀ key, key ∉ metareg.*1 → key ≠ "__index"%string →
            String.prefix STRINGPREFIX key = false →
            metatable L' !! key = metatable L !! key) ∧
    registry L' = registry L ∧ global_string L' = global_string L ∧
    (∀ y, buffer L' y = buffer L y).
Proof.
  intros Hstring Hglobal Hnames.
  destruct metareg_names as [Hmnd Hmnames]. destruct libreg_names as [Hlnd Hlnames].
  set (mt := lua_setfield (luaL_setfuncs metareg (metatable L)) "__index"
               (VCFunction f_index)).
  assert (Hnew : ∃ t0, luaL_newlib_table (set_metatable mt L) = Ok t0 (set_metatable mt L)).
  { unfold luaL_newlib_table. destruct (LUA_VERSION_NUM <? 502) eqn:Hv; [|eauto].
    apply Z.ltb_lt in Hv. simpl loaded_bufflib. simpl global_bufflib.
    destruct (loaded_bufflib L) as [t|] eqn:Hl; [eauto|].
    specialize (Hglobal Hv eq_refl). destruct (global_bufflib L); [eauto..|done]. }
  destruct Hnew as [t0 Hnew].
  set (lib := lua_setfield (luaL_setfuncs libreg t0) "buffersize"
                (VNumber (integer_tonumber LUAL_BUFFERSIZE))).
  set (L0 := set_loaded_bufflib lib (set_metatable mt L)).
  assert (Hmeta : ∀ k f, (k, f) ∈ metareg → mt !! k = Some (VCFunction f)).
  { intros k f Hin. unfold mt. rewrite lua_setfield_insert by done.
    assert (Hk : k ∈ metareg.*1) by (apply list_elem_of_fmap; by exists (k, f)).
    rewrite lookup_insert_ne by (intros <-; by destruct (Hmnames _ Hk)).
    by apply luaL_setfuncs_in. }
  assert (Hindex : mt !! "__index"%string = Some (VCFunction f_index))
    by apply lookup_insert_eq.
  assert (Hlibreg : ∀ k f, (k, f) ∈ libreg → lib !! k = Some (VCFunction f)).
  { intros k f Hin. unfold lib. rewrite lua_setfield_insert by done.
    assert (Hk : k ∈ libreg.*1) by (apply list_elem_of_fmap; by exists (k, f)).
    rewrite lookup_insert_ne by (intros <-; by destruct (Hlnames _ Hk)).
    by apply luaL_setfuncs_in. }
  assert (Hsize : lib !! "buffersize"%string
                  = Some (VNumber (integer_tonumber LUAL_BUFFERSIZE)))
    by apply lookup_insert_eq.
  assert (Hother : ∀ key, key ∉ metareg.*1 → key ≠ "__index"%string →
                          mt !! key = metatable L !! key).
  { intros key Hk Hi. unfold mt. rewrite lua_setfield_insert by done.
    rewrite lookup_insert_ne by done. by apply luaL_setfuncs_other. }
  assert (Hrun : luaopen_bufflib L =
                 match global_string L with
                 | Some strtab => luaopen_loop (map_to_list strtab) L0
                 | None => if string_isnil L then Ok tt L0 else Undefined
                 end).
  { unfold luaopen_bufflib.
    unfold mbind at 1. unfold M_bind at 1. unfold get_state at 1.
    fold mt. cbv zeta.
    unfold mbind at 1. unfold M_bind at 1. unfold modify_state at 1.
    unfold mbind at 1. unfold M_bind at 1. rewrite Hnew. fold lib.
    unfold mbind, M_bind, modify_state, get_state. fold L0.
    change (global_string L0) with (global_string L).
    change (string_isnil L0) with (string_isnil L).
    destruct (global_string L); [done|]. by destruct (string_isnil L). }
  rewrite Hrun.
  destruct (global_string L) as [strtab|] eqn:Hstr.
  - destruct (luaopen_loop_spec (map_to_list strtab) L0 lib eq_refl
                (NoDup_fst_map_to_list strtab))
      as (L' & lib' & Hloop & Hlib' & Hreg & Hstr' & Hfr & Hmono & Hfresh & Hkeep & Hadd).
    { intros k v Hin%elem_of_map_to_list Hf. apply (Hnames k v).
      by eapply string_function_of_lookup. }
    exists L', lib'. split; [done|]. split; [done|].
    assert (Hplain : ∀ key, String.prefix STRINGPREFIX key = false →
              metatable L' !! key = mt !! key ∧ lib' !! key = lib !! key).
    { intros key Hkey. apply Hkeep. intros k v _ _ ->.
      by rewrite (proj1 (prefix_append k)) in Hkey. }
    split; [|split; [|split; [|split; [|split; [|split; [|split; [|split]]]]]]].
    + intros k f Hin.
      assert (Hk : k ∈ metareg.*1) by (apply list_elem_of_fmap; by exists (k, f)).
      rewrite (proj1 (Hplain k (proj1 (Hmnames _ Hk)))). by apply Hmeta.
    + by rewrite (proj1 (Hplain "__index"%string eq_refl)).
    + intros k f Hin.
      assert (Hk : k ∈ libreg.*1) by (apply list_elem_of_fmap; by exists (k, f)).
      rewrite (proj2 (Hplain k (proj1 (Hlnames _ Hk)))). by apply Hlibreg.
    + by rewrite (proj2 (Hplain "buffersize"%string eq_refl)).
    + intros name f (strtab' & Hs & Hname & Hf)%string_function_lookup.
      rewrite Hstr in Hs. injection Hs as <-.
      apply (Hadd name f); [|done]. by apply elem_of_map_to_list.
    + intros key Hk Hi Hp. rewrite (proj1 (Hplain key Hp)). by apply Hother.
    + done.
    + rewrite Hstr'. exact Hstr.
    + intros y. unfold buffer.
      destruct (heap L !! y) as [o|] eqn:Hy.
      * by rewrite (Hmono y o Hy).
      * destruct (Hfresh y Hy) as [->|[v ->]]; done.
  - rewrite (Hstring eq_refl). exists L0, lib. split; [done|]. split; [done|].
    do 4 (split; [done|]). split; [|split; [|done]].
    + intros name f (strtab' & Hs & _)%string_function_lookup. congruence.
    + intros key Hk Hi _. by apply Hother.
Qed.

(** ** An [add] that fails *)

(** The loop of [addstrings] when it raises: the values before the one that
    could not be added have been added, and the round that raised left the
    state as it found it. *)
Lemma addstrings_loop_failure a stack vs : ∀ i L B c,
  wf_state L → buffer L a = Some B → contents L a = Some c →
  (∀ j, (j < length vs)%nat → index2value stack (i + Z.of_nat j) = vs !! j) →
  wp False (addstrings_loop a stack i (length vs)) L
    (λ _ _, True)
    (λ e L', ∃ k d, display_forms L a c [] vs !! k = Some d ∧
             wf_state L' ∧ kept a L L' ∧ is_Some (buffer L' a) ∧
             contents L' a = Some (c ++ mjoin (take k (display_forms L a c [] vs))) ∧
             addlstring a d L' = Raise e L').
Proof.
  induction vs as [|v vs IH]; intros i L B c Hwf HB Hc Hstack.
  - simpl. by apply wp_ret.
  - simpl addstrings_loop. simpl display_forms.
    set (d := display_as L a c v).
    assert (Hv : index2value stack i = Some v).
    { specialize (Hstack 0%nat). simpl in Hstack. rewrite Z.add_0_r in Hstack.
      apply Hstack. lia. }
    apply wp_bind. eapply wp_ok; [by eapply tolstring_display_as|]. fold d.
    apply wp_bind.
    destruct (addlstring_cases L a B c d Hwf HB Hc)
      as [[Hp ?]|[[Hp ?]|(L1 & B1 & Hp & HB1 & Hn1 & Hc1 & Hwf1 & Hk1)]].
    + eapply wp_raise; [done|]. exists 0%nat, d. split; [done|].
      split; [done|]. split; [apply kept_refl|].
      split; [eauto|]. split; [|done]. by rewrite take_0, app_nil_r.
    + eapply wp_raise; [done|]. exists 0%nat, d. split; [done|].
      split; [done|]. split; [apply kept_refl|].
      split; [eauto|]. split; [|done]. by rewrite take_0, app_nil_r.
    + eapply wp_ok; [done|].
      eapply wp_mono; [eapply (IH (i + 1) L1 B1 (c ++ d)); try done|done| |done].
      * intros j Hj. specialize (Hstack (S j)). simpl in Hstack.
        rewrite <- Hstack by lia. f_equal. lia.
      * intros e L2 (k & d' & Hd' & Hwf2 & Hk2 & HB2 & Hc2 & Hagain).
        rewrite (display_forms_kept a L L1) in * by done.
        rewrite app_nil_r in *.
        exists (S k), d'. split; [done|]. split; [done|].
        split; [by eapply kept_trans|]. split; [done|]. split; [|done].
        rewrite Hc2. rewrite firstn_cons, mjoin_cons. by rewrite <- app_assoc.
Qed.

(** [buf:add(d)] for a string [d] is one round of the loop. *)
Lemma bufflib_add_string_raise L a B d e L' :
  buffer L a = Some B → addlstring a d L = Raise e L' →
  bufflib_add [VUserdata a; VString d] L = Raise e L'.
Proof.
  intros HB Hadd. unfold bufflib_add.
  rewrite (bind_ok _ _ _ _ _ (getbuffer_ok [VUserdata a; VString d] 1 L a B eq_refl HB)).
  apply bind_raise. unfold addstrings, lua_gettop. simpl addstrings_loop.
  assert (Hd : tolstring [VUserdata a; VString d] 2 L = Ok d L) by done.
  rewrite (bind_ok _ _ _ _ _ Hd). by apply bind_raise.
Qed.

(** X15. When [add] raises because the store could not be grown (the
    result would be too large, or the allocator refused), the call is not
    undone.  There is a position [k] among the values such that the Buffer
    holds its former content followed by the forms of the [k] values before
    it, in call order, and the value at [k] is the one that could not be
    added: in the state the call leaves, in which the allocator answers as
    it did, adding the form of that value to the Buffer raises the same
    error and changes nothing. *)
Theorem add_failure_keeps_prefix L a c vs e L' :
  wf_state L → bufflib_tostring [VUserdata a] L = Ok [VString c] L →
  bufflib_add (VUserdata a :: vs) L = Raise e L' →
  e = BufferTooLarge ∨ e = MemoryError →
  ∃ k d, display_forms L a c [] vs !! k = Some d ∧
    wf_state L' ∧
    bufflib_tostring [VUserdata a] L' =
      Ok [VString (c ++ mjoin (take k (display_forms L a c [] vs)))] L' ∧
    bufflib_add [VUserdata a; VString d] L' = Raise e L'.
Proof.
  intros Hwf (B & HB & Hc)%bufflib_tostring_inv Hraise _.
  unfold bufflib_add in Hraise.
  rewrite (bind_ok _ _ _ _ _ (getbuffer_ok (VUserdata a :: vs) 1 L a B eq_refl HB))
    in Hraise.
  unfold addstrings, lua_gettop in Hraise.
  replace (Z.to_nat (Z.of_nat (length (VUserdata a :: vs)) - 0 + 1 - 2))
    with (length vs) in Hraise by (simpl; lia).
  pose proof (addstrings_loop_failure a (VUserdata a :: vs) vs 2 L B c Hwf HB Hc
                (λ j _, index2value_cons (VUserdata a) vs j)) as Hwp.
  unfold wp in Hwp.
  destruct (addstrings_loop a (VUserdata a :: vs) 2 (length vs) L)
    as [[] L1|e1 L1|] eqn:Hloop; [| |done].
  - rewrite (bind_ok _ _ _ _ _ Hloop) in Hraise.
    by rewrite (pushbuffer_ok (VUserdata a :: vs) 1 (VUserdata a) L1 eq_refl) in Hraise.
  - rewrite (bind_raise _ _ _ _ _ Hloop) in Hraise. injection Hraise as <- <-.
    destruct Hwp as (k & d & Hd & Hwf1 & _ & [B1 HB1] & Hc1 & Hagain).
    exists k, d. split; [done|]. split; [done|].
    split; [by eapply bufflib_tostring_ok|]. by eapply bufflib_add_string_raise.
Qed.

(** ** The registry and the stores *)

(** How the Buffers hold their stores: the inline array goes with no
    reference, and a store in a userdata block is what the registry holds
    under the Buffer's [ref], which keeps the collector from freeing it. *)
Definition anchored (L : lua_State) : Prop :=
  ∀ a B, buffer L a = Some B →
    match b B with
    | InitbOf _ => ref B = LUA_NOREF
    | Udata x => registry L !! ref B = Some x
    end.

(** A step that leaves the registry and the [ref] and [b] fields alone. *)
Definition same_refs (L L' : lua_State) : Prop :=
  registry L' = registry L ∧
  ∀ y B', buffer L' y = Some B' →
          ∃ B, buffer L y = Some B ∧ ref B' = ref B ∧ b B' = b B.

Lemma anchored_same_refs L L' : same_refs L L' → anchored L → anchored L'.
Proof.
  intros [Hreg Hb] Ha y B' HB'. destruct (Hb y B' HB') as (B & HB & Hr & Hbb).
  specialize (Ha y B HB). by rewrite Hr, Hbb, Hreg.
Qed.

Lemma store_same_refs p data L L' : store p data L = Ok tt L' → same_refs L L'.
Proof.
  unfold store. destruct p as [[a0|x] off]; simpl.
  - destruct (heap L !! a0) as [[B0| |]|] eqn:Ha; try done.
    destruct (in_bounds _ _ _); [|done]. intros [= <-]. split; [done|].
    intros y B' HB'. apply buffer_heap in HB'. simpl in HB'.
    destruct (decide (y = a0)) as [->|Hne].
    + rewrite lookup_insert_eq in HB'. injection HB' as <-.
      exists B0. split; [by apply buffer_heap|done].
    + rewrite lookup_insert_ne in HB' by done.
      exists B'. split; [by apply buffer_heap|done].
  - destruct (heap L !! x) as [[|bs|]|] eqn:Hx; try done.
    destruct (in_bounds _ _ _); [|done]. intros [= <-]. split; [done|].
    intros y B' HB'. apply buffer_heap in HB'. simpl in HB'.
    destruct (decide (y = x)) as [->|Hne].
    + by rewrite lookup_insert_eq in HB'.
    + rewrite lookup_insert_ne in HB' by done.
      exists B'. split; [by apply buffer_heap|done].
Qed.

Lemma memcpy_string_same_refs p s k L L' :
  memcpy_string p s k L = Ok tt L' → same_refs L L'.
Proof.
  unfold memcpy_string. destruct (_ && _); [apply store_same_refs|done].
Qed.

Lemma addsize_same_refs a s L L' : addsize a s L = Ok tt L' → same_refs L L'.
Proof.
  unfold addsize, assign, mbind, M_bind, getB, modify_state.
  destruct (heap L !! a) as [[B0| |]|] eqn:Ha; try done.
  rewrite Ha. intros [= <-]. split; [done|].
  intros y B' HB'. apply buffer_heap in HB'. simpl in HB'.
  destruct (decide (y = a)) as [->|Hne].
  - rewrite lookup_insert_eq in HB'. injection HB' as <-.
    exists B0. split; [by apply buffer_heap|done].
  - rewrite lookup_insert_ne in HB' by done.
    exists B'. split; [by apply buffer_heap|done].
Qed.

Lemma next_ref_above (reg : gmap Z addr) k x : reg !! k = Some x → k < next_ref reg.
Proof.
  unfold next_ref. revert k x.
  apply (map_fold_weak_ind (λ acc m, ∀ k x, m !! k = Some x → k < 1 + acc)).
  - intros k x. by rewrite lookup_empty.
  - intros i y m r Hi IH k x Hk. destruct (decide (k = i)) as [->|Hne]; [lia|].
    rewrite lookup_insert_ne in Hk by done. specialize (IH k x Hk). lia.
Qed.

Lemma next_ref_fresh (reg : gmap Z addr) : reg !! next_ref reg = None.
Proof.
  destruct (reg !! next_ref reg) as [x|] eqn:E; [|done].
  apply next_ref_above in E. lia.
Qed.

(** The reference of another Buffer survives [buff_unref]. *)
Lemma unref_other L a B y By xy :
  wf_state L → anchored L → buffer L a = Some B → buffer L y = Some By →
  y ≠ a → b By = Udata xy →
  unref_registry (ref B) (registry L) !! ref By = Some xy.
Proof.
  intros Hwf Ha HB HBy Hne Hxy.
  pose proof (Ha y By HBy) as Hy. rewrite Hxy in Hy.
  unfold unref_registry. destruct (0 <=? ref B) eqn:Hr; [|done].
  rewrite lookup_delete_ne; [done|]. intros E.
  pose proof (Ha a B HB) as Haa. destruct (b B) as [a'|xa] eqn:Hb.
  - rewrite Haa in Hr. done.
  - rewrite E, Hy in Haa. injection Haa as ->.
    apply Hne. by eapply (wf_owner _ Hwf y a).
Qed.

(** The registry and the [ref] field after [prepbuffsize] has grown the
    store. *)
Lemma prepbuffsize_grow_refs L a B sz :
  wf_state L → buffer L a = Some B → 0 <= sz →
  size_sub (size B) (n B) < sz → too_large B sz = false →
  frealloc L (heap L) (candidate B sz) = true →
  let x := fresh (dom (heap L)) in
  let reg1 := unref_registry (ref B) (registry L) in
  ∃ p L' B', prepbuffsize a sz L = Ok p L' ∧ buffer L' a = Some B' ∧
     b B' = Udata x ∧ ref B' = next_ref reg1 ∧
     registry L' = <[next_ref reg1 := x]> reg1.
Proof.
  intros Hwf HB Hsz Hfit Hlarge Halloc x reg1.
  pose proof (wf_range _ Hwf _ _ HB) as [Hn Hs].
  destruct (contents_wf _ _ _ Hwf HB) as (bs & Hbs & Hlen & Hc).
  rewrite size_sub_exact in Hfit by lia.
  destruct (grow_ok sz (n B) (size B)) as [Hg _]; [lia..|].
  specialize (Hg Hlarge). fold (candidate B sz) in Hg. destruct Hg as [Hcand _].
  assert (Hx : heap L !! x = None) by apply fresh_heap.
  assert (Hxa : x ≠ a).
  { intros E. apply buffer_heap in HB. rewrite <- E in HB. congruence. }
  set (P := λ (p : charp) (L' : lua_State), ∃ B',
     buffer L' a = Some B' ∧ b B' = Udata x ∧ ref B' = next_ref reg1 ∧
     registry L' = <[next_ref reg1 := x]> reg1).
  assert (Hwp : wp False (prepbuffsize a sz) L P (λ _ _, False)).
  { unfold prepbuffsize. apply wp_bind. eapply wp_getB; [done|].
    rewrite size_sub_exact by lia. rewrite (proj2 (Z.ltb_lt _ _)) by lia.
    fold (candidate B sz). fold (too_large B sz). rewrite Hlarge.
    apply wp_bind, wp_bind, wp_ret.
    apply wp_bind. eapply wp_ok.
    { unfold lua_newuserdata. rewrite Halloc. reflexivity. }
    fold x.
    apply wp_bind. unfold memcpy. apply wp_bind. eapply wp_ok.
    { unfold load. simpl. rewrite (block_of_insert_fresh _ _ bs) by done.
      rewrite in_bounds_true by lia. reflexivity. }
    simpl. change (Z.to_nat 0) with 0%nat. rewrite drop_0. eapply wp_ok.
    { unfold store. simpl. rewrite lookup_insert_eq.
      rewrite in_bounds_true; [reflexivity|lia|apply blen_nonneg|].
      rewrite blen_take, blen_junk_block by lia. lia. }
    simpl.
    set (L2 := set_heap <[x := OBlock _]> (set_heap <[x := _]> L)).
    assert (HB2 : buffer L2 a = Some B).
    { apply buffer_heap. unfold L2. simpl. rewrite !lookup_insert_ne by done.
      by apply buffer_heap. }
    destruct (buff_unref_state L2 a B HB2) as (L3 & Hun & Hh3 & Ht3 & Hreg3).
    apply wp_bind. eapply wp_ok; [exact Hun|].
    apply wp_bind. eapply wp_ok; [reflexivity|].
    set (L4 := set_registry _ L3).
    assert (HB4 : buffer L4 a = Some B).
    { apply buffer_heap. unfold L4. simpl. rewrite Hh3. by apply buffer_heap. }
    apply wp_bind. eapply wp_assign; [exact HB4|].
    apply wp_bind. eapply wp_assign; [apply buffer_set_heap_eq|].
    eapply wp_assign; [apply buffer_set_heap_eq|].
    apply wp_bind. eapply wp_getB; [apply buffer_set_heap_eq|].
    apply wp_ret. eexists.
    split; [apply buffer_set_heap_eq|]. simpl. split; [done|].
    rewrite Hreg3. unfold L2. simpl. done. }
  apply wp_total_inv in Hwp as (p & L' & Hprep & B' & HB' & Hb' & Hr' & Hreg').
  by exists p, L', B'.
Qed.

Lemma prepbuffsize_anchored L a B sz p L1 :
  wf_state L → anchored L → buffer L a = Some B → 0 <= sz →
  prepbuffsize a sz L = Ok p L1 → anchored L1.
Proof.
  intros Hwf Ha HB Hsz Hp.
  destruct (Z_lt_le_dec (size_sub (size B) (n B)) sz) as [Hfit|Hfit].
  2:{ rewrite (prepbuffsize_fits L a B sz HB Hfit) in Hp. by injection Hp as _ <-. }
  destruct (too_large B sz) eqn:Hlarge.
  { by rewrite (prepbuffsize_too_large L a B sz HB Hfit Hlarge) in Hp. }
  destruct (frealloc L (heap L) (candidate B sz)) eqn:Halloc.
  2:{ by rewrite (prepbuffsize_no_memory L a B sz HB Hfit Hlarge Halloc) in Hp. }
  destruct (prepbuffsize_grow L a B sz Hwf HB Hsz Hfit Hlarge Halloc)
    as (L' & B' & Hp' & HB' & _ & _ & _ & _ & _ & Hk).
  destruct (prepbuffsize_grow_refs L a B sz Hwf HB Hsz Hfit Hlarge Halloc)
    as (p2 & L2 & B2 & Hp2 & HB2 & Hb2 & Hr2 & Hreg2).
  rewrite Hp in Hp', Hp2. injection Hp' as _ <-. injection Hp2 as _ <-.
  intros y By HBy. destruct (decide (y = a)) as [->|Hne].
  - rewrite HB2 in HBy. injection HBy as <-.
    rewrite Hb2, Hreg2, Hr2. apply lookup_insert_eq.
  - rewrite (kept_buffer _ _ _ Hk) in HBy by done.
    pose proof (Ha y By HBy) as Hy.
    destruct (b By) as [a'|xy] eqn:Hby; [done|].
    pose proof (unref_other L a B y By xy Hwf Ha HB HBy Hne Hby) as Hun.
    rewrite Hreg2, lookup_insert_ne; [done|].
    intros E. rewrite <- E, next_ref_fresh in Hun. done.
Qed.

Lemma addlstring_anchored L a s :
  wf_state L → anchored L → is_Some (buffer L a) →
  wp True (addlstring a s) L
    (λ _ L', wf_state L' ∧ anchored L' ∧ is_Some (buffer L' a))
    (λ _ L', L' = L).
Proof.
  intros Hwf Ha [B HB].
  destruct (contents_wf _ _ _ Hwf HB) as (bs & _ & _ & Hc).
  destruct (addlstring_cases L a B _ s Hwf HB Hc)
    as [[Hp _]|[[Hp _]|(L2 & B2 & Hp & HB2 & _ & _ & Hwf2 & _)]].
  - by eapply wp_raise.
  - by eapply wp_raise.
  - eapply wp_ok; [done|]. split; [done|]. split; [|eauto].
    unfold addlstring in Hp.
    apply bind_ok_inv in Hp as (p & L0 & Hprep & Hp).
    apply bind_ok_inv in Hp as ([] & L1 & Hcpy & Hadd).
    eapply anchored_same_refs; [by eapply addsize_same_refs|].
    eapply anchored_same_refs; [by eapply memcpy_string_same_refs|].
    eapply (prepbuffsize_anchored L a B); [done..|apply blen_nonneg|done].
Qed.

Lemma addlstring2_anchored L a s1 s2 :
  wf_state L → anchored L → is_Some (buffer L a) →
  wp True (addlstring2 a s1 s2) L
    (λ _ L', wf_state L' ∧ anchored L' ∧ is_Some (buffer L' a))
    (λ _ L', L' = L).
Proof.
  intros Hwf Ha [B HB].
  destruct (contents_wf _ _ _ Hwf HB) as (bs & _ & _ & Hc).
  destruct (addlstring2_cases L a B _ s1 s2 Hwf HB Hc)
    as [[Hp _]|[[Hp _]|[[Hp _]|(L2 & B2 & Hp & HB2 & _ & _ & Hwf2 & _)]]].
  - by eapply wp_raise.
  - by eapply wp_raise.
  - unfold wp. by rewrite Hp.
  - eapply wp_ok; [done|]. split; [done|]. split; [|eauto].
    unfold addlstring2 in Hp. cbv zeta in Hp.
    apply bind_ok_inv in Hp as (p & L0 & Hprep & Hp).
    apply bind_ok_inv in Hp as ([] & L1 & Hcpy1 & Hp).
    apply bind_ok_inv in Hp as ([] & L3 & Hadd1 & Hp).
    apply bind_ok_inv in Hp as ([] & L4 & Hcpy2 & Hadd2).
    eapply anchored_same_refs; [by eapply addsize_same_refs|].
    eapply anchored_same_refs; [by eapply memcpy_string_same_refs|].
    eapply anchored_same_refs; [by eapply addsize_same_refs|].
    eapply anchored_same_refs; [by eapply memcpy_string_same_refs|].
    eapply (prepbuffsize_anchored L a B); [done..| |done].
    apply size_mod_range.
Qed.

Lemma wp_tolstring {A} stack i L (k : bytes → M A) Q E :
  (∀ s, wp True (k s) L Q E) → wp True (tolstring stack i ≫= k) L Q E.
Proof.
  intros Hk. apply wp_bind. unfold wp at 1. rewrite tolstring_display.
  destruct (display L (index2value stack i)); [apply Hk|done].
Qed.

Lemma wp_pushbuffer stack i L (Q : list value → lua_State → Prop) E :
  (∀ rets, Q rets L) → wp True (pushbuffer stack i) L Q E.
Proof.
  intros HQ. unfold wp, pushbuffer. destruct (index2value stack i); [apply HQ|done].
Qed.

Lemma addstrings_loop_anchored a stack k : ∀ i L,
  wf_state L → anchored L → is_Some (buffer L a) →
  wp True (addstrings_loop a stack i k) L
    (λ _ L', wf_state L' ∧ anchored L' ∧ is_Some (buffer L' a))
    (λ _ L', anchored L').
Proof.
  induction k as [|k IH]; intros i L Hwf Ha HB; simpl.
  - by apply wp_ret.
  - apply wp_tolstring. intros s. apply wp_bind.
    eapply wp_mono; [by apply addlstring_anchored| |by intros e L' ->|done].
    intros _ L1 (Hwf1 & Ha1 & HB1). by apply IH.
Qed.

Lemma addsepstrings_loop_anchored a stack sep k : ∀ i L,
  wf_state L → anchored L → is_Some (buffer L a) →
  wp True (addsepstrings_loop a stack sep i k) L
    (λ _ L', wf_state L' ∧ anchored L' ∧ is_Some (buffer L' a))
    (λ _ L', anchored L').
Proof.
  induction k as [|k IH]; intros i L Hwf Ha HB; simpl.
  - by apply wp_ret.
  - apply wp_tolstring. intros s. apply wp_bind.
    eapply wp_mono; [by apply addlstring2_anchored| |by intros e L' ->|done].
    intros _ L1 (Hwf1 & Ha1 & HB1). by apply IH.
Qed.

Lemma newbuffer_anchored L :
  wf_state L → anchored L →
  wp True newbuffer L
    (λ d L', wf_state L' ∧ anchored L' ∧ is_Some (buffer L' d))
    (λ _ L', L' = L).
Proof.
  intros Hwf Ha.
  destruct (newbuffer_cases L Hwf) as [[Hn _]|(L1 & Hn & Hwf1 & Hk1 & _ & Hd & HBd)].
  { by eapply wp_raise. }
  eapply wp_ok; [done|]. split; [done|]. split; [|eauto].
  assert (Hreg : registry L1 = registry L).
  { unfold newbuffer, mbind, M_bind, lua_newuserdata_Buffer in Hn.
    destruct (frealloc L (heap L) sizeof_Buffer); [|done].
    rewrite (buffinit_ok _ _ _ (buffer_set_heap_eq _ _ _)) in Hn.
    by injection Hn as <-. }
  intros y By HBy. destruct (decide (y = fresh (dom (heap L)))) as [->|Hne].
  - rewrite HBd in HBy. by injection HBy as <-.
  - rewrite (kept_buffer _ _ _ Hk1) in HBy by done.
    rewrite Hreg. exact (Ha y By HBy).
Qed.

Lemma bufflib_reset_anchored L a B rest L' rets :
  wf_state L → anchored L → buffer L a = Some B →
  bufflib_reset (VUserdata a :: rest) L = Ok rets L' → anchored L'.
Proof.
  intros Hwf Ha HB Hcall.
  destruct (bufflib_reset_spec L a B rest Hwf HB) as (L1 & Hr & _ & Hk & _ & HB1).
  assert (Hreg : registry L1 = unref_registry (ref B) (registry L)).
  { unfold bufflib_reset in Hr.
    rewrite (bind_ok _ _ _ _ _ (getbuffer_ok (VUserdata a :: rest) 1 L a B eq_refl HB))
      in Hr.
    destruct (buff_unref_state L a B HB) as (L0 & Hun & Hh0 & _ & Hreg).
    rewrite (bind_ok _ _ _ _ _ Hun) in Hr.
    assert (HB0 : buffer L0 a = Some B) by (unfold buffer; by rewrite Hh0).
    rewrite (bind_ok _ _ _ _ _ (buffinit_ok L0 a B HB0)) in Hr.
    by injection Hr as <-. }
  rewrite Hr in Hcall. injection Hcall as _ <-.
  intros y By HBy. destruct (decide (y = a)) as [->|Hne].
  - rewrite HB1 in HBy. by injection HBy as <-.
  - rewrite (kept_buffer _ _ _ Hk) in HBy by done.
    pose proof (Ha y By HBy) as Hy.
    destruct (b By) as [a'|xy] eqn:Hby; [done|].
    rewrite Hreg. by eapply unref_other.
Qed.

Lemma bufflib_index_anchored args L :
  anchored L →
  wp True (bufflib_index args) L (λ _, anchored) (λ _, anchored).
Proof.
  intros Ha.
  destruct (luaL_checkstring_state args 2 L) as [[key Hkey]|Hkey].
  2:{ unfold bufflib_index. apply wp_bind. by eapply wp_raise. }
  destruct args as [|[] [|kv []]];
    try (unfold bufflib_index; apply wp_bind; (eapply wp_ok; [done|]); done).
  destruct (buffer L a) as [B|] eqn:HB.
  2:{ unfold bufflib_index. apply wp_bind. eapply wp_ok; [done|].
      apply wp_bind. unfold wp, getB. unfold buffer in HB.
      by destruct (heap L !! a) as [[]|]. }
  unfold wp. rewrite (bufflib_index_eq L a B kv key HB Hkey). cbv zeta.
  destruct (negb (lua_isnil _)); [done|].
  destruct (negb (String.prefix _ _)); [done|].
  destruct (global_string L) as [strtab|]; [|done].
  destruct (negb (lua_isfunction _)); [done|].
  destruct (closure_views L (fresh (dom (heap L))) f_stringop
              (lua_getfield strtab (string_skip STRINGPREFIXLEN key)) (fresh_heap L))
    as [Hbuf _].
  assert (anchored (adapter_in_metatable L key
            (lua_getfield strtab (string_skip STRINGPREFIXLEN key)))) as Ha'.
  { intros y By HBy. unfold adapter_in_metatable in HBy. cbv zeta in HBy.
    unfold buffer in HBy. simpl in HBy. unfold buffer in Hbuf. simpl in Hbuf.
    rewrite Hbuf in HBy. exact (Ha y By HBy). }
  destruct (loaded_bufflib L); [|done].
  intros y By HBy. exact (Ha' y By HBy).
Qed.

(** X16. Every function of the library but the [__gc] metamethod keeps the
    stores anchored, whether it returns or raises: a Buffer that uses its
    inline array holds no reference, and the userdata block another Buffer
    uses is what the registry holds under that Buffer's [ref].  In
    particular [prepbuffsize] never releases the store of another Buffer, and
    leaves the new store referenced. *)
Theorem stores_stay_anchored f args L :
  f ≠ f_gc → wf_state L → anchored L →
  match call f args L with
  | Ok _ L' | Raise _ L' => anchored L'
  | Undefined => True
  end.
Proof.
  intros Hf Hwf Ha.
  change (wp True (call f args) L (λ _, anchored) (λ _, anchored)).
  destruct f; simpl; try done.
  - (* concat *)
    unfold bufflib_concat.
    apply wp_bind. eapply wp_ok; [apply isbuffer_ok|].
    apply wp_bind. eapply wp_ok; [apply isbuffer_ok|].
    destruct (is_buffer_value L (index2value args 1)) eqn:H1; cbn [andb].
    + apply wp_bind.
      eapply wp_mono; [by apply newbuffer_anchored| |by intros e L' ->|done].
      intros d L1 (Hwf1 & Ha1 & HB1).
      apply wp_tolstring. intros s1. apply wp_tolstring. intros s2.
      apply wp_bind.
      eapply wp_mono; [by apply addlstring2_anchored| |by intros e L' ->|done].
      intros _ L2 (_ & Ha2 & _). by apply wp_ret.
    + apply wp_bind. apply wp_bind.
      destruct (getbuffer_cases args 2 L) as [(a & B & Hi & HB & Hg)|[Hg _]];
        [|by eapply wp_raise].
      eapply wp_ok; [done|]. apply wp_tolstring. intros s. apply wp_ret.
      apply wp_bind.
      eapply wp_mono; [by eapply addlstring_anchored| |by intros e L' ->|done].
      intros _ L2 (_ & Ha2 & _). by apply wp_pushbuffer.
  - (* equal *)
    pose proof (bufflib_equal_state args L) as Hs. unfold wp.
    destruct (bufflib_equal args L); subst; done.
  - (* len *)
    pose proof (bufflib_len_state args L) as Hs. unfold wp.
    destruct (bufflib_len args L); subst; done.
  - (* tostring *)
    unfold wp.
    by destruct (bufflib_tostring_cases args L)
      as [(a & B & c & _ & _ & _ & ->)|[[e ->]| ->]].
  - (* add *)
    unfold bufflib_add. apply wp_bind.
    destruct (getbuffer_cases args 1 L) as [(a & B & Hi & HB & Hg)|[Hg _]];
      [|by eapply wp_raise].
    eapply wp_ok; [done|]. apply wp_bind. unfold addstrings.
    eapply wp_mono; [by eapply addstrings_loop_anchored| |done|done].
    intros _ L1 (_ & Ha1 & _). by apply wp_pushbuffer.
  - (* addsep *)
    unfold bufflib_addsep. apply wp_bind.
    destruct (getbuffer_cases args 1 L) as [(a & B & Hi & HB & Hg)|[Hg _]];
      [|by eapply wp_raise].
    eapply wp_ok; [done|]. apply wp_bind. unfold addsepstrings.
    apply wp_tolstring. intros sep. apply wp_bind.
    eapply wp_mono; [by eapply addsepstrings_loop_anchored| |done|done].
    intros _ L1 (Hwf1 & Ha1 & HB1). apply wp_tolstring. intros s.
    eapply wp_mono; [by eapply addlstring_anchored| |by intros e L' ->|done].
    intros _ L2 (_ & Ha2 & _). by apply wp_pushbuffer.
  - (* reset *)
    destruct (getbuffer_cases args 1 L) as [(a & B & Hi & HB & Hg)|[Hg _]].
    + rewrite index2value_1 in Hi. destruct args as [|v vs]; simplify_eq/=.
      unfold wp. destruct (bufflib_reset_spec L a B vs Hwf HB) as (L1 & Hr & _).
      rewrite Hr. by eapply bufflib_reset_anchored.
    + unfold bufflib_reset. apply wp_bind. by eapply wp_raise.
  - (* new *)
    unfold bufflib_newbuffer. apply wp_bind.
    eapply wp_mono; [by apply newbuffer_anchored| |by intros e L' ->|done].
    intros d L1 (Hwf1 & Ha1 & HB1). apply wp_bind. unfold addstrings.
    eapply wp_mono; [by eapply addstrings_loop_anchored| |done|done].
    intros _ L2 (_ & Ha2 & _). by apply wp_ret.
  - (* isbuffer *)
    unfold bufflib_isbuffer. apply wp_bind.
    eapply wp_ok; [apply isbuffer_ok|]. by apply wp_ret.
  - (* index *)
    by apply bufflib_index_anchored.
Qed.

(** X17. The [__gc] metamethod returns no value and only gives up the
    reference to the store: the registry loses the entry under the Buffer's
    [ref] when that is a reference (not negative), and the heap and the
    tables are as they were. *)
Theorem gc_releases_reference L a B rest :
  buffer L a = Some B →
  ∃ L', bufflib_gc (VUserdata a :: rest) L = Ok [] L' ∧
        registry L' = (if 0 <=? ref B then delete (ref B) (registry L) else registry L) ∧
        heap L' = heap L ∧ metatable L' = metatable L ∧
        loaded_bufflib L' = loaded_bufflib L ∧ global_string L' = global_string L.
Proof.
  intros HB. unfold bufflib_gc.
  rewrite (bind_ok _ _ _ _ _ (getbuffer_ok (VUserdata a :: rest) 1 L a B eq_refl HB)).
  destruct (buff_unref_state L a B HB) as (L1 & Hun & Hh1 & (?&?&?&?) & Hreg).
  rewrite (bind_ok _ _ _ _ _ Hun). by exists L1.
Qed.

Lemma anchored_no_buffers L :
  map_Forall (λ _ o, holds_no_buffer o = true) (heap L) → anchored L.
Proof.
  intros Hall a B HB. apply buffer_heap in HB.
  by specialize (Hall a _ HB).
Qed.

(** ** Accesses stay inside the stores *)

(** X18. On a well-formed state whose stores are anchored (each store in a
    userdata block is held by the registry, so the collector has not freed
    it), the functions that append to a Buffer, make one, reset it, read it
    or release its store stay inside the stores, whatever their arguments
    are: each [memcpy] and each [lua_pushlstring] addresses a store that is
    there and stays within its bounds, and the call returns or raises a Lua
    error.  The strings that [tolstring] pops before they are copied are
    values here; that the collector has not freed them by the time of the
    copy is taken for granted, not shown. *)
Theorem accesses_stay_in_bounds f args L :
  wf_state L → anchored L →
  f ∈ [f_add; f_reset; f_tostring; f_len; f_equal; f_gc; f_newbuffer; f_isbuffer] →
  call f args L ≠ Undefined.
Proof.
  intros Hwf _ Hf.
  assert (Hstr : ∀ a B, buffer L a = Some B → ∃ c, buffer_tostring a L = Ok c L).
  { intros a B HB. destruct (contents_wf _ _ _ Hwf HB) as (bs & _ & _ & Hc).
    rewrite buffer_tostring_contents, Hc. eauto. }
  repeat (apply elem_of_cons in Hf as [->|Hf]); [..|by apply elem_of_nil in Hf]; simpl.
  - destruct (getbuffer_cases args 1 L) as [(a & B & Hi & HB & Hg)|[Hg _]].
    + rewrite index2value_1 in Hi. destruct args as [|v vs]; simplify_eq/=.
      destruct (contents_wf _ _ _ Hwf HB) as (bs & _ & _ & Hc).
      pose proof (bufflib_add_spec L a B _ vs Hwf HB Hc) as Hwp.
      unfold wp in Hwp. by destruct (bufflib_add (VUserdata a :: vs) L).
    + unfold bufflib_add. by rewrite (bind_raise _ _ _ _ _ Hg).
  - destruct (getbuffer_cases args 1 L) as [(a & B & Hi & HB & Hg)|[Hg _]].
    + rewrite index2value_1 in Hi. destruct args as [|v vs]; simplify_eq/=.
      destruct (bufflib_reset_spec L a B vs Hwf HB) as (L1 & -> & _). done.
    + unfold bufflib_reset. by rewrite (bind_raise _ _ _ _ _ Hg).
  - unfold bufflib_tostring.
    destruct (getbuffer_cases args 1 L) as [(a & B & Hi & HB & Hg)|[Hg _]].
    + rewrite (bind_ok _ _ _ _ _ Hg). destruct (Hstr a B HB) as [c Hc].
      by rewrite (bind_ok _ _ _ _ _ Hc).
    + by rewrite (bind_raise _ _ _ _ _ Hg).
  - unfold bufflib_len.
    destruct (getbuffer_cases args 1 L) as [(a & B & Hi & HB & Hg)|[Hg _]].
    + rewrite (bind_ok _ _ _ _ _ Hg). unfold mbind, M_bind, getB.
      apply buffer_heap in HB. by rewrite HB.
    + by rewrite (bind_raise _ _ _ _ _ Hg).
  - unfold bufflib_equal.
    destruct (getbuffer_cases args 1 L) as [(a1 & B1 & Hi1 & HB1 & Hg1)|[Hg1 _]];
      [|by rewrite (bind_raise _ _ _ _ _ Hg1)].
    rewrite (bind_ok _ _ _ _ _ Hg1).
    destruct (getbuffer_cases args 2 L) as [(a2 & B2 & Hi2 & HB2 & Hg2)|[Hg2 _]];
      [|by rewrite (bind_raise _ _ _ _ _ Hg2)].
    rewrite (bind_ok _ _ _ _ _ Hg2).
    destruct (Hstr a1 B1 HB1) as [c1 Hc1]. destruct (Hstr a2 B2 HB2) as [c2 Hc2].
    by rewrite (bind_ok _ _ _ _ _ Hc1), (bind_ok _ _ _ _ _ Hc2).
  - unfold bufflib_gc.
    destruct (getbuffer_cases args 1 L) as [(a & B & Hi & HB & Hg)|[Hg _]].
    + rewrite (bind_ok _ _ _ _ _ Hg).
      destruct (buff_unref_state L a B HB) as (L1 & Hun & _).
      by rewrite (bind_ok _ _ _ _ _ Hun).
    + by rewrite (bind_raise _ _ _ _ _ Hg).
  - pose proof (bufflib_newbuffer_spec args L Hwf) as Hwp.
    unfold wp in Hwp. by destruct (bufflib_newbuffer args L).
  - unfold bufflib_isbuffer, mbind, M_bind. by rewrite isbuffer_ok.
Qed.

(** ** No reference is left behind *)

(** Every entry of the registry is a reference some Buffer holds to its
    store. *)
Definition registry_owned (L : lua_State) : Prop :=
  ∀ r x, registry L !! r = Some x →
    0 <= r ∧ ∃ a B, buffer L a = Some B ∧ ref B = r ∧ b B = Udata x.

Definition tied (L : lua_State) : Prop := anchored L ∧ registry_owned L.

(** A step that leaves the registry alone and carries every Buffer over with
    its [ref] and [b] fields. *)
Definition refs_carried (L L' : lua_State) : Prop :=
  registry L' = registry L ∧
  ∀ y B, buffer L y = Some B →
         ∃ B', buffer L' y = Some B' ∧ ref B' = ref B ∧ b B' = b B.

Lemma owned_carried L L' : refs_carried L L' → registry_owned L → registry_owned L'.
Proof.
  intros [Hreg Hb] Ho r x Hr. rewrite Hreg in Hr.
  destruct (Ho r x Hr) as (Hpos & a & B & HB & Href & Hbb). split; [done|].
  destruct (Hb a B HB) as (B' & HB' & Hr' & Hb'). exists a, B'. split; [done|].
  split; congruence.
Qed.

Lemma store_carried p data L L' : store p data L = Ok tt L' → refs_carried L L'.
Proof.
  unfold store. destruct p as [[a0|x] off]; simpl.
  - destruct (heap L !! a0) as [[B0| |]|] eqn:Ha; try done.
    destruct (in_bounds _ _ _); [|done]. intros [= <-]. split; [done|].
    intros y B HB. unfold buffer. simpl.
    destruct (decide (y = a0)) as [->|Hne].
    + rewrite lookup_insert_eq. apply buffer_heap in HB. rewrite Ha in HB.
      injection HB as <-. eauto.
    + rewrite lookup_insert_ne by done. fold (buffer L y). eauto.
  - destruct (heap L !! x) as [[|bs|]|] eqn:Hx; try done.
    destruct (in_bounds _ _ _); [|done]. intros [= <-]. split; [done|].
    intros y B HB. unfold buffer. simpl.
    destruct (decide (y = x)) as [->|Hne].
    + apply buffer_heap in HB. congruence.
    + rewrite lookup_insert_ne by done. fold (buffer L y). eauto.
Qed.

Lemma memcpy_string_carried p s k L L' :
  memcpy_string p s k L = Ok tt L' → refs_carried L L'.
Proof.
  unfold memcpy_string. destruct (_ && _); [apply store_carried|done].
Qed.

Lemma addsize_carried a s L L' : addsize a s L = Ok tt L' → refs_carried L L'.
Proof.
  unfold addsize, assign, mbind, M_bind, getB, modify_state.
  destruct (heap L !! a) as [[B0| |]|] eqn:Ha; try done.
  rewrite Ha. intros [= <-]. split; [done|].
  intros y B HB. unfold buffer. simpl.
  destruct (decide (y = a)) as [->|Hne].
  - rewrite lookup_insert_eq. apply buffer_heap in HB. rewrite Ha in HB.
    injection HB as <-. eauto.
  - rewrite lookup_insert_ne by done. fold (buffer L y). eauto.
Qed.

Lemma next_ref_pos (reg : gmap Z addr) : 0 < next_ref reg.
Proof.
  unfold next_ref.
  cut (0 <= map_fold (λ k (_ : addr) acc, Z.max k acc) 0 reg); [lia|].
  apply (map_fold_weak_ind (λ acc (_ : gmap Z addr), 0 <= acc)); [done|].
  intros i x m r _ Hr. lia.
Qed.

Lemma unref_registry_lookup r0 reg r x :
  unref_registry r0 reg !! r = Some x →
  reg !! r = Some x ∧ (0 <= r0 → r ≠ r0).
Proof.
  unfold unref_registry. destruct (Z.leb_spec 0 r0) as [Hr0|Hr0].
  - intros [Hne Hr]%lookup_delete_Some. split; [done|]. intros _ ->. done.
  - intros Hr. split; [done|lia].
Qed.

Lemma prepbuffsize_owned L a B sz p L1 :
  wf_state L → tied L → buffer L a = Some B → 0 <= sz →
  prepbuffsize a sz L = Ok p L1 → registry_owned L1.
Proof.
  intros Hwf [Ha Ho] HB Hsz Hp.
  destruct (Z_lt_le_dec (size_sub (size B) (n B)) sz) as [Hfit|Hfit].
  2:{ rewrite (prepbuffsize_fits L a B sz HB Hfit) in Hp. by injection Hp as _ <-. }
  destruct (too_large B sz) eqn:Hlarge.
  { by rewrite (prepbuffsize_too_large L a B sz HB Hfit Hlarge) in Hp. }
  destruct (frealloc L (heap L) (candidate B sz)) eqn:Halloc.
  2:{ by rewrite (prepbuffsize_no_memory L a B sz HB Hfit Hlarge Halloc) in Hp. }
  destruct (prepbuffsize_grow L a B sz Hwf HB Hsz Hfit Hlarge Halloc)
    as (L' & B' & Hp' & HB' & _ & _ & _ & _ & _ & Hk).
  destruct (prepbuffsize_grow_refs L a B sz Hwf HB Hsz Hfit Hlarge Halloc)
    as (p2 & L2 & B2 & Hp2 & HB2 & Hb2 & Hr2 & Hreg2).
  rewrite Hp in Hp', Hp2. injection Hp' as _ <-. injection Hp2 as _ <-.
  intros r x Hr. rewrite Hreg2 in Hr.
  destruct (decide (r = next_ref (unref_registry (ref B) (registry L)))) as [->|Hne].
  - rewrite lookup_insert_eq in Hr. injection Hr as <-.
    split; [pose proof (next_ref_pos (unref_registry (ref B) (registry L))); lia|].
    by exists a, B2.
  - rewrite lookup_insert_ne in Hr by done.
    apply unref_registry_lookup in Hr as [Hr Hr0].
    destruct (Ho r x Hr) as (Hpos & y & By & HBy & Href & Hby). split; [done|].
    assert (y ≠ a).
    { intros ->. rewrite HB in HBy. injection HBy as <-. apply Hr0; [lia|done]. }
    exists y, By. by rewrite (kept_buffer _ _ _ Hk).
Qed.

Lemma wp_and {A} U (m : M A) L (Q : A → lua_State → Prop) (Q' : lua_State → Prop) E :
  wp U m L Q E → (∀ x L', m L = Ok x L' → Q' L') →
  wp U m L (λ x L', Q x L' ∧ Q' L') E.
Proof. unfold wp. destruct (m L); eauto. Qed.

Lemma addlstring_tied L a s :
  wf_state L → tied L → is_Some (buffer L a) →
  wp True (addlstring a s) L
    (λ _ L', wf_state L' ∧ tied L' ∧ is_Some (buffer L' a))
    (λ _ L', L' = L).
Proof.
  intros Hwf Ht [B HB].
  eapply wp_mono;
    [apply (wp_and _ _ _ _ registry_owned _
              (addlstring_anchored L a s Hwf (proj1 Ht) (ex_intro _ B HB)))
    |by intros _ L' [(?&?&?) ?]|done|done].
  intros [] L' Hp. unfold addlstring in Hp.
  apply bind_ok_inv in Hp as (p & L0 & Hprep & Hp).
  apply bind_ok_inv in Hp as ([] & L1 & Hcpy & Hadd).
  eapply owned_carried; [by eapply addsize_carried|].
  eapply owned_carried; [by eapply memcpy_string_carried|].
  eapply (prepbuffsize_owned L a B); [done..|apply blen_nonneg|done].
Qed.

Lemma addlstring2_tied L a s1 s2 :
  wf_state L → tied L → is_Some (buffer L a) →
  wp True (addlstring2 a s1 s2) L
    (λ _ L', wf_state L' ∧ tied L' ∧ is_Some (buffer L' a))
    (λ _ L', L' = L).
Proof.
  intros Hwf Ht [B HB].
  eapply wp_mono;
    [apply (wp_and _ _ _ _ registry_owned _
              (addlstring2_anchored L a s1 s2 Hwf (proj1 Ht) (ex_intro _ B HB)))
    |by intros _ L' [(?&?&?) ?]|done|done].
  intros [] L' Hp. unfold addlstring2 in Hp. cbv zeta in Hp.
  apply bind_ok_inv in Hp as (p & L0 & Hprep & Hp).
  apply bind_ok_inv in Hp as ([] & L1 & Hcpy1 & Hp).
  apply bind_ok_inv in Hp as ([] & L3 & Hadd1 & Hp).
  apply bind_ok_inv in Hp as ([] & L4 & Hcpy2 & Hadd2).
  eapply owned_carried; [by eapply addsize_carried|].
  eapply owned_carried; [by eapply memcpy_string_carried|].
  eapply owned_carried; [by eapply addsize_carried|].
  eapply owned_carried; [by eapply memcpy_string_carried|].
  eapply (prepbuffsize_owned L a B); [done..| |done].
  apply size_mod_range.
Qed.

Lemma addstrings_loop_tied a stack k : ∀ i L,
  wf_state L → tied L → is_Some (buffer L a) →
  wp True (addstrings_loop a stack i k) L
    (λ _ L', wf_state L' ∧ tied L' ∧ is_Some (buffer L' a))
    (λ _ L', tied L').
Proof.
  induction k as [|k IH]; intros i L Hwf Ht HB; simpl.
  - by apply wp_ret.
  - apply wp_tolstring. intros s. apply wp_bind.
    eapply wp_mono; [by apply addlstring_tied| |by intros e L' ->|done].
    intros _ L1 (Hwf1 & Ht1 & HB1). by apply IH.
Qed.

Lemma addsepstrings_loop_tied a stack sep k : ∀ i L,
  wf_state L → tied L → is_Some (buffer L a) →
  wp True (addsepstrings_loop a stack sep i k) L
    (λ _ L', wf_state L' ∧ tied L' ∧ is_Some (buffer L' a))
    (λ _ L', tied L').
Proof.
  induction k as [|k IH]; intros i L Hwf Ht HB; simpl.
  - by apply wp_ret.
  - apply wp_tolstring. intros s. apply wp_bind.
    eapply wp_mono; [by apply addlstring2_tied| |by intros e L' ->|done].
    intros _ L1 (Hwf1 & Ht1 & HB1). by apply IH.
Qed.

Lemma newbuffer_tied L :
  wf_state L → tied L →
  wp True newbuffer L
    (λ d L', wf_state L' ∧ tied L' ∧ is_Some (buffer L' d))
    (λ _ L', L' = L).
Proof.
  intros Hwf [Ha Ho].
  eapply wp_mono;
    [apply (wp_and _ _ _ _ registry_owned _ (newbuffer_anchored L Hwf Ha))
    |by intros d L' [(?&?&?) ?]|done|done].
  intros d L1 Hn.
  destruct (newbuffer_cases L Hwf) as [[Hn' _]|(L1' & Hn' & _ & Hk1 & _ & Hd & _)];
    rewrite Hn in Hn'; [done|]. injection Hn' as -> <-.
  assert (Hreg : registry L1 = registry L).
  { unfold newbuffer, mbind, M_bind, lua_newuserdata_Buffer in Hn.
    destruct (frealloc L (heap L) sizeof_Buffer); [|done].
    rewrite (buffinit_ok _ _ _ (buffer_set_heap_eq _ _ _)) in Hn.
    by injection Hn as <-. }
  intros r x Hr. rewrite Hreg in Hr.
  destruct (Ho r x Hr) as (Hpos & y & By & HBy & Href & Hby). split; [done|].
  exists y, By. rewrite (kept_buffer _ _ _ Hk1); [done|]. intros ->. congruence.
Qed.

Lemma unref_owned L L' a B :
  registry_owned L → buffer L a = Some B →
  registry L' = unref_registry (ref B) (registry L) →
  (∀ y, y ≠ a → buffer L' y = buffer L y) → registry_owned L'.
Proof.
  intros Ho HB Hreg Hk r x Hr. rewrite Hreg in Hr.
  apply unref_registry_lookup in Hr as [Hr Hr0].
  destruct (Ho r x Hr) as (Hpos & y & By & HBy & Href & Hby). split; [done|].
  assert (y ≠ a).
  { intros ->. rewrite HB in HBy. injection HBy as <-. apply Hr0; [lia|done]. }
  exists y, By. by rewrite Hk.
Qed.

(** X19. No call leaves a reference behind: when every entry of the registry
    is the reference some Buffer holds to its store, this is so again after
    any function of the library has returned or raised.  [prepbuffsize]
    releases the old store when it takes a new one, and [reset] and [__gc]
    release the store they give up. *)
Theorem registry_holds_only_stores f args L :
  wf_state L → anchored L → registry_owned L →
  match call f args L with
  | Ok _ L' | Raise _ L' => registry_owned L'
  | Undefined => True
  end.
Proof.
  intros Hwf Ha Ho. assert (Ht : tied L) by done.
  change (wp True (call f args) L (λ _, registry_owned) (λ _, registry_owned)).
  destruct f; simpl; try done.
  - (* concat *)
    unfold bufflib_concat.
    apply wp_bind. eapply wp_ok; [apply isbuffer_ok|].
    apply wp_bind. eapply wp_ok; [apply isbuffer_ok|].
    destruct (is_buffer_value L (index2value args 1)) eqn:H1; cbn [andb].
    + apply wp_bind.
      eapply wp_mono; [by apply newbuffer_tied| |by intros e L' ->|done].
      intros d L1 (Hwf1 & Ht1 & HB1).
      apply wp_tolstring. intros s1. apply wp_tolstring. intros s2.
      apply wp_bind.
      eapply wp_mono; [by apply addlstring2_tied| |by intros e L' ->; apply Ht1|done].
      intros _ L2 (_ & Ht2 & _). apply wp_ret. apply Ht2.
    + apply wp_bind. apply wp_bind.
      destruct (getbuffer_cases args 2 L) as [(a & B & Hi & HB & Hg)|[Hg _]];
        [|by eapply wp_raise].
      eapply wp_ok; [done|]. apply wp_tolstring. intros s. apply wp_ret.
      apply wp_bind.
      eapply wp_mono; [by eapply addlstring_tied| |by intros e L' ->|done].
      intros _ L2 (_ & Ht2 & _). apply wp_pushbuffer. intros _. apply Ht2.
  - (* equal *)
    pose proof (bufflib_equal_state args L) as Hs. unfold wp.
    destruct (bufflib_equal args L); subst; done.
  - (* len *)
    pose proof (bufflib_len_state args L) as Hs. unfold wp.
    destruct (bufflib_len args L); subst; done.
  - (* tostring *)
    unfold wp.
    by destruct (bufflib_tostring_cases args L)
      as [(a & B & c & _ & _ & _ & ->)|[[e ->]| ->]].
  - (* gc *)
    unfold bufflib_gc. apply wp_bind.
    destruct (getbuffer_cases args 1 L) as [(a & B & Hi & HB & Hg)|[Hg _]];
      [|by eapply wp_raise].
    eapply wp_ok; [done|]. apply wp_bind.
    destruct (buff_unref_state L a B HB) as (L1 & Hun & Hh1 & _ & Hreg).
    eapply wp_ok; [done|]. apply wp_ret.
    eapply (unref_owned L L1 a B); [done..|].
    intros y _. unfold buffer. by rewrite Hh1.
  - (* add *)
    unfold bufflib_add. apply wp_bind.
    destruct (getbuffer_cases args 1 L) as [(a & B & Hi & HB & Hg)|[Hg _]];
      [|by eapply wp_raise].
    eapply wp_ok; [done|]. apply wp_bind. unfold addstrings.
    eapply wp_mono; [by eapply addstrings_loop_tied| |by intros e L' []|done].
    intros _ L1 (_ & Ht1 & _). apply wp_pushbuffer. intros _. apply Ht1.
  - (* addsep *)
    unfold bufflib_addsep. apply wp_bind.
    destruct (getbuffer_cases args 1 L) as [(a & B & Hi & HB & Hg)|[Hg _]];
      [|by eapply wp_raise].
    eapply wp_ok; [done|]. apply wp_bind. unfold addsepstrings.
    apply wp_tolstring. intros sep. apply wp_bind.
    eapply wp_mono; [by eapply addsepstrings_loop_tied| |by intros e L' []|done].
    intros _ L1 (Hwf1 & Ht1 & HB1). apply wp_tolstring. intros s.
    eapply wp_mono; [by eapply addlstring_tied| |by intros e L' ->; apply Ht1|done].
    intros _ L2 (_ & Ht2 & _). apply wp_pushbuffer. intros _. apply Ht2.
  - (* reset *)
    destruct (getbuffer_cases args 1 L) as [(a & B & Hi & HB & Hg)|[Hg _]].
    + rewrite index2value_1 in Hi. destruct args as [|v vs]; simplify_eq/=.
      unfold wp.
      destruct (bufflib_reset_spec L a B vs Hwf HB) as (L1 & Hr & _ & Hk & _ & HB1).
      pose proof Hr as Hr'. rewrite Hr. unfold bufflib_reset in Hr'.
      rewrite (bind_ok _ _ _ _ _ (getbuffer_ok (VUserdata a :: vs) 1 L a B eq_refl HB))
        in Hr'.
      destruct (buff_unref_state L a B HB) as (L0 & Hun & Hh0 & _ & Hreg).
      rewrite (bind_ok _ _ _ _ _ Hun) in Hr'.
      assert (HB0 : buffer L0 a = Some B) by (unfold buffer; by rewrite Hh0).
      rewrite (bind_ok _ _ _ _ _ (buffinit_ok L0 a B HB0)) in Hr'.
      injection Hr' as <-.
      eapply (unref_owned L _ a B); [done..|].
      intros y Hy. by apply (kept_buffer _ _ _ Hk).
    + unfold bufflib_reset. apply wp_bind. by eapply wp_raise.
  - (* new *)
    unfold bufflib_newbuffer. apply wp_bind.
    eapply wp_mono; [by apply newbuffer_tied| |by intros e L' ->|done].
    intros d L1 (Hwf1 & Ht1 & HB1). apply wp_bind. unfold addstrings.
    eapply wp_mono; [by eapply addstrings_loop_tied| |by intros e L' []|done].
    intros _ L2 (_ & Ht2 & _). apply wp_ret. apply Ht2.
  - (* isbuffer *)
    unfold bufflib_isbuffer. apply wp_bind.
    eapply wp_ok; [apply isbuffer_ok|]. by apply wp_ret.
  - (* index *)
    destruct (luaL_checkstring_state args 2 L) as [[key Hkey]|Hkey].
    2:{ unfold bufflib_index. apply wp_bind. by eapply wp_raise. }
    destruct args as [|[] [|kv []]];
      try (unfold bufflib_index; apply wp_bind; (eapply wp_ok; [done|]); done).
    destruct (buffer L a) as [B|] eqn:HB.
    2:{ unfold bufflib_index. apply wp_bind. eapply wp_ok; [done|].
        apply wp_bind. unfold wp, getB. unfold buffer in HB.
        by destruct (heap L !! a) as [[]|]. }
    unfold wp. rewrite (bufflib_index_eq L a B kv key HB Hkey). cbv zeta.
    destruct (negb (lua_isnil _)); [done|].
    destruct (negb (String.prefix _ _)); [done|].
    destruct (global_string L) as [strtab|]; [|done].
    destruct (negb (lua_isfunction _)); [done|].
    destruct (closure_views L (fresh (dom (heap L))) f_stringop
                (lua_getfield strtab (string_skip STRINGPREFIXLEN key)) (fresh_heap L))
      as [Hbuf _].
    assert (registry_owned (adapter_in_metatable L key
              (lua_getfield strtab (string_skip STRINGPREFIXLEN key)))) as Ho'.
    { intros r x Hr. destruct (Ho r x Hr) as (Hpos & y & By & HBy & Href & Hby).
      split; [done|]. exists y, By. split; [|done].
      unfold adapter_in_metatable. cbv zeta. unfold buffer in *. simpl.
      by rewrite Hbuf. }
    destruct (loaded_bufflib L); [|done].
    intros r x Hr. exact (Ho' r x Hr).
Qed.

(** States whose Buffers all use their inline array, and whose registry is
    empty. *)
Definition inline_unreferenced (o : object) : bool :=
  match o with
  | OBuffer B =>
      match b B with InitbOf _ => bool_decide (ref B = LUA_NOREF) | Udata _ => false end
  | _ => true
  end.

Lemma anchored_inline L :
  map_Forall (λ _ o, inline_unreferenced o = true) (heap L) → anchored L.
Proof.
  intros Hall a B HB. apply buffer_heap in HB. specialize (Hall a _ HB).
  simpl in Hall. destruct (b B); [by apply bool_decide_eq_true in Hall|done].
Qed.

Lemma registry_owned_empty L : registry L = ∅ → registry_owned L.
Proof. intros Hreg r x Hr. by rewrite Hreg, lookup_empty in Hr. Qed.

(** ** [bufflib_index] when the library table is gone *)

(** X20. When [_LOADED.bufflib] is no table, the lookup of [s_] followed by
    the name of a string function raises, but only after the closure was put
    into the metatable: the same lookup made again returns that closure. *)
Theorem index_without_library_table L a B kv rest f :
  buffer L a = Some B →
  luaL_checkstring [VUserdata a; kv] 2 L = Ok (STRINGPREFIX +:+ rest)%string L →
  lua_getfield (metatable L) (STRINGPREFIX +:+ rest)%string = VNil →
  string_function L rest = Some f → loaded_bufflib L = None →
  ∃ x L', bufflib_index [VUserdata a; kv] L = Raise IndexError L' ∧
    heap L !! x = None ∧ heap L' = <[x := OClosure f_stringop f]> (heap L) ∧
    metatable L' = <[(STRINGPREFIX +:+ rest)%string := VClosure x]> (metatable L) ∧
    loaded_bufflib L' = None ∧
    bufflib_index [VUserdata a; kv] L' = Ok [VClosure x] L'.
Proof.
  intros HB Hkey Habsent Hf Hlib.
  rewrite (bufflib_index_eq L a B kv _ HB Hkey). cbv zeta. rewrite Habsent.
  change (negb (lua_isnil VNil)) with false. cbv iota.
  destruct (prefix_append rest) as [Hpre Hskip]. rewrite Hpre, Hskip.
  change (negb true) with false. cbv iota.
  unfold string_function in Hf.
  destruct (global_string L) as [strtab|] eqn:Hstr; [|done].
  cbv zeta in Hf. destruct (lua_isfunction (lua_getfield strtab rest)) eqn:Hfun; [|done].
  injection Hf as <-. change (negb true) with false. cbv iota. rewrite Hlib.
  eexists _, _. split; [reflexivity|].
  split; [apply fresh_heap|]. split; [done|]. split; [done|]. split; [done|].
  assert (Hkey' : ∀ L1, luaL_checkstring [VUserdata a; kv] 2 L1 =
                          Ok (STRINGPREFIX +:+ rest)%string L1).
  { intros L1. unfold luaL_checkstring in *.
    change (index2value [VUserdata a; kv] 2) with (Some kv) in *.
    destruct kv; try done; unfold mret, M_ret in *; by injection Hkey as ->. }
  assert (HB' : buffer (adapter_in_metatable L (STRINGPREFIX +:+ rest)
                          (lua_getfield strtab rest)) a = Some B).
  { apply buffer_heap. unfold adapter_in_metatable. simpl.
    rewrite lookup_insert_ne; [by apply buffer_heap|].
    intros E. pose proof (fresh_heap L) as Hx. rewrite E in Hx.
    apply buffer_heap in HB. congruence. }
  rewrite (bufflib_index_eq _ a B kv _ HB' (Hkey' _)). cbv zeta.
  simpl metatable. rewrite lua_setfield_closure, lua_getfield_insert. done.
Qed.

(** ** The adapter [bufflib_stringop] *)

Lemma lua_insert_top stack top i :
  lua_insert (stack ++ [top]) i =
  take (Z.to_nat (i - 1)) stack ++ top :: drop (Z.to_nat (i - 1)) stack.
Proof.
  unfold lua_insert. rewrite last_snoc, length_app. simpl.
  replace (length stack + 1 - 1)%nat with (length stack) by lia.
  by rewrite take_app_length.
Qed.

(** X21. A closure of [bufflib_stringop] called on a Buffer calls its
    upvalue, the string function, with the content of the Buffer as a string
    in place of the Buffer, followed by the other arguments in their order:
    as many arguments as the closure was given.  The state is as it was when
    the call is made.  When the first argument is no Buffer, it raises an
    argument error instead. *)
Theorem stringop_passes_contents L a c rest f :
  bufflib_tostring [VUserdata a] L = Ok [VString c] L →
  bufflib_stringop_call f (VUserdata a :: rest) L =
    Ok (f :: VString c :: rest, lua_gettop (VString c :: rest)) L ∧
  ∀ args, is_buffer_value L (index2value args 1) = false →
          bufflib_stringop_call f args L = Raise (ArgError 1) L.
Proof.
  intros (B & HB & Hc)%bufflib_tostring_inv. split.
  - unfold bufflib_stringop_call.
    rewrite (bind_ok _ _ _ _ _ (getbuffer_ok (VUserdata a :: rest) 1 L a B eq_refl HB)).
    assert (Ht : buffer_tostring a L = Ok c L)
      by (by rewrite buffer_tostring_contents, Hc).
    rewrite (bind_ok _ _ _ _ _ Ht).
    change (lua_remove (VUserdata a :: rest) 1) with rest.
    rewrite (lua_insert_top rest f 1).
    change (Z.to_nat (1 - 1)) with 0%nat. rewrite take_0, drop_0.
    change ([] ++ f :: rest) with (f :: rest).
    by rewrite (lua_insert_top (f :: rest) (VString c) 2).
  - intros args Hno. unfold bufflib_stringop_call.
    by rewrite (bind_raise _ _ _ _ _ (getbuffer_not_buffer args 1 L Hno)).
Qed.

End Properties.

(** * Runs on a concrete platform *)

Section Runs.
#[local] Existing Instance Examples.lp64.
#[local] Existing Instance Examples.host.
Import Examples.

(** An equation between closed terms, checked by evaluating both sides. *)
Ltac by_evaluation :=
  lazymatch goal with
  | |- ?x = ?y => exact (@eq_refl _ y <: x = y)
  | |- Is_true ?x => exact (I <: Is_true x)
  end.

Definition state_of {A} (o : outcome A) (d : lua_State) : lua_State :=
  match o with
  | Ok _ L | Raise _ L => L
  | Undefined => d
  end.

Definition returned {A} (o : outcome A) : option A :=
  match o with Ok x _ => Some x | _ => None end.

Definition raised {A} (o : outcome A) : option error :=
  match o with Raise e _ => Some e | _ => None end.

(** A run is settled by what it returns or raises; its final state is then
    [state_of] the run. *)
Lemma run_ok {A} (o : outcome A) (d : lua_State) (r : A) :
  returned o = Some r → o = Ok r (state_of o d).
Proof. destruct o; intros [= <-]; reflexivity. Qed.

Lemma run_raise {A} (o : outcome A) (d : lua_State) (e : error) :
  raised o = Some e → o = Raise e (state_of o d).
Proof. destruct o; intros [= <-]; reflexivity. Qed.

(** The string library as the host has it when bufflib is loaded, and after
    a program has added [string.twice]. *)
Definition strlib_at_load : gmap string value :=
  {[ "len"%string := VObject "string.len"%string ]}.
Definition strlib_later : gmap string value :=
  <[ "twice"%string := VObject "string.twice"%string ]> strlib_at_load.

Definition L_start : lua_State :=
  mkState ∅ ∅ ∅ None (Some strlib_at_load) (λ _ _, true) false GNil.

(** After [require "bufflib"]. *)
Definition L_loaded : lua_State := state_of (luaopen_bufflib L_start) L_start.

(** After the program has defined [string.twice]. *)
Definition L_extended : lua_State :=
  mkState (heap L_loaded) (registry L_loaded) (metatable L_loaded)
          (loaded_bufflib L_loaded) (Some strlib_later) (frealloc L_loaded)
          (string_isnil L_loaded) (global_bufflib L_loaded).

(** After [buf = bufflib.new("ab")]: the Buffer is at address 1. *)
Definition L_ab : lua_State :=
  state_of (bufflib_newbuffer [VString (str "ab")] L_extended) L_extended.

Definition buf : value := VUserdata 1.

Definition B_ab : Buffer := mkBuffer LUA_NOREF (InitbOf 1) 16 2 (str "ab??????????????").

Example L_ab_run :
  bufflib_newbuffer [VString (str "ab")] L_extended = Ok [buf] L_ab.
Proof. apply (run_ok _ L_extended). by_evaluation. Qed.

Example L_ab_buffer : buffer L_ab 1 = Some B_ab.
Proof. by_evaluation. Qed.

Example L_ab_tostring : bufflib_tostring [buf] L_ab = Ok [VString (str "ab")] L_ab.
Proof. by_evaluation. Qed.

Lemma wf_L_extended : wf_state L_extended.
Proof.
  apply wf_no_buffers. apply (bool_decide_unpack _). by_evaluation.
Qed.

Lemma wf_L_ab : wf_state L_ab.
Proof. exact (call_ok_wf f_newbuffer _ _ _ _ wf_L_extended L_ab_run). Qed.

(** After [other = bufflib.new("ab")]: that Buffer is at address 2. *)
Definition L_two : lua_State :=
  state_of (bufflib_newbuffer [VString (str "ab")] L_ab) L_ab.

Definition other : value := VUserdata 2.

Example L_two_run :
  bufflib_newbuffer [VString (str "ab")] L_ab = Ok [other] L_two.
Proof. apply (run_ok _ L_ab). by_evaluation. Qed.

Lemma wf_L_two : wf_state L_two.
Proof. exact (call_ok_wf f_newbuffer _ _ _ _ wf_L_ab L_two_run). Qed.

(** ** C1 *)

(** [buf:add("c", 42, true, buf)] *)
Definition added : list value :=
  [VString (str "c"); VNumber 42; VBool true; buf].
Definition L_added : lua_State := state_of (bufflib_add (buf :: added) L_ab) L_ab.

Lemma add_tostring_concatenation_witness :
  wf_state L_ab ∧
  bufflib_tostring [buf] L_ab = Ok [VString (str "ab")] L_ab ∧
  bufflib_add (buf :: added) L_ab = Ok [buf] L_added ∧
  bufflib_tostring [buf] L_added = Ok [VString (str "abc42trueabc42true")] L_added.
Proof.
  split; [exact wf_L_ab|]. split; [exact L_ab_tostring|].
  assert (Hadd : bufflib_add (buf :: added) L_ab = Ok [buf] L_added)
    by (apply (run_ok _ L_ab); by_evaluation).
  split; [exact Hadd|].
  exact (proj1 (add_tostring_concatenation L_ab 1 (str "ab") added
                  wf_L_ab L_ab_tostring) [buf] L_added Hadd).
Defined.

(** ** C2 *)

Lemma prepbuffsize_capacity_witness :
  wf_state L_ab ∧ buffer L_ab 1 = Some B_ab ∧
  prepbuffsize 1 5 L_ab = Ok (InitbOf 1, 2) L_ab ∧
  (∃ B', buffer (state_of (prepbuffsize 1 20 L_ab) L_ab) 1 = Some B' ∧ size B' = 32) ∧
  (∃ B', buffer (state_of (prepbuffsize 1 100 L_ab) L_ab) 1 = Some B' ∧ size B' = 102).
Proof.
  split; [exact wf_L_ab|]. split; [exact L_ab_buffer|].
  assert (H5 : 5 <= size_sub (size B_ab) (n B_ab)) by (vm_compute; discriminate).
  assert (H20 : size_sub (size B_ab) (n B_ab) < 20) by reflexivity.
  assert (H100 : size_sub (size B_ab) (n B_ab) < 100) by reflexivity.
  assert (R20 : prepbuffsize 1 20 L_ab =
                Ok (Udata 2, 2) (state_of (prepbuffsize 1 20 L_ab) L_ab))
    by (apply (run_ok _ L_ab); by_evaluation).
  assert (R100 : prepbuffsize 1 100 L_ab =
                 Ok (Udata 2, 2) (state_of (prepbuffsize 1 100 L_ab) L_ab))
    by (apply (run_ok _ L_ab); by_evaluation).
  split.
  { exact (proj1 (prepbuffsize_capacity L_ab 1 B_ab 5 wf_L_ab L_ab_buffer
                    ltac:(lia)) H5). }
  split.
  - destruct (proj1 (proj2 (prepbuffsize_capacity L_ab 1 B_ab 20 wf_L_ab L_ab_buffer
                              ltac:(lia)) H20) _ _ R20)
      as (B' & HB' & _ & _ & _ & Hdouble).
    exists B'. split; [exact HB'|].
    apply Hdouble. vm_compute. discriminate.
  - destruct (proj1 (proj2 (prepbuffsize_capacity L_ab 1 B_ab 100 wf_L_ab L_ab_buffer
                              ltac:(lia)) H100) _ _ R100)
      as (B' & HB' & _ & _ & Hexact & _).
    exists B'. split; [exact HB'|].
    apply Hexact. reflexivity.
Defined.

(** ** C3 *)

Lemma prepbuffsize_too_large_unchanged_witness :
  let L' := state_of (prepbuffsize 1 (2 ^ 64 - 1) L_ab) L_start in
  prepbuffsize 1 (2 ^ 64 - 1) L_ab = Raise BufferTooLarge L' ∧
  L' = L_ab ∧ buffer L' 1 = buffer L_ab 1.
Proof.
  intros L'.
  assert (Hp : prepbuffsize 1 (2 ^ 64 - 1) L_ab = Raise BufferTooLarge L')
    by (apply (run_raise _ L_start); by_evaluation).
  split; [exact Hp|].
  exact (prepbuffsize_too_large_unchanged L_ab 1 (2 ^ 64 - 1) L' Hp).
Defined.

(** ** C4 *)

(** [r = bufflib.concat(buf, "x")], that is [buf .. "x"] *)
Definition L_concat : lua_State :=
  state_of (bufflib_concat [buf; VString (str "x")] L_ab) L_ab.

(** C4 does not hold of the code. [concat] of a Buffer and a string (in that
    order) takes the branch meant for two Buffers, because the test reads
    [arg1IsBuffer && arg1IsBuffer]: it returns a new Buffer at another address
    holding ["abx"], and the Buffer operand still holds ["ab"]; the claim has
    the operand mutated in place and returned. *)
Theorem concat_buffer_string_makes_new_buffer :
  bufflib_tostring [buf] L_ab = Ok [VString (str "ab")] L_ab ∧
  bufflib_concat [buf; VString (str "x")] L_ab = Ok [VUserdata 2] L_concat ∧
  buffer L_ab 2 = None ∧
  bufflib_tostring [buf] L_concat = Ok [VString (str "ab")] L_concat ∧
  bufflib_tostring [VUserdata 2] L_concat = Ok [VString (str "abx")] L_concat.
Proof.
  split; [by_evaluation|].
  split; [apply (run_ok _ L_ab); by_evaluation|].
  split; [by_evaluation|].
  split; by_evaluation.
Qed.

(** The other order goes the way the comment in the source says: the string
    is added to the Buffer, which is returned. *)
Example concat_string_buffer_in_place :
  let L' := state_of (bufflib_concat [VString (str "x"); buf] L_ab) L_ab in
  bufflib_concat [VString (str "x"); buf] L_ab = Ok [buf] L' ∧
  bufflib_tostring [buf] L' = Ok [VString (str "abx")] L'.
Proof. split; [apply (run_ok _ L_ab)|]; by_evaluation. Qed.

(** ** C5 *)

(** [buf:addsep(",")] *)
Definition L_sep_only : lua_State :=
  state_of (bufflib_addsep [buf; VString (str ",")] L_ab) L_ab.

(** C5 fails on the code: [addsep] with a Buffer, a separator and no value
    raises nothing; it returns the Buffer, to which the separator was
    added. *)
Lemma addsep_without_values_counterexample :
  bufflib_tostring [buf] L_ab = Ok [VString (str "ab")] L_ab ∧
  bufflib_addsep [buf; VString (str ",")] L_ab = Ok [buf] L_sep_only ∧
  (∀ e L', bufflib_addsep [buf; VString (str ",")] L_ab ≠ Raise e L') ∧
  bufflib_tostring [buf] L_sep_only = Ok [VString (str "ab,")] L_sep_only.
Proof.
  assert (Hr : bufflib_addsep [buf; VString (str ",")] L_ab = Ok [buf] L_sep_only)
    by (apply (run_ok _ L_ab); by_evaluation).
  split; [by_evaluation|]. split; [exact Hr|]. split; [|by_evaluation].
  intros e L' Hraise. pose proof (eq_trans (eq_sym Hr) Hraise) as Hno.
  discriminate Hno.
Qed.

Lemma addsep_without_values_witness :
  wf_state L_ab ∧
  bufflib_tostring [buf] L_ab = Ok [VString (str "ab")] L_ab ∧
  bufflib_addsep [buf; VString (str ",")] L_ab = Ok [buf] L_sep_only ∧
  bufflib_tostring [buf] L_sep_only = Ok [VString (str "ab,")] L_sep_only.
Proof.
  split; [exact wf_L_ab|]. split; [exact L_ab_tostring|].
  assert (Hr : bufflib_addsep [buf; VString (str ",")] L_ab = Ok [buf] L_sep_only)
    by (apply (run_ok _ L_ab); by_evaluation).
  split; [exact Hr|].
  exact (proj2 (proj1 (addsep_without_values L_ab 1 (str "ab") (VString (str ","))
                         wf_L_ab L_ab_tostring) [buf] L_sep_only Hr)).
Defined.

(** ** C6 *)

(** [buf:addsep(",", "x", "y", "z")] *)
Definition separated_values : list value :=
  [VString (str "x"); VString (str "y"); VString (str "z")].
Definition L_separated : lua_State :=
  state_of (bufflib_addsep (buf :: VString (str ",") :: separated_values) L_ab) L_ab.

Lemma addsep_tostring_separated_witness :
  wf_state L_ab ∧
  bufflib_tostring [buf] L_ab = Ok [VString (str "ab")] L_ab ∧
  separated_values ≠ [] ∧
  bufflib_addsep (buf :: VString (str ",") :: separated_values) L_ab
    = Ok [buf] L_separated ∧
  bufflib_tostring [buf] L_separated = Ok [VString (str "abx,y,z")] L_separated.
Proof.
  split; [exact wf_L_ab|]. split; [exact L_ab_tostring|].
  assert (Hne : separated_values ≠ []) by discriminate.
  split; [exact Hne|].
  assert (Hr : bufflib_addsep (buf :: VString (str ",") :: separated_values) L_ab
               = Ok [buf] L_separated) by (apply (run_ok _ L_ab); by_evaluation).
  split; [exact Hr|].
  exact (proj1 (addsep_tostring_separated L_ab 1 (str "ab") (VString (str ","))
                  separated_values wf_L_ab L_ab_tostring Hne) [buf] L_separated Hr).
Defined.

(** ** C7 *)

(** [buf == other], and after [other:add("x")] *)
Definition L_differ : lua_State :=
  state_of (bufflib_add [other; VString (str "x")] L_two) L_two.

Lemma equal_reflexive_symmetric_tostring_witness :
  bufflib_tostring [buf] L_two = Ok [VString (str "ab")] L_two ∧
  bufflib_tostring [other] L_two = Ok [VString (str "ab")] L_two ∧
  bufflib_equal [buf; buf] L_two = Ok [VBool true] L_two ∧
  bufflib_equal [buf; other] L_two = bufflib_equal [other; buf] L_two ∧
  bufflib_equal [buf; other] L_two = Ok [VBool true] L_two ∧
  bufflib_equal [buf; other] L_differ = Ok [VBool false] L_differ.
Proof.
  assert (H1 : bufflib_tostring [buf] L_two = Ok [VString (str "ab")] L_two)
    by by_evaluation.
  assert (H2 : bufflib_tostring [other] L_two = Ok [VString (str "ab")] L_two)
    by by_evaluation.
  assert (H1' : bufflib_tostring [buf] L_differ = Ok [VString (str "ab")] L_differ)
    by by_evaluation.
  assert (H2' : bufflib_tostring [other] L_differ = Ok [VString (str "abx")] L_differ)
    by by_evaluation.
  destruct (equal_reflexive_symmetric_tostring L_two 1 2 _ _ H1 H2)
    as (Hrefl & Hsym & r & Hr & Hiff).
  destruct (equal_reflexive_symmetric_tostring L_differ 1 2 _ _ H1' H2')
    as (_ & _ & r' & Hr' & Hiff').
  split; [exact H1|]. split; [exact H2|]. split; [exact Hrefl|].
  split; [exact Hsym|]. split.
  - rewrite (proj2 Hiff eq_refl) in Hr. exact Hr.
  - destruct r'; [|exact Hr'].
    pose proof (proj1 Hiff' eq_refl) as Hne. vm_compute in Hne. discriminate Hne.
Defined.

(** ** C8 *)

(** [buf.s_twice] and [buf.nothing] *)
Definition lib_ab : gmap string value := default ∅ (loaded_bufflib L_ab).
Definition twice : value := VObject "string.twice"%string.

Lemma index_resolves_string_methods_witness :
  buffer L_ab 1 = Some B_ab ∧
  luaL_checkstring [buf; VString (str "s_twice")] 2 L_ab = Ok "s_twice"%string L_ab ∧
  lua_getfield (metatable L_ab) "s_twice" = VNil ∧
  string_function L_ab "twice" = Some twice ∧
  loaded_bufflib L_ab = Some lib_ab ∧
  (∃ x L', bufflib_index [buf; VString (str "s_twice")] L_ab = Ok [VClosure x] L' ∧
     heap L' !! x = Some (OClosure f_stringop twice) ∧
     metatable L' !! "s_twice"%string = Some (VClosure x) ∧
     loaded_bufflib L' = Some (<["s_twice"%string := VClosure x]> lib_ab) ∧
     bufflib_index [buf; VString (str "s_twice")] L' = Ok [VClosure x] L') ∧
  bufflib_index [buf; VString (str "nothing")] L_ab = Ok [VNil] L_ab.
Proof.
  assert (Hk : luaL_checkstring [buf; VString (str "s_twice")] 2 L_ab
               = Ok "s_twice"%string L_ab) by by_evaluation.
  assert (Habs : lua_getfield (metatable L_ab) "s_twice" = VNil) by by_evaluation.
  assert (Hf : string_function L_ab "twice" = Some twice) by by_evaluation.
  assert (Hlib : loaded_bufflib L_ab = Some lib_ab) by by_evaluation.
  assert (Hk' : luaL_checkstring [buf; VString (str "nothing")] 2 L_ab
                = Ok "nothing"%string L_ab) by by_evaluation.
  assert (Habs' : lua_getfield (metatable L_ab) "nothing" = VNil) by by_evaluation.
  split; [exact L_ab_buffer|]. split; [exact Hk|]. split; [exact Habs|].
  split; [exact Hf|]. split; [exact Hlib|]. split.
  - destruct (proj1 (index_resolves_string_methods L_ab 1 B_ab _ _
                       L_ab_buffer Hk Habs) "twice"%string twice lib_ab eq_refl Hf Hlib)
      as (x & L' & Hr & Hx & Hh & Hmt & Hl & Hagain).
    exists x, L'. split; [exact Hr|].
    split; [rewrite Hh; apply lookup_insert_eq|].
    split; [rewrite Hmt; apply lookup_insert_eq|].
    split; [exact Hl|].
    apply (Hagain 1%nat B_ab). apply buffer_heap. rewrite Hh.
    rewrite lookup_insert_ne; [by apply buffer_heap, L_ab_buffer|].
    intros ->. rewrite (proj1 (buffer_heap _ _ _) L_ab_buffer) in Hx. discriminate Hx.
  - apply (proj2 (index_resolves_string_methods L_ab 1 B_ab _ _
                    L_ab_buffer Hk' Habs')).
    intros rest Hrest. discriminate Hrest.
Defined.

(** ** C9 *)

Lemma operations_preserve_invariant_witness :
  wf_state L_ab ∧
  call f_add (buf :: added) L_ab = Ok [buf] L_added ∧
  wf_state L_added ∧ (∀ a B, buffer L_added a = Some B → 0 <= n B <= size B).
Proof.
  split; [exact wf_L_ab|].
  assert (Hadd : call f_add (buf :: added) L_ab = Ok [buf] L_added)
    by (apply (run_ok _ L_ab); by_evaluation).
  split; [exact Hadd|].
  exact (returned_state f_add (buf :: added) L_ab [buf] L_added Hadd
           (operations_preserve_invariant f_add (buf :: added) L_ab wf_L_ab)).
Defined.

(** ** C10 *)

Lemma mutators_return_their_buffer_witness :
  wf_state L_ab ∧
  (f_add = f_add ∨ f_add = f_addsep ∨ f_add = f_reset) ∧
  call f_add (buf :: added) L_ab = Ok [buf] L_added ∧
  ∃ a, index2value (buf :: added) 1 = Some (VUserdata a) ∧ [buf] = [VUserdata a] ∧
       is_Some (buffer L_ab a) ∧ is_Some (buffer L_added a).
Proof.
  split; [exact wf_L_ab|].
  assert (Hf : f_add = f_add ∨ f_add = f_addsep ∨ f_add = f_reset) by (left; reflexivity).
  split; [exact Hf|].
  assert (Hadd : call f_add (buf :: added) L_ab = Ok [buf] L_added)
    by (apply (run_ok _ L_ab); by_evaluation).
  split; [exact Hadd|].
  exact (mutators_return_their_buffer f_add (buf :: added) L_ab [buf] L_added
           wf_L_ab Hf Hadd).
Defined.

(** ** Further runs *)

Lemma wf_L_added : wf_state L_added.
Proof.
  apply (call_ok_wf f_add (buf :: added) L_ab [buf] L_added wf_L_ab).
  apply (run_ok _ L_ab). by_evaluation.
Qed.

(** The Buffer after [buf:add("c", 42, true, buf)]: its 18 bytes are in a
    block of 32 at address 2, referenced from the registry under 1. *)
Definition B_added : Buffer :=
  mkBuffer 1 (Udata 2) 32 18 (str "abc42true???????").

Example L_added_buffer : buffer L_added 1 = Some B_added.
Proof. by_evaluation. Qed.

Lemma reset_empties_witness :
  wf_state L_added ∧ buffer L_added 1 = Some B_added ∧
  registry L_added !! 1 = Some 2%nat ∧
  ∃ L', bufflib_reset [buf] L_added = Ok [buf] L' ∧
    bufflib_tostring [buf] L' = Ok [VString []] L' ∧
    bufflib_len [buf] L' = Ok [VNumber 0] L' ∧
    buffer L' 1 = Some (mkBuffer LUA_NOREF (InitbOf 1) 16 0 (str "abc42true???????")) ∧
    registry L' = delete 1 (registry L_added) ∧
    wf_state L' ∧
    ∀ y, y ≠ 1%nat → buffer L' y = buffer L_added y ∧ contents L' y = contents L_added y.
Proof.
  split; [exact wf_L_added|]. split; [exact L_added_buffer|].
  split; [by_evaluation|].
  exact (reset_empties L_added 1 B_added [] wf_L_added L_added_buffer).
Defined.

Lemma len_counts_tostring_witness :
  wf_state L_ab ∧ bufflib_tostring [buf] L_ab = Ok [VString (str "ab")] L_ab ∧
  blen (str "ab") < size_half ∧
  bufflib_len [buf] L_ab = Ok [VNumber 2] L_ab.
Proof.
  assert (Hsmall : blen (str "ab") < size_half) by reflexivity.
  split; [exact wf_L_ab|]. split; [exact L_ab_tostring|]. split; [exact Hsmall|].
  exact (len_counts_tostring L_ab 1 (str "ab") wf_L_ab L_ab_tostring Hsmall).
Defined.

(** [buf == other] *)
Definition L_compared : lua_State := state_of (call f_equal [buf; other] L_two) L_two.

Lemma readers_leave_state_witness :
  (f_equal = f_tostring ∨ f_equal = f_len ∨ f_equal = f_equal ∨ f_equal = f_isbuffer) ∧
  call f_equal [buf; other] L_two = Ok [VBool true] L_compared ∧
  L_compared = L_two.
Proof.
  assert (Hf : f_equal = f_tostring ∨ f_equal = f_len ∨ f_equal = f_equal ∨
               f_equal = f_isbuffer) by (right; right; left; reflexivity).
  assert (Hr : call f_equal [buf; other] L_two = Ok [VBool true] L_compared)
    by (apply (run_ok _ L_two); by_evaluation).
  split; [exact Hf|]. split; [exact Hr|].
  pose proof (readers_leave_state f_equal [buf; other] L_two Hf) as H.
  rewrite Hr in H. exact H.
Defined.

(** [bufflib.add("x")], [bufflib.equal(buf, "x")] and ["x" .. nil] *)
Lemma not_a_buffer_raises_witness :
  is_buffer_value L_ab (index2value [VString (str "x"); VNil] 1) = false ∧
  is_buffer_value L_ab (index2value [buf; VString (str "x")] 1) = true ∧
  is_buffer_value L_ab (index2value [buf; VString (str "x")] 2) = false ∧
  is_buffer_value L_ab (index2value [VString (str "x"); VNil] 2) = false ∧
  call f_add [VString (str "x"); VNil] L_ab = Raise (ArgError 1) L_ab ∧
  bufflib_equal [buf; VString (str "x")] L_ab = Raise (ArgError 2) L_ab ∧
  bufflib_concat [VString (str "x"); VNil] L_ab = Raise (ArgError 2) L_ab.
Proof.
  assert (H1 : is_buffer_value L_ab (index2value [VString (str "x"); VNil] 1) = false)
    by reflexivity.
  assert (H2 : is_buffer_value L_ab (index2value [buf; VString (str "x")] 1) = true)
    by by_evaluation.
  assert (H3 : is_buffer_value L_ab (index2value [buf; VString (str "x")] 2) = false)
    by reflexivity.
  assert (H4 : is_buffer_value L_ab (index2value [VString (str "x"); VNil] 2) = false)
    by reflexivity.
  do 4 (split; [assumption|]).
  split; [|split].
  - apply (proj1 (not_a_buffer_raises [VString (str "x"); VNil] L_ab) H1 f_add).
    apply elem_of_cons; left; reflexivity.
  - exact (proj1 (proj2 (not_a_buffer_raises [buf; VString (str "x")] L_ab)) H2 H3).
  - exact (proj2 (proj2 (not_a_buffer_raises [VString (str "x"); VNil] L_ab)) H1 H4).
Defined.

(** [buf:addsep()] *)
Definition L_doubled : lua_State := state_of (bufflib_addsep [buf] L_ab) L_ab.

Lemma addsep_alone_appends_itself_witness :
  wf_state L_ab ∧ bufflib_tostring [buf] L_ab = Ok [VString (str "ab")] L_ab ∧
  bufflib_addsep [buf] L_ab = Ok [buf] L_doubled ∧
  bufflib_tostring [buf] L_doubled = Ok [VString (str "abab")] L_doubled.
Proof.
  split; [exact wf_L_ab|]. split; [exact L_ab_tostring|].
  assert (Hr : bufflib_addsep [buf] L_ab = Ok [buf] L_doubled)
    by (apply (run_ok _ L_ab); by_evaluation).
  split; [exact Hr|].
  exact (proj2 (proj1 (addsep_alone_appends_itself L_ab 1 (str "ab")
                         wf_L_ab L_ab_tostring) [buf] L_doubled Hr)).
Defined.

(** [prepbuffsize] for 20 bytes moves the two bytes of [buf] to a block. *)
Definition L_grown : lua_State := state_of (prepbuffsize 1 20 L_ab) L_ab.

Lemma prepbuffsize_keeps_content_witness :
  wf_state L_ab ∧ buffer L_ab 1 = Some B_ab ∧
  prepbuffsize 1 20 L_ab = Ok (Udata 2, 2) L_grown ∧
  contents L_ab 1 = Some (str "ab") ∧
  ∃ B', buffer L_grown 1 = Some B' ∧ (Udata 2, 2) = (b B', n B') ∧ n B' = n B_ab ∧
        n B_ab + 20 <= size B' ∧ contents L_grown 1 = contents L_ab 1 ∧
        wf_state L_grown ∧
        ∀ y, y ≠ 1%nat → buffer L_grown y = buffer L_ab y ∧
                         contents L_grown y = contents L_ab y.
Proof.
  split; [exact wf_L_ab|]. split; [exact L_ab_buffer|].
  assert (Hr : prepbuffsize 1 20 L_ab = Ok (Udata 2, 2) L_grown)
    by (apply (run_ok _ L_ab); by_evaluation).
  split; [exact Hr|]. split; [by_evaluation|].
  exact (prepbuffsize_keeps_content L_ab 1 B_ab 20 (Udata 2, 2) L_grown
           wf_L_ab L_ab_buffer ltac:(lia) Hr).
Defined.

(** [buf.add] is found in the metatable. *)
Lemma index_finds_metatable_entry_witness :
  buffer L_ab 1 = Some B_ab ∧
  metatable L_ab !! c_str (str "add") = Some (VCFunction f_add) ∧
  VCFunction f_add ≠ VNil ∧
  bufflib_index [buf; VString (str "add")] L_ab = Ok [VCFunction f_add] L_ab.
Proof.
  assert (Hm : metatable L_ab !! c_str (str "add") = Some (VCFunction f_add))
    by by_evaluation.
  assert (Hv : VCFunction f_add ≠ VNil) by discriminate.
  split; [exact L_ab_buffer|]. split; [exact Hm|]. split; [exact Hv|].
  exact (index_finds_metatable_entry L_ab 1 B_ab (str "add") (VCFunction f_add)
           L_ab_buffer Hm Hv).
Defined.

(** [bufflib.new(buf, "x")] *)
Definition L_new : lua_State :=
  state_of (bufflib_newbuffer [buf; VString (str "x")] L_ab) L_ab.

Lemma new_holds_arguments_witness :
  wf_state L_ab ∧
  (∀ x, VUserdata x ∈ [buf; VString (str "x")] → is_Some (heap L_ab !! x)) ∧
  bufflib_newbuffer [buf; VString (str "x")] L_ab = Ok [other] L_new ∧
  mjoin ((λ v, default [] (display L_ab (Some v))) <$> [buf; VString (str "x")])
    = str "abx" ∧
  ∃ a, [other] = [VUserdata a] ∧ heap L_ab !! a = None ∧
       bufflib_tostring [other] L_new =
         Ok [VString (mjoin ((λ v, default [] (display L_ab (Some v)))
                               <$> [buf; VString (str "x")]))] L_new ∧
       bufflib_isbuffer [other] L_new = Ok [VBool true] L_new ∧
       wf_state L_new ∧
       ∀ y, y ≠ a → buffer L_new y = buffer L_ab y ∧ contents L_new y = contents L_ab y.
Proof.
  assert (Hlive : ∀ x, VUserdata x ∈ [buf; VString (str "x")] → is_Some (heap L_ab !! x)).
  { intros x Hx. apply elem_of_cons in Hx as [[= ->]|Hx].
    - exists (OBuffer B_ab). by_evaluation.
    - apply elem_of_cons in Hx as [Hx|Hx]; [discriminate Hx|].
      by apply elem_of_nil in Hx. }
  assert (Hr : bufflib_newbuffer [buf; VString (str "x")] L_ab = Ok [other] L_new)
    by (apply (run_ok _ L_ab); by_evaluation).
  split; [exact wf_L_ab|]. split; [exact Hlive|]. split; [exact Hr|].
  split; [by_evaluation|].
  exact (proj1 (new_holds_arguments [buf; VString (str "x")] L_ab wf_L_ab Hlive)
           [other] L_new Hr).
Defined.

(** [buf .. other] *)
Definition L_joined : lua_State :=
  state_of (bufflib_concat [buf; other] L_two) L_two.

Lemma concat_buffers_joins_witness :
  wf_state L_two ∧
  bufflib_tostring [buf] L_two = Ok [VString (str "ab")] L_two ∧
  bufflib_tostring [other] L_two = Ok [VString (str "ab")] L_two ∧
  bufflib_concat [buf; other] L_two = Ok [VUserdata 3] L_joined ∧
  ∃ d, [VUserdata 3] = [VUserdata d] ∧ heap L_two !! d = None ∧ wf_state L_joined ∧
       bufflib_tostring [VUserdata 3] L_joined = Ok [VString (str "ab" ++ str "ab")] L_joined ∧
       bufflib_tostring [buf] L_joined = Ok [VString (str "ab")] L_joined ∧
       bufflib_tostring [other] L_joined = Ok [VString (str "ab")] L_joined.
Proof.
  assert (H1 : bufflib_tostring [buf] L_two = Ok [VString (str "ab")] L_two)
    by by_evaluation.
  assert (H2 : bufflib_tostring [other] L_two = Ok [VString (str "ab")] L_two)
    by by_evaluation.
  assert (Hr : bufflib_concat [buf; other] L_two = Ok [VUserdata 3] L_joined)
    by (apply (run_ok _ L_two); by_evaluation).
  split; [exact wf_L_two|]. split; [exact H1|]. split; [exact H2|].
  split; [exact Hr|].
  exact (proj1 (concat_buffers_joins L_two 1 2 (str "ab") (str "ab") wf_L_two H1 H2)
           [VUserdata 3] L_joined Hr).
Defined.

(** ["x" .. buf] *)
Definition L_appended : lua_State :=
  state_of (bufflib_concat [VString (str "x"); buf] L_ab) L_ab.

Lemma concat_value_buffer_appends_witness :
  wf_state L_ab ∧ bufflib_tostring [buf] L_ab = Ok [VString (str "ab")] L_ab ∧
  is_buffer_value L_ab (Some (VString (str "x"))) = false ∧
  display L_ab (Some (VString (str "x"))) = Some (str "x") ∧
  bufflib_concat [VString (str "x"); buf] L_ab = Ok [buf] L_appended ∧
  [buf] = [buf] ∧ wf_state L_appended ∧
  bufflib_tostring [buf] L_appended = Ok [VString (str "ab" ++ str "x")] L_appended.
Proof.
  assert (Hv : is_buffer_value L_ab (Some (VString (str "x"))) = false) by reflexivity.
  assert (Hd : display L_ab (Some (VString (str "x"))) = Some (str "x")) by reflexivity.
  assert (Hr : bufflib_concat [VString (str "x"); buf] L_ab = Ok [buf] L_appended)
    by (apply (run_ok _ L_ab); by_evaluation).
  split; [exact wf_L_ab|]. split; [exact L_ab_tostring|]. split; [exact Hv|].
  split; [exact Hd|]. split; [exact Hr|].
  exact (proj1 (concat_value_buffer_appends L_ab 1 (str "ab") (VString (str "x")) (str "x")
                  wf_L_ab L_ab_tostring Hv Hd) [buf] L_appended Hr).
Defined.

(** [other:add("x")] leaves [buf] alone. *)
Lemma other_buffers_untouched_witness :
  wf_state L_two ∧
  call f_add [other; VString (str "x")] L_two = Ok [other] L_differ ∧
  is_Some (buffer L_two 1) ∧ (VUserdata 1 ∉ [other; VString (str "x")]) ∧
  buffer L_differ 1 = buffer L_two 1 ∧ contents L_differ 1 = contents L_two 1.
Proof.
  assert (Hr : call f_add [other; VString (str "x")] L_two = Ok [other] L_differ)
    by (apply (run_ok _ L_two); by_evaluation).
  assert (Hy : is_Some (buffer L_two 1)) by (exists B_ab; by_evaluation).
  assert (Hnot : VUserdata 1 ∉ [other; VString (str "x")]).
  { intros Hin. apply elem_of_cons in Hin as [Hin|Hin]; [discriminate Hin|].
    apply elem_of_cons in Hin as [Hin|Hin]; [discriminate Hin|].
    by apply elem_of_nil in Hin. }
  split; [exact wf_L_two|]. split; [exact Hr|]. split; [exact Hy|].
  split; [exact Hnot|].
  exact (other_buffers_untouched f_add [other; VString (str "x")] L_two [other] L_differ 1
           wf_L_two Hr Hy Hnot).
Defined.

(** An allocator that refuses 32 bytes and more: [buf:add("c",
    "0123456789abcdefgh")] adds ["c"] and fails on the second value. *)
Definition L_tight : lua_State :=
  mkState (heap L_ab) (registry L_ab) (metatable L_ab) (loaded_bufflib L_ab)
          (global_string L_ab) (λ _ z, z <? 32) (string_isnil L_ab) (global_bufflib L_ab).

Definition L_failed : lua_State :=
  state_of (bufflib_add [buf; VString (str "c"); VString (str "0123456789abcdefgh")] L_tight)
           L_tight.

Lemma wf_L_tight : wf_state L_tight.
Proof. exact (wf_same_heap L_ab L_tight wf_L_ab eq_refl). Qed.

Lemma add_failure_keeps_prefix_witness :
  wf_state L_tight ∧ bufflib_tostring [buf] L_tight = Ok [VString (str "ab")] L_tight ∧
  bufflib_add [buf; VString (str "c"); VString (str "0123456789abcdefgh")] L_tight
    = Raise MemoryError L_failed ∧
  bufflib_tostring [buf] L_failed = Ok [VString (str "abc")] L_failed ∧
  bufflib_add [buf; VString (str "c")] L_failed = Ok [buf]
    (state_of (bufflib_add [buf; VString (str "c")] L_failed) L_failed) ∧
  ∃ k d, display_forms L_tight 1 (str "ab") []
           [VString (str "c"); VString (str "0123456789abcdefgh")] !! k = Some d ∧
    wf_state L_failed ∧
    bufflib_tostring [buf] L_failed =
      Ok [VString (str "ab" ++ mjoin (take k (display_forms L_tight 1 (str "ab") []
            [VString (str "c"); VString (str "0123456789abcdefgh")])))] L_failed ∧
    bufflib_add [buf; VString d] L_failed = Raise MemoryError L_failed.
Proof.
  assert (Ht : bufflib_tostring [buf] L_tight = Ok [VString (str "ab")] L_tight)
    by by_evaluation.
  assert (Hr : bufflib_add [buf; VString (str "c"); VString (str "0123456789abcdefgh")]
                 L_tight = Raise MemoryError L_failed)
    by (apply (run_raise _ L_tight); by_evaluation).
  split; [exact wf_L_tight|]. split; [exact Ht|]. split; [exact Hr|].
  split; [by_evaluation|].
  split; [apply (run_ok _ L_failed); by_evaluation|].
  exact (add_failure_keeps_prefix L_tight 1 (str "ab")
           [VString (str "c"); VString (str "0123456789abcdefgh")] MemoryError L_failed
           wf_L_tight Ht Hr (or_intror eq_refl)).
Defined.

(** [buf:add("c", 42, true, buf)] moves the content of [buf] to a block,
    which the registry then holds. *)
Lemma stores_stay_anchored_witness :
  f_add ≠ f_gc ∧ wf_state L_ab ∧ anchored L_ab ∧
  call f_add (buf :: added) L_ab = Ok [buf] L_added ∧
  anchored L_added ∧
  b B_added = Udata 2 ∧ registry L_added !! ref B_added = Some 2%nat.
Proof.
  assert (Hne : ∀ f, f = f_add ∨ f = f_newbuffer → f ≠ f_gc)
    by (intros f [->| ->]; discriminate).
  assert (H0 : anchored L_extended).
  { apply anchored_no_buffers. apply (bool_decide_unpack _). by_evaluation. }
  assert (Hnew : call f_newbuffer [VString (str "ab")] L_extended = Ok [buf] L_ab)
    by exact L_ab_run.
  assert (Hadd : call f_add (buf :: added) L_ab = Ok [buf] L_added)
    by (apply (run_ok _ L_ab); by_evaluation).
  assert (H1 : anchored L_ab).
  { pose proof (stores_stay_anchored f_newbuffer [VString (str "ab")] L_extended
                  (Hne _ (or_intror eq_refl)) wf_L_extended H0) as H.
    rewrite Hnew in H. exact H. }
  split; [exact (Hne _ (or_introl eq_refl))|]. split; [exact wf_L_ab|].
  split; [exact H1|]. split; [exact Hadd|]. split.
  - pose proof (stores_stay_anchored f_add (buf :: added) L_ab
                  (Hne _ (or_introl eq_refl)) wf_L_ab H1) as H.
    rewrite Hadd in H. exact H.
  - split; [reflexivity|by_evaluation].
Defined.

(** The collector finalises the Buffer of [L_added]. *)
Lemma gc_releases_reference_witness :
  buffer L_added 1 = Some B_added ∧
  ∃ L', bufflib_gc [buf] L_added = Ok [] L' ∧
        registry L' = delete 1 (registry L_added) ∧
        heap L' = heap L_added ∧ metatable L' = metatable L_added ∧
        loaded_bufflib L' = loaded_bufflib L_added ∧
        global_string L' = global_string L_added.
Proof.
  split; [exact L_added_buffer|].
  exact (gc_releases_reference L_added 1 B_added [] L_added_buffer).
Defined.

Lemma accesses_stay_in_bounds_witness :
  wf_state L_ab ∧ anchored L_ab ∧
  f_add ∈ [f_add; f_reset; f_tostring; f_len; f_equal; f_gc; f_newbuffer; f_isbuffer] ∧
  call f_add (buf :: added) L_ab ≠ Undefined.
Proof.
  assert (Ha : anchored L_ab).
  { apply anchored_inline. apply (bool_decide_unpack _). by_evaluation. }
  assert (Hf : f_add ∈ [f_add; f_reset; f_tostring; f_len; f_equal; f_gc;
                        f_newbuffer; f_isbuffer])
    by (apply elem_of_cons; left; reflexivity).
  split; [exact wf_L_ab|]. split; [exact Ha|]. split; [exact Hf|].
  exact (accesses_stay_in_bounds f_add (buf :: added) L_ab wf_L_ab Ha Hf).
Defined.

Lemma registry_holds_only_stores_witness :
  wf_state L_ab ∧ anchored L_ab ∧ registry_owned L_ab ∧
  call f_add (buf :: added) L_ab = Ok [buf] L_added ∧
  registry_owned L_added.
Proof.
  assert (Ha : anchored L_ab).
  { apply anchored_inline. apply (bool_decide_unpack _). by_evaluation. }
  assert (Ho : registry_owned L_ab).
  { apply registry_owned_empty. by_evaluation. }
  assert (Hadd : call f_add (buf :: added) L_ab = Ok [buf] L_added)
    by (apply (run_ok _ L_ab); by_evaluation).
  split; [exact wf_L_ab|]. split; [exact Ha|]. split; [exact Ho|].
  split; [exact Hadd|].
  pose proof (registry_holds_only_stores f_add (buf :: added) L_ab wf_L_ab Ha Ho) as H.
  rewrite Hadd in H. exact H.
Defined.

(** [package.loaded.bufflib = nil], which leaves the global [bufflib] the
    only name of the library table; then [buf.s_twice] twice. *)
Definition L_unloaded : lua_State :=
  mkState (heap L_ab) (registry L_ab) (metatable L_ab) None
          (global_string L_ab) (frealloc L_ab) (string_isnil L_ab) (GTable lib_ab).

Lemma index_without_library_table_witness :
  buffer L_unloaded 1 = Some B_ab ∧
  luaL_checkstring [buf; VString (str "s_twice")] 2 L_unloaded
    = Ok (STRINGPREFIX +:+ "twice")%string L_unloaded ∧
  lua_getfield (metatable L_unloaded) (STRINGPREFIX +:+ "twice")%string = VNil ∧
  string_function L_unloaded "twice" = Some twice ∧
  loaded_bufflib L_unloaded = None ∧
  ∃ x L', bufflib_index [buf; VString (str "s_twice")] L_unloaded = Raise IndexError L' ∧
    heap L_unloaded !! x = None ∧
    heap L' = <[x := OClosure f_stringop twice]> (heap L_unloaded) ∧
    metatable L' = <[(STRINGPREFIX +:+ "twice")%string := VClosure x]>
                     (metatable L_unloaded) ∧
    loaded_bufflib L' = None ∧
    bufflib_index [buf; VString (str "s_twice")] L' = Ok [VClosure x] L'.
Proof.
  assert (HB : buffer L_unloaded 1 = Some B_ab) by by_evaluation.
  assert (Hk : luaL_checkstring [buf; VString (str "s_twice")] 2 L_unloaded
               = Ok (STRINGPREFIX +:+ "twice")%string L_unloaded) by by_evaluation.
  assert (Habs : lua_getfield (metatable L_unloaded) (STRINGPREFIX +:+ "twice")%string
                 = VNil) by by_evaluation.
  assert (Hf : string_function L_unloaded "twice" = Some twice) by by_evaluation.
  assert (Hlib : loaded_bufflib L_unloaded = None) by reflexivity.
  split; [exact HB|]. split; [exact Hk|]. split; [exact Habs|]. split; [exact Hf|].
  split; [exact Hlib|].
  exact (index_without_library_table L_unloaded 1 B_ab (VString (str "s_twice"))
           "twice" twice HB Hk Habs Hf Hlib).
Defined.

(** [buf:s_twice(3)] calls [string.twice("ab", 3)]. *)
Lemma stringop_passes_contents_witness :
  bufflib_tostring [buf] L_ab = Ok [VString (str "ab")] L_ab ∧
  bufflib_stringop_call twice [buf; VNumber 3] L_ab =
    Ok ([twice; VString (str "ab"); VNumber 3], 2) L_ab.
Proof.
  split; [exact L_ab_tostring|].
  exact (proj1 (stringop_passes_contents L_ab 1 (str "ab") [VNumber 3] twice
                  L_ab_tostring)).
Defined.

(** [require "bufflib"] where the string library holds [len]: both tables
    get the functions of the library, and [s_len] is in both the one new
    closure over [string.len]. *)
Lemma luaopen_registers_witness :
  ∃ L' lib x, luaopen_bufflib L_start = Ok tt L' ∧ loaded_bufflib L' = Some lib ∧
    metatable L' !! "add"%string = Some (VCFunction f_add) ∧
    metatable L' !! "__index"%string = Some (VCFunction f_index) ∧
    lib !! "new"%string = Some (VCFunction f_newbuffer) ∧
    heap L' !! x = Some (OClosure f_stringop (VObject "string.len"%string)) ∧
    metatable L' !! "s_len"%string = Some (VClosure x) ∧
    lib !! "s_len"%string = Some (VClosure x).
Proof.
  destruct (luaopen_registers L_start) as
    (L' & lib & Hrun & Hlib & Hmeta & Hindex & Hlibreg & _ & Hstr & _).
  - intros H. discriminate H.
  - intros _ _ H. discriminate H.
  - intros name f. unfold string_function, lua_getfield, L_start, strlib_at_load.
    simpl global_string. destruct (decide (name = "len"%string)) as [->|Hne].
    + intros _. reflexivity.
    + rewrite lookup_singleton_ne by done. intros H. discriminate H.
  - assert (Hlen : string_function L_start "len" = Some (VObject "string.len"%string))
      by by_evaluation.
    destruct (Hstr _ _ Hlen) as (x & _ & Hx & Hm & Hl).
    exists L', lib, x. split; [exact Hrun|]. split; [exact Hlib|].
    split.
    { apply Hmeta. unfold metareg.
      repeat (apply elem_of_cons; first [left; reflexivity|right]). }
    split; [exact Hindex|]. split.
    { apply Hlibreg. unfold libreg.
      repeat (apply elem_of_cons; first [left; reflexivity|right]). }
    split; [exact Hx|]. split; [exact Hm|exact Hl].
Defined.

End Runs.
